(** * pitaya: route dictionary, handler dispatch and the gRPC peer client

    A shallow embedding of four pieces of the framework:
    - [message]   : conn/message/message.go   (message kinds, route dictionary)
    - [component] : component/service.go      (handler descriptors, kind validation)
    - [service]   : service/util.go           (the handler dispatch pipeline)
    - [cluster]   : cluster/grpc_rpc_client.go (the gRPC peer client pool)

    Go maps are [gmap]s, Go strings are [string]s, byte slices are lists of
    bytes.  Functions that mutate package-level or receiver state take the
    state and return the new one.  Calls that leave the process (hooks,
    handler invocation, the transport, the binding directory) are recorded
    in a trace of events, so that "was called" is a statement about the
    trace. *)

From Stdlib Require Import Ascii String.
From stdpp Require Import gmap strings list fin_maps.

Local Open Scope string_scope.
Local Open Scope list_scope.
Local Open Scope stdpp_scope.

(** Go's [[]byte]. *)
Abbreviation bytes := (list Byte.byte).

(** ** Errors

    One type for the values of Go's [error] interface that the embedded
    functions create or pass along. *)
Inductive error : Type :=
  (* fmt.Errorf("duplicated route(route: %s, code: %d)", r, code) *)
  | ErrDuplicatedRoute (r : string) (code : N)
  (* package constants *)
  | ErrRequestOnNotify
  | ErrNotifyOnRequest
  | ErrNoConnectionToServer
  | ErrNoBindingStorageModule
  | ErrNotImplemented
  (* service.errInvalidMsg *)
  | errInvalidMsg
  (* fmt.Errorf("pitaya/handler: %s not found", rt.String()) *)
  | ErrHandlerNotFound (rt : string)
  (* &pitErrors.Error{Code, Message, Metadata} *)
  | PitayaError (Code Message : string) (Metadata : gmap string string)
  (* an error value produced outside the embedded code
     (user hooks and handlers, serializer, transport, binding directory) *)
  | ErrExternal (msg : string).

(* ================================================================== *)
(** ** package message *)
(* ================================================================== *)
Module message.

(** [type Type byte]; the four named kinds. *)
Abbreviation Type_ := N.
Definition Request : Type_ := 0%N.
Definition Notify : Type_ := 1%N.
Definition Response : Type_ := 2%N.
Definition Push : Type_ := 3%N.

Definition routable (t : Type_) : bool :=
  (t =? Request)%N || (t =? Notify)%N || (t =? Push)%N.

Definition invalidType (t : Type_) : bool :=
  (t <? Request)%N || (Push <? t)%N.

(** [Message]: an unmarshaled message or one to be marshaled. *)
Record Message : Type := mkMessage {
  Type' : Type_;
  ID : N;
  Route : string;
  Data : bytes;
  compressed : bool;
  Err : bool
}.

(** The package-level pair of maps [routes] and [codes]
  ([uint16] codes are kept as [N]). *)
Record Dictionary : Type := mkDictionary {
  routes : gmap string N;
  codes : gmap N string
  }.

Definition emptyDictionary : Dictionary := mkDictionary ∅ ∅.

(** [strings.TrimSpace] of the Go library removes, from both ends of the
    string, every rune for which [unicode.IsSpace] holds.  A Go string is
    a sequence of bytes read as UTF-8, and the white-space runes are, with
    their encodings:
    U+0009 to U+000D and U+0020, one byte each;
    U+0085 (C2 85) and U+00A0 (C2 A0);
    U+1680 (E1 9A 80), U+2000 to U+200A (E2 80 80 to E2 80 8A),
    U+2028 (E2 80 A8), U+2029 (E2 80 A9), U+202F (E2 80 AF),
    U+205F (E2 81 9F) and U+3000 (E3 80 80).
    A byte that starts no valid encoding decodes to U+FFFD, which is not
    white space, so trimming stops there. *)
Definition isSpace (c : ascii) : bool :=
  let n := nat_of_ascii c in
  (n =? 9)%nat || (n =? 10)%nat || (n =? 11)%nat || (n =? 12)%nat || (n =? 13)%nat || (n =? 32)%nat.

(** The two bytes encode U+0085 or U+00A0. *)
Definition isSpace2 (c1 c2 : ascii) : bool :=
  (nat_of_ascii c1 =? 194)%nat
  && ((nat_of_ascii c2 =? 133)%nat || (nat_of_ascii c2 =? 160)%nat).

(** The three bytes encode one of the white-space runes from U+1680 on. *)
Definition isSpace3 (c1 c2 c3 : ascii) : bool :=
  let n1 := nat_of_ascii c1 in
  let n2 := nat_of_ascii c2 in
  let n3 := nat_of_ascii c3 in
  ((n1 =? 225)%nat && (n2 =? 154)%nat && (n3 =? 128)%nat)
  || ((n1 =? 226)%nat && (n2 =? 128)%nat
      && (((128 <=? n3)%nat && (n3 <=? 138)%nat)
          || (n3 =? 168)%nat || (n3 =? 169)%nat || (n3 =? 175)%nat))
  || ((n1 =? 226)%nat && (n2 =? 129)%nat && (n3 =? 159)%nat)
  || ((n1 =? 227)%nat && (n2 =? 128)%nat && (n3 =? 128)%nat).

(** Drops the white-space runes a byte sequence starts with; [sp2] and
    [sp3] recognise the two- and three-byte encodings in the order in
    which the bytes are met. *)
Fixpoint trimRunes (sp2 : ascii → ascii → bool) (sp3 : ascii → ascii → ascii → bool)
    (s : string) : string :=
  match s with
  | EmptyString => EmptyString
  | String c1 s1 =>
    if isSpace c1 then trimRunes sp2 sp3 s1
    else
      match s1 with
      | EmptyString => s
      | String c2 s2 =>
        if sp2 c1 c2 then trimRunes sp2 sp3 s2
        else
          match s2 with
          | EmptyString => s
          | String c3 s3 => if sp3 c1 c2 c3 then trimRunes sp2 sp3 s3 else s
          end
      end
  end.

(** [strings.TrimLeftFunc(s, unicode.IsSpace)]. *)
Definition trimLeft (s : string) : string := trimRunes isSpace2 isSpace3 s.

(** [strings.TrimRightFunc(s, unicode.IsSpace)]: the same scan from the
    last byte backwards, where an encoding is met last byte first. *)
Definition trimRight (s : string) : string :=
  String.rev
    (trimRunes (λ c2 c1, isSpace2 c1 c2) (λ c3 c2 c1, isSpace3 c1 c2 c3)
       (String.rev s)).

Definition TrimSpace (s : string) : string := trimRight (trimLeft s).

Section SetDictionary.
(** [strings.TrimSpace] belongs to the Go library; the results below
    hold for every function put in its place. *)
Variable trim : string → string.

(** The entry [(route, code)] collides with what is installed. *)
Definition collides (st : Dictionary) (e : string * N) : Prop :=
  is_Some (routes st !! trim e.1) ∨ is_Some (codes st !! e.2).

(** [routes[r] = code; codes[code] = r]. *)
Definition install (st : Dictionary) (e : string * N) : Dictionary :=
  mkDictionary (<[trim e.1 := e.2]> (routes st)) (<[e.2 := trim e.1]> (codes st)).

(** The body of [for route, code := range dict], on the entries in the
    order in which the range statement yields them. *)
Fixpoint SetDictionary_range (entries : list (string * N)) (st : Dictionary)
  : Dictionary * option error :=
  match entries with
  | [] => (st, None)
  | (route, code) :: rest =>
      let r := trim route in
      match routes st !! r with
      | Some _ => (st, Some (ErrDuplicatedRoute r code))
      | None =>
          match codes st !! code with
          | Some _ => (st, Some (ErrDuplicatedRoute r code))
          | None => SetDictionary_range rest (install st (route, code))
          end
      end
  end.

(** Go leaves the iteration order of a map unspecified: every
    permutation of the entries is a possible order. *)
Definition range_order (dict : gmap string N) (entries : list (string * N)) : Prop :=
  entries ≡ₚ map_to_list dict.

(** [SetDictionary]; [None] is the nil map.  [entries] is the order the
    range statement takes; it is ignored for the nil map. *)
Definition SetDictionary (dict : option (gmap string N)) (entries : list (string * N))
    (st : Dictionary) : Dictionary * option error :=
  match dict with
  | None => (st, None)
  | Some _ => SetDictionary_range entries st
  end.

Definition GetDictionary (st : Dictionary) : gmap string N := routes st.

(** The map has a duplicate: an entry of the map whose trimmed
    route or whose code is installed already, or two entries of the map
    with the same trimmed route or the same code. *)
Definition has_duplicate (dict : gmap string N) (st : Dictionary) : Prop :=
  (∃ r c, dict !! r = Some c ∧ collides st (r, c))
  ∨ (∃ r1 c1 r2 c2, r1 ≠ r2 ∧ dict !! r1 = Some c1 ∧ dict !! r2 = Some c2
                    ∧ (trim r1 = trim r2 ∨ c1 = c2)).

(** Every mapping of [st] is still there in [st']. *)
Definition extends (st st' : Dictionary) : Prop :=
  routes st ⊆ routes st' ∧ codes st ⊆ codes st'.

End SetDictionary.

End message.

(* ================================================================== *)
(** ** package component *)
(* ================================================================== *)
Module component.

Section Handler.
(** [reflect.Value], [reflect.Method] and [reflect.Type] are opaque. *)
Context {RValue RMethod RType : Type}.

(** [Handler]: [Type_] is [None] for a nil [reflect.Type]. *)
Record Handler : Type := mkHandler {
  Receiver : RValue;
  Method : RMethod;
  Type_ : option RType;
  IsRawArg : bool;
  MessageType : message.Type_
}.

(** [ValidateMessageType] returns [(exitOnError, err)]; both named results
    start at their zero values and the [switch] has no default case. *)
Definition ValidateMessageType (h : Handler) (msgType : message.Type_)
  : bool * option error :=
  if decide (MessageType h ≠ msgType) then
    if decide (msgType = message.Request) then (true, Some ErrRequestOnNotify)
    else if decide (msgType = message.Notify) then (false, Some ErrNotifyOnRequest)
    else (false, None)
  else (false, None).

End Handler.

Arguments Handler : clear implicits.

End component.

(* ================================================================== *)
(** ** Traces

    A computation that calls out of the embedded code returns the list of
    the calls and log lines it made, in order, next to its result. *)
(* ================================================================== *)
Definition Traced (E A : Type) : Type := list E * A.

#[global] Instance Traced_ret {E} : MRet (Traced E) := λ _ a, ([], a).
#[global] Instance Traced_bind {E} : MBind (Traced E) :=
  λ _ _ f m, let '(t, a) := m in let '(t', b) := f a in (t ++ t', b).

Definition emit {E} (e : E) : Traced E unit := ([e], tt).
Definition trace_of {E A} (m : Traced E A) : list E := m.1.
Definition value_of {E A} (m : Traced E A) : A := m.2.

(* ================================================================== *)
(** ** package service *)
(* ================================================================== *)
Module service.
Import component.

(** A Go [interface{}] holding a handler argument or result: nil, a byte
    slice, or a (pointer to a) user object. *)
Inductive iface (Obj : Type) : Type :=
  | INil
  | IBytes (b : bytes)
  | IObj (v : Obj).
Arguments INil {Obj}.
Arguments IBytes {Obj} b.
Arguments IObj {Obj} v.

(** The dynamic type behind the [msgTypeIface] parameter. *)
Inductive msgIface (ProtoMsgType : Type) : Type :=
  | IsMessageType (t : message.Type_)
  | IsProtoMsgType (p : ProtoMsgType)
  | IsOther.
Arguments IsMessageType {ProtoMsgType} t.
Arguments IsProtoMsgType {ProtoMsgType} p.
Arguments IsOther {ProtoMsgType}.

(** [[]byte("ack")] *)
Definition ack : bytes := Eval cbv in list_byte_of_string "ack".

(** What [service/util.go] imports from packages that are not embedded
    here: contexts, sessions, routes, the serializer, reflection calls
    ([util.Pcall]), error construction ([errors.NewError] and its codes). *)
Record Runtime : Type := mkRuntime {
  Ctx : Type;
  Session : Type;
  Route : Type;
  Serializer : Type;
  Obj : Type;
  RValue : Type;
  RMethod : Type;
  RType : Type;
  ProtoMsgType : Type;
  (* context.Background() *)
  Background : Ctx;
  (* context.WithValue(ctx, constants.SessionCtxKey, session) *)
  WithSession : Ctx → Session → Ctx;
  (* util.CtxWithDefaultLogger(ctx, route, uid) *)
  CtxWithDefaultLogger : Ctx → string → string → Ctx;
  SessionUID : Session → string;
  SessionID : Session → Z;
  RouteShort : Route → string;
  RouteString : Route → string;
  (* serializer.Unmarshal(payload, reflect.New(t.Elem()).Interface()) *)
  Unmarshal : Serializer → bytes → RType → Obj + error;
  (* serializer.Marshal(v) *)
  Marshal : Serializer → iface Obj → bytes * option error;
  (* util.GetErrorPayload(serializer, err) *)
  GetErrorPayload : Serializer → error → bytes * option error;
  (* util.ConvertProtoToMessageType(val) *)
  ConvertProtoToMessageType : ProtoMsgType → message.Type_;
  (* e.NewError(err, code) *)
  NewError : error → string → error;
  ErrNotFoundCode : string;
  ErrInternalCode : string;
  ErrBadRequestCode : string
}.

Section Dispatch.
Context (R : Runtime).

Abbreviation Handler := (component.Handler (RValue R) (RMethod R) (RType R)).
Abbreviation value := (iface (Obj R)).

(** A [reflect.Value] in the argument list of the handler call. *)
Inductive rvalue : Type :=
  | RVReceiver (r : RValue R)
  | RVCtx (c : Ctx R)
  | RVArg (a : value).

(** [pipeline.HandlerTempl] and [pipeline.AfterHandlerTempl]. *)
Definition BeforeHook : Type := Ctx R → value → value * option error.
Definition AfterHook : Type := Ctx R → value → option error → value * option error.

(** The process-wide state the dispatch reads: the [handlers] table, the
    two hook chains, and what [util.Pcall] returns for a method and its
    argument list (the panic recovery is inside [Pcall]). *)
Record Globals : Type := mkGlobals {
  handlers : gmap string Handler;
  BeforeHandlers : list BeforeHook;
  AfterHandlers : list AfterHook;
  Pcall : RMethod R → list rvalue → value * option error
}.

Inductive event : Type :=
  (* the i-th pre-hook is called with (ctx, arg) *)
  | CallBefore (i : nat) (ctx : Ctx R) (arg : value)
  (* the i-th post-hook is called with (ctx, res, err) *)
  | CallAfter (i : nat) (ctx : Ctx R) (res : value) (err : option error)
  (* util.Pcall(h.Method, args) *)
  | CallHandler (m : RMethod R) (args : list rvalue)
  (* logger.Log.Debugf("pitaya/handler: broken pipeline: %s", ...) *)
  | LogBrokenPipeline (err : error)
  (* logger.Warnf("invalid message type, error: %s", ...) *)
  | LogInvalidMessageType (err : error)
  (* logger.Debugf("SID=%d, Data=%s", ...) *)
  | LogData (sid : Z) (data : bytes)
  (* logger.Log.Errorf("Failed to serialize return: %s", ...) *)
  | LogSerializeFailed (err : error)
  (* logger.Log.Error("cannot serialize message and respond to the client ", ...) *)
  | LogCannotRespond (err : error).

Abbreviation T := (Traced event).

Definition getHandler (g : Globals) (rt : Route R) : Handler + error :=
  match handlers g !! RouteShort R rt with
  | Some handler => inl handler
  | None => inr (ErrHandlerNotFound (RouteString R rt))
  end.

Definition unmarshalHandlerArg (handler : Handler) (serializer : Serializer R)
    (payload : bytes) : value * option error :=
  if IsRawArg handler then (IBytes payload, None)
  else
    match component.Type_ handler with
    | Some t =>
        match Unmarshal R serializer payload t with
        | inr err => (INil, Some err)
        | inl v => (IObj v, None)
        end
    | None => (INil, None)
    end.

Definition getMsgType (msgTypeIface : msgIface (ProtoMsgType R))
  : message.Type_ * option error :=
  match msgTypeIface with
  | IsMessageType val => (val, None)
  | IsProtoMsgType val => (ConvertProtoToMessageType R val, None)
  | IsOther => (0%N, Some errInvalidMsg)
  end.

(** The loop of [executeBeforePipeline], from hook number [i] on. *)
Fixpoint beforeLoop (ctx : Ctx R) (hs : list BeforeHook) (i : nat) (res : value)
  : T (value * option error) :=
  match hs with
  | [] => mret (res, None)
  | h :: hs' =>
      _ ← emit (CallBefore i ctx res);
      let '(res', err) := h ctx res in
      match err with
      | Some e => _ ← emit (LogBrokenPipeline e); mret (res', Some e)
      | None => beforeLoop ctx hs' (S i) res'
      end
  end.

Definition executeBeforePipeline (g : Globals) (ctx : Ctx R) (data : value)
  : T (value * option error) :=
  beforeLoop ctx (BeforeHandlers g) 0 data.

(** The loop of [executeAfterPipeline], from hook number [i] on. *)
Fixpoint afterLoop (ctx : Ctx R) (hs : list AfterHook) (i : nat)
    (ret : value) (err : option error) : T (value * option error) :=
  match hs with
  | [] => mret (ret, err)
  | h :: hs' =>
      _ ← emit (CallAfter i ctx ret err);
      let '(ret', err') := h ctx ret err in
      afterLoop ctx hs' (S i) ret' err'
  end.

Definition executeAfterPipeline (g : Globals) (ctx : Ctx R) (res : value)
    (err : option error) : T (value * option error) :=
  afterLoop ctx (AfterHandlers g) 0 res err.

(** Modelled from the spec: [util.SerializeOrRaw] is not among the sources.
    A result is "either raw bytes or a pointer to a serializable payload":
    raw bytes are the payload as they are, anything else goes through the
    serializer. *)
Definition SerializeOrRaw (ser : Serializer R) (v : value) : bytes * option error :=
  match v with
  | IBytes data => (data, None)
  | _ => Marshal R ser v
  end.

Definition serializeReturn (ser : Serializer R) (ret : value)
  : T (bytes * option error) :=
  let '(res, err) := SerializeOrRaw ser ret in
  match err with
  | Some err =>
      _ ← emit (LogSerializeFailed err);
      let '(res, err) := GetErrorPayload R ser err in
      match err with
      | Some err => _ ← emit (LogCannotRespond err); mret ([], Some err)
      | None => mret (res, None)
      end
  | None => mret (res, None)
  end.

(** The context the hooks and the handler see. *)
Definition dispatchCtx (ctx : option (Ctx R)) (rt : Route R) (session : Session R)
  : Ctx R :=
  let ctx := match ctx with None => Background R | Some c => c end in
  let ctx := WithSession R ctx session in
  CtxWithDefaultLogger R ctx (RouteString R rt) (SessionUID R session).

(** [args := []reflect.Value{h.Receiver, reflect.ValueOf(ctx)}], plus the
    argument when it is not nil. *)
Definition handlerArgs (h : Handler) (ctx : Ctx R) (arg : value) : list rvalue :=
  [RVReceiver (Receiver h); RVCtx ctx] ++
  match arg with INil => [] | _ => [RVArg arg] end.

(** From [resp, err := util.Pcall(h.Method, args)] to the end. *)
Definition invokeAndRespond (g : Globals) (ctx : Ctx R) (h : Handler)
    (serializer : Serializer R) (msgType : message.Type_) (remote : bool)
    (arg : value) : T (bytes * option error) :=
  let args := handlerArgs h ctx arg in
  _ ← emit (CallHandler (Method h) args);
  let '(resp, err) := Pcall g (Method h) args in
  let resp := if remote && bool_decide (msgType = message.Notify)
              then IBytes ack else resp in
  '(resp, err) ← executeAfterPipeline g ctx resp err;
  match err with
  | Some err => mret ([], Some err)
  | None =>
      '(ret, err) ← serializeReturn serializer resp;
      match err with
      | Some err => mret ([], Some err)
      | None => mret (ret, None)
      end
  end.

(** From [arg, err := unmarshalHandlerArg(h, serializer, data)] to the end. *)
Definition decodeAndRun (g : Globals) (ctx : Ctx R) (h : Handler)
    (serializer : Serializer R) (session : Session R) (data : bytes)
    (msgType : message.Type_) (remote : bool) : T (bytes * option error) :=
  let '(arg, err) := unmarshalHandlerArg h serializer data in
  match err with
  | Some err => mret ([], Some (NewError R err (ErrBadRequestCode R)))
  | None =>
      '(arg, err) ← executeBeforePipeline g ctx arg;
      match err with
      | Some err => mret ([], Some err)
      | None =>
          _ ← emit (LogData (SessionID R session) data);
          invokeAndRespond g ctx h serializer msgType remote arg
      end
  end.

(** [processHandlerMessage]; a nil byte slice is returned as [[]]. *)
Definition processHandlerMessage (g : Globals) (ctx : option (Ctx R))
    (rt : Route R) (serializer : Serializer R) (session : Session R)
    (data : bytes) (msgTypeIface : msgIface (ProtoMsgType R)) (remote : bool)
  : T (bytes * option error) :=
  let ctx := dispatchCtx ctx rt session in
  match getHandler g rt with
  | inr err => mret ([], Some (NewError R err (ErrNotFoundCode R)))
  | inl h =>
      let '(msgType, err) := getMsgType msgTypeIface in
      match err with
      | Some err => mret ([], Some (NewError R err (ErrInternalCode R)))
      | None =>
          let '(exit, err) := ValidateMessageType h msgType in
          match err, exit with
          | Some err, true => mret ([], Some (NewError R err (ErrBadRequestCode R)))
          | Some err, false =>
              _ ← emit (LogInvalidMessageType err);
              decodeAndRun g ctx h serializer session data msgType remote
          | None, _ =>
              decodeAndRun g ctx h serializer session data msgType remote
          end
      end
  end.

(** The handler was invoked: [util.Pcall] occurs in the trace. *)
Definition invoked (tr : list event) : Prop :=
  ∃ m args, CallHandler m args ∈ tr.

(** Pre-hook number [i] was called. *)
Definition before_called (i : nat) (tr : list event) : Prop :=
  ∃ ctx arg, CallBefore i ctx arg ∈ tr.

(** Post-hook number [i] was called. *)
Definition after_called (i : nat) (tr : list event) : Prop :=
  ∃ ctx res err, CallAfter i ctx res err ∈ tr.

(** The handler [h], declared for the kind [t] instead of its own. *)
Definition withMessageType (h : Handler) (t : message.Type_) : Handler :=
  mkHandler (Receiver h) (Method h) (component.Type_ h) (IsRawArg h) t.

(** The globals with [h] registered under the key [k]. *)
Definition withHandler (g : Globals) (k : string) (h : Handler) : Globals :=
  mkGlobals (<[k := h]> (handlers g)) (BeforeHandlers g) (AfterHandlers g) (Pcall g).

(** The numbers of the pre-hooks called, in the order of the calls. *)
Definition beforeCalls (tr : list event) : list nat :=
  omap (λ e, match e with CallBefore i _ _ => Some i | _ => None end) tr.

(** The numbers of the post-hooks called, in the order of the calls. *)
Definition afterCalls (tr : list event) : list nat :=
  omap (λ e, match e with CallAfter i _ _ _ => Some i | _ => None end) tr.

(** The pair [(ret, err)] after the post-hooks [hs] have been applied, one
    after the other, to the pair [p]. *)
Definition afterChain (ctx : Ctx R) (hs : list AfterHook)
    (p : value * option error) : value * option error :=
  foldl (λ p h, h ctx p.1 p.2) p hs.

(** The value [resp] has when the post-hooks are entered, [out] being what
    [util.Pcall] returned. *)
Definition respBeforeHooks (remote : bool) (t : message.Type_)
    (out : value * option error) : value :=
  if remote && bool_decide (t = message.Notify) then IBytes ack else out.1.

(** The log line of a kind mismatch that does not end the dispatch. *)
Definition mismatchLog (h : Handler) (t : message.Type_) : list event :=
  match (ValidateMessageType h t).2 with
  | Some e => [LogInvalidMessageType e]
  | None => []
  end.

(** The dispatch gets as far as the handler call with argument [arg]: the
    route resolves to [h], the kind is [t] and is not refused, the payload
    decodes and every pre-hook succeeds. *)
Definition reaches_handler (g : Globals) (ctx : option (Ctx R)) (rt : Route R)
    (serializer : Serializer R) (session : Session R) (data : bytes)
    (msgTypeIface : msgIface (ProtoMsgType R))
    (h : Handler) (t : message.Type_) (arg : value) : Prop :=
  getHandler g rt = inl h
  ∧ getMsgType msgTypeIface = (t, None)
  ∧ (ValidateMessageType h t).1 = false
  ∧ ∃ arg0, unmarshalHandlerArg h serializer data = (arg0, None)
            ∧ value_of (executeBeforePipeline g (dispatchCtx ctx rt session) arg0)
              = (arg, None).

End Dispatch.

Arguments RVReceiver {R} r.
Arguments RVCtx {R} c.
Arguments RVArg {R} a.
Arguments CallBefore {R} i ctx arg.
Arguments CallAfter {R} i ctx res err.
Arguments CallHandler {R} m args.
Arguments LogBrokenPipeline {R} err.
Arguments LogInvalidMessageType {R} err.
Arguments LogData {R} sid data.
Arguments LogSerializeFailed {R} err.
Arguments LogCannotRespond {R} err.
Arguments mkGlobals {R}.
Arguments handlers {R} g.
Arguments BeforeHandlers {R} g.
Arguments AfterHandlers {R} g.
Arguments Pcall {R} g.

End service.

(* ================================================================== *)
(** ** package cluster: the gRPC peer client *)
(* ================================================================== *)
Module cluster.

(** [Server]: a membership record. *)
Record Server : Type := mkServer {
  ID : string;
  Type_ : string;
  Metadata : gmap string string;
  Frontend : bool
}.

(** [protos.Error], [protos.Response] and [protos.BindMsg], with the fields
    the client reads and writes. *)
Record ProtoError : Type := mkProtoError {
  Code : string;
  Msg : string;
  ErrMetadata : gmap string string
}.

Record Response : Type := mkResponse {
  Data : bytes;
  Error : option ProtoError
}.

Record BindMsg : Type := mkBindMsg {
  Uid : string;
  Fid : string
}.

(** [grpcClient]: the stub and the connection exist exactly when
    [connected] is set; calls through them are addressed by [address]. *)
Record grpcClient : Type := mkGrpcClient {
  address : string;
  connected : bool
}.

(** [interfaces.BindingStorage], by its one method [GetUserFrontendID]. *)
Definition BindingStorage : Type := string → string → string * option error.

(** What [cluster/grpc_rpc_client.go] imports from packages that are not
    embedded here: contexts and tracing, request construction, the clock,
    and the network behind [grpc.Dial] and the generated client stub. *)
Record Network : Type := mkNetwork {
  Ctx : Type;
  Session : Type;
  Route : Type;
  RPCType : Type;
  Request : Type;
  Push : Type;
  KickMsg : Type;
  Span : Type;
  Reporter : Type;
  Background : Ctx;
  (* context.WithTimeout(ctx, d); the cancel function is the event Cancel *)
  WithTimeout : Ctx → Z → Ctx;
  ExtractSpan : Ctx → Span * option error;
  StartSpan : Ctx → string → gmap string string → Span → Ctx;
  (* pcontext.AddToPropagateCtx(ctx, constants.StartTimeKey, t) *)
  AddStartTime : Ctx → Z → Ctx;
  (* pcontext.AddToPropagateCtx(ctx, constants.RouteKey, r) *)
  AddRoute : Ctx → string → Ctx;
  RouteString : Route → string;
  (* time.Now().UnixNano() *)
  now : Z;
  buildRequest : Ctx → RPCType → Route → Session → message.Message → Server
                 → Request + error;
  (* grpc.Dial(address, grpc.WithInsecure()) *)
  Dial : string → option error;
  (* the stub's methods, by the address of the connection *)
  cliCall : string → Ctx → Request → Response + error;
  cliPushToUser : string → Ctx → Push → option error;
  cliKickUser : string → Ctx → KickMsg → option error;
  cliSessionBindRemote : string → Ctx → BindMsg → option error;
  (* pitErrors.ErrUnknownCode *)
  ErrUnknownCode : string
}.

Section Client.
Context (Net : Network).

(** [GRPCClient]; [clientMap] holds pointers, so a client changed by a
    call is written back under its key. *)
Record GRPCClient : Type := mkGRPCClient {
  bindingStorage : option BindingStorage;
  clientMap : gmap string grpcClient;
  dialTimeout : Z;
  lazy : bool;
  reqTimeout : Z;
  server : Server;
  metricsReporters : option (list (Reporter Net))
}.

Definition withClient (gs : GRPCClient) (id : string) (c : grpcClient) : GRPCClient :=
  mkGRPCClient (bindingStorage gs) (<[id := c]> (clientMap gs)) (dialTimeout gs)
               (lazy gs) (reqTimeout gs) (server gs) (metricsReporters gs).

Inductive event : Type :=
  (* gs.bindingStorage.GetUserFrontendID(uid, serverType) *)
  | LookupFrontend (uid serverType : string)
  | DialPeer (address : string)
  | RpcCall (address : string) (ctx : Ctx Net) (req : Request Net)
  | RpcPushToUser (address : string) (ctx : Ctx Net) (push : Push Net)
  | RpcKickUser (address : string) (ctx : Ctx Net) (kick : KickMsg Net)
  | RpcSessionBindRemote (address : string) (ctx : Ctx Net) (msg : BindMsg)
  (* logger.Log.Warnf("[grpc client] failed to retrieve parent span: %s", ...) *)
  | LogNoParentSpan (err : error)
  (* deferred: done(), tracing.FinishSpan, metrics.ReportTimingFromCtx *)
  | Cancel
  | FinishSpan (ctx : Ctx Net) (err : option error)
  | ReportTiming (ctx : Ctx Net) (err : option error).

Abbreviation T := (Traced event).

Definition connect (gc : grpcClient) : T (grpcClient * option error) :=
  if connected gc then mret (gc, None)
  else
    _ ← emit (DialPeer (address gc));
    match Dial Net (address gc) with
    | Some err => mret (gc, Some err)
    | None => mret (mkGrpcClient (address gc) true, None)
    end.

(** [if !gc.connected { if err := gc.connect(); err != nil { return err } }] *)
Definition ensureConnected (gc : grpcClient) : T (grpcClient * option error) :=
  if connected gc then mret (gc, None) else connect gc.

Definition pushToUser (gc : grpcClient) (ctx : Ctx Net) (push : Push Net)
  : T (grpcClient * option error) :=
  '(gc, err) ← ensureConnected gc;
  match err with
  | Some err => mret (gc, Some err)
  | None =>
      _ ← emit (RpcPushToUser (address gc) ctx push);
      mret (gc, cliPushToUser Net (address gc) ctx push)
  end.

Definition call (gc : grpcClient) (ctx : Ctx Net) (req : Request Net)
  : T (grpcClient * (Response + error)) :=
  '(gc, err) ← ensureConnected gc;
  match err with
  | Some err => mret (gc, inr err)
  | None =>
      _ ← emit (RpcCall (address gc) ctx req);
      mret (gc, cliCall Net (address gc) ctx req)
  end.

Definition sessionBindRemote (gc : grpcClient) (ctx : Ctx Net) (req : BindMsg)
  : T (grpcClient * option error) :=
  '(gc, err) ← ensureConnected gc;
  match err with
  | Some err => mret (gc, Some err)
  | None =>
      _ ← emit (RpcSessionBindRemote (address gc) ctx req);
      mret (gc, cliSessionBindRemote Net (address gc) ctx req)
  end.

Definition sendKick (gc : grpcClient) (ctx : Ctx Net) (req : KickMsg Net)
  : T (grpcClient * option error) :=
  '(gc, err) ← ensureConnected gc;
  match err with
  | Some err => mret (gc, Some err)
  | None =>
      _ ← emit (RpcKickUser (address gc) ctx req);
      mret (gc, cliKickUser Net (address gc) ctx req)
  end.

(** The typed error [Call] builds from the [Error] field of a response. *)
Definition errorOfResponse (e : ProtoError) : error :=
  let code := if decide (Code e = "") then ErrUnknownCode Net else Code e in
  PitayaError code (Msg e) (ErrMetadata e).

Definition callTags (gs : GRPCClient) (sv : Server) : gmap string string :=
  {[ "span.kind" := "client";
     "local.id" := ID (server gs);
     "peer.serverType" := Type_ sv;
     "peer.id" := ID sv ]}.

(** The context after [tracing.StartSpan]. *)
Definition spanCtx (gs : GRPCClient) (ctx : Ctx Net) (sv : Server) : Ctx Net :=
  StartSpan Net ctx "RPC Call" (callTags gs sv) (ExtractSpan Net ctx).1.

(** The context [ctxT] the transport is called with: the request timeout,
    and the start time and the route when there are metrics reporters. *)
Definition callCtx (gs : GRPCClient) (ctx : Ctx Net) (route : Route Net)
    (sv : Server) : Ctx Net :=
  let ctxT := WithTimeout Net (spanCtx gs ctx sv) (reqTimeout gs) in
  match metricsReporters gs with
  | Some _ => AddRoute Net (AddStartTime Net ctxT (now Net)) (RouteString Net route)
  | None => ctxT
  end.

(** The deferred calls of [Call] once all three are registered; they run
    last one first, with the arguments they had when deferred. *)
Definition callDeferred (gs : GRPCClient) (ctx : Ctx Net) (route : Route Net)
    (sv : Server) : T unit :=
  _ ← match metricsReporters gs with
      | Some _ => emit (ReportTiming (callCtx gs ctx route sv) None)
      | None => mret tt
      end;
  _ ← emit Cancel;
  emit (FinishSpan (spanCtx gs ctx sv) (ExtractSpan Net ctx).2).

Definition Call (gs : GRPCClient) (ctx : Ctx Net) (rpcType : RPCType Net)
    (route : Route Net) (session : Session Net) (msg : message.Message)
    (sv : Server) : T (GRPCClient * (option Response * option error)) :=
  match clientMap gs !! ID sv with
  | None => mret (gs, (None, Some ErrNoConnectionToServer))
  | Some c =>
      _ ← match (ExtractSpan Net ctx).2 with
          | Some e => emit (LogNoParentSpan e)
          | None => mret tt
          end;
      match buildRequest Net (spanCtx gs ctx sv) rpcType route session msg (server gs) with
      | inr err =>
          _ ← emit (FinishSpan (spanCtx gs ctx sv) (ExtractSpan Net ctx).2);
          mret (gs, (None, Some err))
      | inl req =>
          '(c', res) ← call c (callCtx gs ctx route sv) req;
          let gs' := withClient gs (ID sv) c' in
          match res with
          | inr err =>
              _ ← callDeferred gs ctx route sv; mret (gs', (None, Some err))
          | inl res =>
              match Error res with
              | Some e =>
                  _ ← callDeferred gs ctx route sv;
                  mret (gs', (None, Some (errorOfResponse e)))
              | None =>
                  _ ← callDeferred gs ctx route sv; mret (gs', (Some res, None))
              end
          end
      end
  end.

Definition Send (gs : GRPCClient) (uid : string) (d : bytes) : option error :=
  Some ErrNotImplemented.

Definition BroadcastSessionBind (gs : GRPCClient) (uid : string)
  : T (GRPCClient * option error) :=
  match bindingStorage gs with
  | None => mret (gs, Some ErrNoBindingStorageModule)
  | Some bs =>
      _ ← emit (LookupFrontend uid (Type_ (server gs)));
      let '(fid, _) := bs uid (Type_ (server gs)) in
      if decide (fid ≠ "") then
        match clientMap gs !! fid with
        | Some c =>
            let msg := mkBindMsg uid (ID (server gs)) in
            let ctxT := WithTimeout Net (Background Net) (reqTimeout gs) in
            '(c', err) ← sessionBindRemote c ctxT msg;
            _ ← emit Cancel;
            mret (withClient gs fid c', err)
        | None => mret (gs, None)
        end
      else mret (gs, None)
  end.

Definition SendKick (gs : GRPCClient) (userID serverType : string)
    (kick : KickMsg Net) : T (GRPCClient * option error) :=
  match bindingStorage gs with
  | None => mret (gs, Some ErrNoBindingStorageModule)
  | Some bs =>
      _ ← emit (LookupFrontend userID serverType);
      let '(svID, err) := bs userID serverType in
      match err with
      | Some err => mret (gs, Some err)
      | None =>
          match clientMap gs !! svID with
          | Some c =>
              let ctxT := WithTimeout Net (Background Net) (reqTimeout gs) in
              '(c', err) ← sendKick c ctxT kick;
              _ ← emit Cancel;
              mret (withClient gs svID c', err)
          | None => mret (gs, Some ErrNoConnectionToServer)
          end
      end
  end.

(** The last part of [SendPush], once [svID] is known. *)
Definition forwardPush (gs : GRPCClient) (svID : string) (push : Push Net)
  : T (GRPCClient * option error) :=
  match clientMap gs !! svID with
  | Some c =>
      let ctxT := WithTimeout Net (Background Net) (reqTimeout gs) in
      '(c', err) ← pushToUser c ctxT push;
      _ ← emit Cancel;
      mret (withClient gs svID c', err)
  | None => mret (gs, Some ErrNoConnectionToServer)
  end.

Definition SendPush (gs : GRPCClient) (userID : string) (frontendSv : Server)
    (push : Push Net) : T (GRPCClient * option error) :=
  if decide (ID frontendSv ≠ "") then forwardPush gs (ID frontendSv) push
  else
    match bindingStorage gs with
    | None => mret (gs, Some ErrNoBindingStorageModule)
    | Some bs =>
        _ ← emit (LookupFrontend userID (Type_ frontendSv));
        let '(svID, err) := bs userID (Type_ frontendSv) in
        match err with
        | Some err => mret (gs, Some err)
        | None => forwardPush gs svID push
        end
    end.

(** [svID] is the frontend id [SendPush] resolves for the user: the id the
    caller supplied when it is not empty, otherwise what the binding
    directory answers without error. *)
Definition resolvedFrontend (gs : GRPCClient) (userID : string)
    (frontendSv : Server) (svID : string) : Prop :=
  (ID frontendSv ≠ "" ∧ svID = ID frontendSv)
  ∨ (ID frontendSv = ""
     ∧ ∃ bs, bindingStorage gs = Some bs
             ∧ bs userID (Type_ frontendSv) = (svID, None)).

(** Nothing was sent to a peer. *)
Definition silent (tr : list event) : Prop :=
  ∀ e, e ∈ tr → match e with
                | RpcCall _ _ _ | RpcPushToUser _ _ _ | RpcKickUser _ _ _
                | RpcSessionBindRemote _ _ _ => False
                | _ => True
                end.

(** The binding directory was consulted. *)
Definition consulted (tr : list event) : Prop :=
  ∃ uid ty, LookupFrontend uid ty ∈ tr.

End Client.

Arguments mkGRPCClient {Net}.
Arguments bindingStorage {Net} g.
Arguments clientMap {Net} g.
Arguments reqTimeout {Net} g.
Arguments withClient {Net} gs id c.
Arguments server {Net} g.
Arguments metricsReporters {Net} g.
Arguments LookupFrontend {Net} uid serverType.
Arguments DialPeer {Net} address.
Arguments RpcCall {Net} address ctx req.
Arguments RpcPushToUser {Net} address ctx push.
Arguments RpcKickUser {Net} address ctx kick.
Arguments RpcSessionBindRemote {Net} address ctx msg.
Arguments Cancel {Net}.
Arguments FinishSpan {Net} ctx err.
Arguments ReportTiming {Net} ctx err.

End cluster.

(* ================================================================== *)
(** ** A small instance

    A service [Room] with a Request handler [Join], a Notify handler [Tick]
    and a Request handler [Fail] that returns an error; two peers, one of
    which cannot be dialled. *)
(* ================================================================== *)
Module demo.
Import service.

Definition runtime : Runtime := {|
  Ctx := unit;
  Session := unit;
  Route := string;
  Serializer := unit;
  Obj := string;
  RValue := string;
  RMethod := string;
  RType := unit;
  ProtoMsgType := N;
  Background := tt;
  WithSession := λ c _, c;
  CtxWithDefaultLogger := λ c _ _, c;
  SessionUID := λ _, "u1";
  SessionID := λ _, 1%Z;
  RouteShort := λ r, r;
  RouteString := λ r, r;
  Unmarshal := λ _ payload _, inl (string_of_list_byte payload);
  Marshal := λ _ v, match v with
                    | IObj s => (list_byte_of_string s, None)
                    | IBytes b => (b, None)
                    | INil => ([], None)
                    end;
  GetErrorPayload := λ _ _, ([], None);
  ConvertProtoToMessageType :=
    λ p, if decide (p = 1%N) then message.Notify else message.Request;
  NewError := λ e code, PitayaError code "" ∅;
  ErrNotFoundCode := "NotFound";
  ErrInternalCode := "Internal";
  ErrBadRequestCode := "BadRequest"
|}.

Definition joinHandler : component.Handler string string unit :=
  component.mkHandler "Room" "Join" (Some tt) false message.Request.

Definition tickHandler : component.Handler string string unit :=
  component.mkHandler "Room" "Tick" None false message.Notify.

Definition failHandler : component.Handler string string unit :=
  component.mkHandler "Room" "Fail" (Some tt) false message.Request.

Definition table : gmap string (component.Handler string string unit) :=
  {[ "Room.Join" := joinHandler; "Room.Tick" := tickHandler;
     "Room.Fail" := failHandler ]}.

Definition methods (m : string) (args : list (rvalue runtime))
  : iface string * option error :=
  if decide (m = "Join") then (IObj "{ok:true}", None)
  else if decide (m = "Fail") then (INil, Some (ErrExternal "room is full"))
  else (INil, None).

(** No hooks. *)
Definition plain : Globals runtime := @mkGlobals runtime table [] [] methods.

(** Three pre-hooks, the second of which fails. *)
Definition passHook : BeforeHook runtime := λ _ arg, (arg, None).
Definition denyHook : BeforeHook runtime :=
  λ _ arg, (arg, Some (ErrExternal "denied")).
Definition guarded : Globals runtime :=
  @mkGlobals runtime table [passHook; denyHook; passHook] [] methods.

(** Two post-hooks: the first passes the pair on, the second returns an
    error of its own. *)
Definition auditHook : AfterHook runtime := λ _ res err, (res, err).
Definition maskHook : AfterHook runtime :=
  λ _ res err, (res, Some (ErrExternal "masked")).
Definition audited : Globals runtime :=
  @mkGlobals runtime table [] [auditHook; maskHook] methods.

(** One post-hook that passes the pair on. *)
Definition observed : Globals runtime := @mkGlobals runtime table [] [auditHook] methods.

Definition joinPayload : bytes := Eval cbv in list_byte_of_string "{name:A}".

Import cluster.

Definition network : Network := {|
  Ctx := unit;
  Session := unit;
  Route := string;
  RPCType := unit;
  Request := string;
  Push := string;
  KickMsg := string;
  Span := unit;
  Reporter := unit;
  Background := tt;
  WithTimeout := λ c _, c;
  ExtractSpan := λ _, (tt, None);
  StartSpan := λ c _ _ _, c;
  AddStartTime := λ c _, c;
  AddRoute := λ c _, c;
  RouteString := λ r, r;
  now := 0%Z;
  buildRequest := λ _ _ r _ _ _, inl r;
  Dial := λ a, if decide (a = "10.0.0.9:3434")
               then Some (ErrExternal "connection refused") else None;
  cliCall := λ _ _ _, inl (mkResponse [] (Some (mkProtoError "" "x" ∅)));
  cliPushToUser := λ _ _ _, None;
  cliKickUser := λ _ _ _, None;
  cliSessionBindRemote := λ _ _ _, None;
  ErrUnknownCode := "Unknown"
|}.

Definition self : Server := mkServer "A" "room" ∅ false.
Definition peerB : Server := mkServer "B" "connector" ∅ true.
Definition anyConnector : Server := mkServer "" "connector" ∅ true.

(** The binding directory knows the user "u1" on "B" and the user "u2" on
    "C", a server this node has no client for; it fails for others. *)
Definition directory : BindingStorage :=
  λ uid _, if decide (uid = "u1") then ("B", None)
           else if decide (uid = "u2") then ("C", None)
           else ("", Some (ErrExternal "key not found")).

Definition pool (bs : option BindingStorage) : GRPCClient network :=
  mkGRPCClient bs {[ "B" := mkGrpcClient "10.0.0.2:3434" false ]}
               5000 true 5000 self None.

Definition someMessage : message.Message :=
  message.mkMessage message.Request 1 "room.Room.Join" [] false false.

End demo.

(* ================================================================== *)
(** ** package message: well-formed dictionaries *)
(* ================================================================== *)
Module dictionary.
Import message.

(** [routes] and [codes] are each other's inverse. *)
Definition consistent (st : Dictionary) : Prop :=
  ∀ r c, routes st !! r = Some c ↔ codes st !! c = Some r.

Section Installed.
Variable trim : string → string.

(** [st'] is [st] with every entry of the map installed: each entry can be
    looked up in both directions, and every mapping of [st'] comes from
    [st] or from an entry of the map. *)
Definition installed (dict : gmap string N) (st st' : Dictionary) : Prop :=
  (∀ r c, dict !! r = Some c →
          routes st' !! trim r = Some c ∧ codes st' !! c = Some (trim r))
  ∧ (∀ r c, routes st' !! r = Some c →
            routes st !! r = Some c ∨ ∃ r0, dict !! r0 = Some c ∧ trim r0 = r)
  ∧ (∀ c r, codes st' !! c = Some r →
            codes st !! c = Some r ∨ ∃ r0, dict !! r0 = Some c ∧ trim r0 = r).

End Installed.

End dictionary.

(* ================================================================== *)
(** ** package component: services *)
(* ================================================================== *)
Module registry.

Section Service.
(** [Component], the [reflect] types and [func(string) string] are opaque. *)
Context {Component RValue RMethod RType NameFunc : Type}.

Abbreviation Handler := (component.Handler RValue RMethod RType).

(** [Remote]; the fields are [Receiver], [Method], [HasArgs] and [Type]. *)
Record Remote : Type := mkRemote {
  RemoteReceiver : RValue;
  RemoteMethod : RMethod;
  HasArgs : bool;
  RemoteType : option RType
}.

(** [options], and an [Option] as the function it is. *)
Record options : Type := mkOptions {
  name : string;
  nameFunc : option NameFunc
}.

Definition Option : Type := options → options.

(** [Service]; a nil map is the empty map. *)
Record Service : Type := mkService {
  Name : string;
  Type_ : RType;
  Receiver : RValue;
  Handlers : gmap string Handler;
  Remotes : gmap string Remote;
  Options : options
}.

(** What [component/service.go] takes from [reflect] and from the method
    scanner of the package, which is not among the sources. *)
Record Reflection : Type := mkReflection {
  TypeOf : Component → RType;
  ValueOf : Component → RValue;
  (* reflect.Indirect(v).Type().Name() *)
  indirectTypeName : RValue → string;
  (* t.String() *)
  typeString : RType → string;
  PtrTo : RType → RType;
  isExported : string → bool;
  suitableHandlerMethods : RType → option NameFunc → gmap string Handler;
  suitableRemoteMethods : RType → option NameFunc → gmap string Remote
}.

Context (F : Reflection).

Definition NewService (comp : Component) (opts : list Option) : Service :=
  let o := foldl (λ o opt, opt o) (mkOptions "" None) opts in
  let receiver := ValueOf F comp in
  mkService (if decide (name o ≠ "") then name o else indirectTypeName F receiver)
            (TypeOf F comp) receiver ∅ ∅ o.

(** [s.Handlers[i].Receiver = s.Receiver] *)
Definition bindHandler (r : RValue) (h : Handler) : Handler :=
  component.mkHandler r (component.Method h) (component.Type_ h)
                      (component.IsRawArg h) (component.MessageType h).

(** [s.Remotes[i].Receiver = s.Receiver] *)
Definition bindRemote (r : RValue) (m : Remote) : Remote :=
  mkRemote r (RemoteMethod m) (HasArgs m) (RemoteType m).

Definition hint : string := " (hint: pass a pointer to value of that type)".

(** [ExtractHandler]; the error [errors.New(str)] is given by [str]. *)
Definition ExtractHandler (s : Service) : Service * option string :=
  let typeName := indirectTypeName F (Receiver s) in
  if decide (typeName = "") then
    (s, Some ("no service name for type " +:+ typeString F (Type_ s)))
  else if negb (isExported F typeName) then
    (s, Some ("type " +:+ typeName +:+ " is not exported"))
  else
    let found := suitableHandlerMethods F (Type_ s) (nameFunc (Options s)) in
    let s := mkService (Name s) (Type_ s) (Receiver s) found (Remotes s) (Options s) in
    if decide (size found = 0) then
      let method := suitableHandlerMethods F (PtrTo F (Type_ s)) (nameFunc (Options s)) in
      if decide (size method ≠ 0) then
        (s, Some ("type " +:+ Name s +:+ " has no exported methods of handler type" +:+ hint))
      else
        (s, Some ("type " +:+ Name s +:+ " has no exported methods of handler type"))
    else
      (mkService (Name s) (Type_ s) (Receiver s) (bindHandler (Receiver s) <$> found)
                 (Remotes s) (Options s), None).

(** [ExtractRemote] *)
Definition ExtractRemote (s : Service) : Service * option string :=
  let typeName := indirectTypeName F (Receiver s) in
  if decide (typeName = "") then
    (s, Some ("no service name for type " +:+ typeString F (Type_ s)))
  else if negb (isExported F typeName) then
    (s, Some ("type " +:+ typeName +:+ " is not exported"))
  else
    let found := suitableRemoteMethods F (Type_ s) (nameFunc (Options s)) in
    let s := mkService (Name s) (Type_ s) (Receiver s) (Handlers s) found (Options s) in
    if decide (size found = 0) then
      let method := suitableRemoteMethods F (PtrTo F (Type_ s)) (nameFunc (Options s)) in
      if decide (size method ≠ 0) then
        (s, Some ("type " +:+ Name s +:+ " has no exported methods of remote type" +:+ hint))
      else
        (s, Some ("type " +:+ Name s +:+ " has no exported methods of remote type"))
    else
      (mkService (Name s) (Type_ s) (Receiver s) (Handlers s)
                 (bindRemote (Receiver s) <$> found) (Options s), None).

End Service.

Arguments Remote : clear implicits.
Arguments options : clear implicits.
Arguments Service : clear implicits.
Arguments Reflection : clear implicits.

End registry.

(* ================================================================== *)
(** ** package service: the shape of a dispatch trace *)
(* ================================================================== *)
Module pipeline.
Import service.

Section Shape.
Context (R : Runtime).

Definition is_before (e : event R) : bool :=
  match e with CallBefore _ _ _ => true | _ => false end.

Definition is_handler (e : event R) : bool :=
  match e with CallHandler _ _ => true | _ => false end.

Definition is_after (e : event R) : bool :=
  match e with CallAfter _ _ _ _ => true | _ => false end.

(** No event of [tr] satisfies [p]. *)
Definition none_of (p : event R → bool) (tr : list (event R)) : Prop :=
  Forall (λ e, p e = false) tr.

(** The trace is that of a dispatch which stopped before the handler call:
    no handler call and no post-hook call. *)
Definition stopped_early (tr : list (event R)) : Prop :=
  none_of is_handler tr ∧ none_of is_after tr.

(** The trace is that of a dispatch which called the handler: one handler
    call, every pre-hook call before it and every post-hook call after it. *)
Definition called_once (tr : list (event R)) : Prop :=
  ∃ pre m args post,
    tr = pre ++ CallHandler m args :: post
    ∧ none_of is_handler pre ∧ none_of is_after pre
    ∧ none_of is_handler post ∧ none_of is_before post.

(** The argument the pre-hooks [hs] make of [arg] when none of them fails. *)
Definition beforeChain (ctx : Ctx R) (hs : list (BeforeHook R))
    (arg : iface (Obj R)) : iface (Obj R) :=
  foldl (λ a h, (h ctx a).1) arg hs.

End Shape.

End pipeline.

(* ================================================================== *)
(** ** package cluster: membership of the pool *)
(* ================================================================== *)
Module membership.
Import cluster.

(** The metadata keys of package [constants]. *)
Record Keys : Type := mkKeys {
  RegionKey : string;
  GRPCExternalHostKey : string;
  GRPCHostKey : string;
  GRPCExternalPortKey : string;
  GRPCPortKey : string
}.

(** [config.Config], by the two getters the client uses. *)
Record Config : Type := mkConfig {
  GetDuration : string → Z;
  GetBool : string → bool
}.

Section Pool.
Context (Net : Network) (K : Keys).
(** What [gs.infoRetriever.Region()] returns. *)
Variable region : string.

Inductive event : Type :=
  (* an event of a client of the pool *)
  | Peer (e : cluster.event Net)
  (* gc.conn.Close() *)
  | CloseConn (address : string)
  (* the two warnings and the two info lines of getServerHost *)
  | WarnNoRegionUsingExternal (id : string)
  | WarnNoRegionNorExternal (id : string)
  | InfoUsingInternal (id : string)
  | InfoUsingExternal (id : string)
  (* logger.Log.Errorf("... has no grpcHost specified in metadata") *)
  | LogNoHost (id : string)
  (* logger.Log.Errorf("... has no %s specified in metadata") *)
  | LogNoPort (id portKey : string)
  (* logger.Log.Errorf("... unable to connect to server %s at %s: %v") *)
  | LogUnableToConnect (id address : string) (err : error)
  | LogAdded (id address : string)
  | LogRemoved (id : string).

Abbreviation T := (Traced event).

(** A computation of a client, as a computation of the pool. *)
Definition peer {A} (m : Traced (cluster.event Net) A) : T A :=
  (Peer <$> trace_of m, value_of m).

(** [NewGRPCClient] with [configure]; the pool starts empty.  The info
    retriever is only asked for the region, which is [region] here. *)
Definition NewGRPCClient (cfg : Config) (sv : Server)
    (metricsReporters : option (list (Reporter Net)))
    (bindingStorage : option BindingStorage) : GRPCClient Net :=
  mkGRPCClient bindingStorage ∅
    (GetDuration cfg "pitaya.cluster.rpc.client.grpc.dialtimeout")
    (GetBool cfg "pitaya.cluster.rpc.client.grpc.lazyconnection")
    (GetDuration cfg "pitaya.cluster.rpc.client.grpc.requesttimeout")
    sv metricsReporters.

(** The pool without the client stored under [id]. *)
Definition withoutClient (gs : GRPCClient Net) (id : string) : GRPCClient Net :=
  mkGRPCClient (bindingStorage gs) (delete id (clientMap gs)) (dialTimeout Net gs)
               (lazy Net gs) (reqTimeout gs) (server gs) (metricsReporters gs).

(** [getServerHost]: a missing metadata key reads as the empty string. *)
Definition getServerHost (sv : Server) : T (string * string) :=
  let serverRegion := default "" (Metadata sv !! RegionKey K) in
  let hasRegion := bool_decide (is_Some (Metadata sv !! RegionKey K)) in
  let externalHost := default "" (Metadata sv !! GRPCExternalHostKey K) in
  let hasExternal := bool_decide (is_Some (Metadata sv !! GRPCExternalHostKey K)) in
  let internalHost := default "" (Metadata sv !! GRPCHostKey K) in
  let hasRegion := hasRegion && bool_decide (serverRegion ≠ "") in
  let hasExternal := hasExternal && bool_decide (externalHost ≠ "") in
  if negb hasRegion then
    if hasExternal then
      _ ← emit (WarnNoRegionUsingExternal (ID sv));
      mret (externalHost, GRPCExternalPortKey K)
    else
      _ ← emit (WarnNoRegionNorExternal (ID sv));
      mret (internalHost, GRPCPortKey K)
  else if bool_decide (region = serverRegion) || negb hasExternal then
    _ ← emit (InfoUsingInternal (ID sv));
    mret (internalHost, GRPCPortKey K)
  else
    _ ← emit (InfoUsingExternal (ID sv));
    mret (externalHost, GRPCExternalPortKey K).

(** [AddServer] *)
Definition AddServer (gs : GRPCClient Net) (sv : Server) : T (GRPCClient Net) :=
  '(host, portKey) ← getServerHost sv;
  if decide (host = "") then
    _ ← emit (LogNoHost (ID sv)); mret gs
  else
    match Metadata sv !! portKey with
    | None => _ ← emit (LogNoPort (ID sv) portKey); mret gs
    | Some port =>
        let address := host +:+ ":" +:+ port in
        let client := mkGrpcClient address false in
        client ← (if negb (lazy Net gs) then
                    '(c, err) ← peer (connect Net client);
                    match err with
                    | Some err =>
                        _ ← emit (LogUnableToConnect (ID sv) address err); mret c
                    | None => mret c
                    end
                  else mret client);
        _ ← emit (LogAdded (ID sv) address);
        mret (withClient gs (ID sv) client)
    end.

(** The client [AddServer] stores for [address]: connected only when the
    pool is not lazy and dialling succeeds. *)
Definition added_client (gs : GRPCClient Net) (address : string) : grpcClient :=
  if lazy Net gs then mkGrpcClient address false
  else match Dial Net address with
       | Some _ => mkGrpcClient address false
       | None => mkGrpcClient address true
       end.

(** The events of clients in a trace of the pool, and the addresses of the
    connections closed. *)
Definition peerEvents (tr : list event) : list (cluster.event Net) :=
  omap (λ e, match e with Peer e' => Some e' | _ => None end) tr.

Definition closedConns (tr : list event) : list string :=
  omap (λ e, match e with CloseConn a => Some a | _ => None end) tr.

(** [disconnect] *)
Definition disconnect (gc : grpcClient) : T grpcClient :=
  if connected gc then
    _ ← emit (CloseConn (address gc));
    mret (mkGrpcClient (address gc) false)
  else mret gc.

(** [RemoveServer] *)
Definition RemoveServer (gs : GRPCClient Net) (sv : Server) : T (GRPCClient Net) :=
  match clientMap gs !! ID sv with
  | Some c =>
      _ ← disconnect c;
      _ ← emit (LogRemoved (ID sv));
      mret (withoutClient gs (ID sv))
  | None => mret gs
  end.

(** The pool [gs'] has the clients of [gs], at the same addresses, and a
    client that was connected still is; every other field of [gs'] is that
    of [gs]. *)
Definition keeps_clients (gs gs' : GRPCClient Net) : Prop :=
  bindingStorage gs' = bindingStorage gs
  ∧ server gs' = server gs
  ∧ dialTimeout Net gs' = dialTimeout Net gs
  ∧ reqTimeout gs' = reqTimeout gs
  ∧ lazy Net gs' = lazy Net gs
  ∧ metricsReporters gs' = metricsReporters gs
  ∧ dom (clientMap gs') = dom (clientMap gs)
  ∧ ∀ id c, clientMap gs !! id = Some c →
      ∃ c', clientMap gs' !! id = Some c'
            ∧ address c' = address c
            ∧ (connected c = true → connected c' = true).

(** What a call through a client may do to the client: connect it. *)
Definition client_step (c c' : grpcClient) : Prop :=
  address c' = address c ∧ (connected c = true → connected c' = true).

(** No event of the trace is a call through a stub. *)
Definition no_rpc (tr : list (cluster.event Net)) : Prop :=
  Forall (λ e, match e with
               | RpcCall _ _ _ | RpcPushToUser _ _ _ | RpcKickUser _ _ _
               | RpcSessionBindRemote _ _ _ => False
               | _ => True
               end) tr.

(** The number of times [address] is dialled in the trace. *)
Definition dials (address : string) (tr : list (cluster.event Net)) : nat :=
  length (omap (λ e, match e with
                     | DialPeer a => if decide (a = address) then Some a else None
                     | _ => None
                     end) tr).

End Pool.

Arguments Peer {Net} e.
Arguments CloseConn {Net} address.
Arguments LogAdded {Net} id address.
Arguments LogRemoved {Net} id.
Arguments LogNoHost {Net} id.
Arguments LogNoPort {Net} id portKey.
Arguments LogUnableToConnect {Net} id address err.
Arguments InfoUsingInternal {Net} id.
Arguments InfoUsingExternal {Net} id.
Arguments WarnNoRegionUsingExternal {Net} id.
Arguments WarnNoRegionNorExternal {Net} id.

End membership.

(* ================================================================== *)
(** ** More small instances

    A type [Room] whose methods have pointer receivers; a serializer that
    rejects an empty payload and a nil result; a network on which one
    address cannot be dialled, one peer is unavailable and a request with an
    empty route cannot be built; servers with metadata. *)
(* ================================================================== *)
Module demo_more.

(** Types are given by their names, a pointer type by a leading star. *)
Definition reflection : registry.Reflection string string string string unit :=
  registry.mkReflection
    (λ c, c) (λ c, c)
    (λ v, match v with String "*" rest => rest | _ => v end)
    (λ t, t)
    (λ t, "*" +:+ t)
    (λ n, match n with
          | String c _ => (65 <=? nat_of_ascii c)%nat && (nat_of_ascii c <=? 90)%nat
          | EmptyString => false
          end)
    (λ t _, if decide (t = "*Room")
            then {[ "Join" := component.mkHandler "" "Join" (Some "JoinReq") false
                                message.Request ]}
            else ∅)
    (λ t _, if decide (t = "*Room")
            then {[ "Sync" := registry.mkRemote "" "Sync" true (Some "SyncReq") ]}
            else ∅).

Definition roomByValue : registry.Service string string string unit :=
  registry.NewService reflection "Room" [].

Definition roomByPointer : registry.Service string string string unit :=
  registry.NewService reflection "*Room" [].

Import service.

Definition strict : Runtime := {|
  Ctx := unit;
  Session := unit;
  Route := string;
  Serializer := unit;
  Obj := string;
  RValue := string;
  RMethod := string;
  RType := unit;
  ProtoMsgType := N;
  Background := tt;
  WithSession := λ c _, c;
  CtxWithDefaultLogger := λ c _ _, c;
  SessionUID := λ _, "u1";
  SessionID := λ _, 1%Z;
  RouteShort := λ r, r;
  RouteString := λ r, r;
  Unmarshal := λ _ payload _,
    match payload with
    | [] => inr (ErrExternal "empty payload")
    | _ => inl (string_of_list_byte payload)
    end;
  Marshal := λ _ v, match v with
                    | IObj s => (list_byte_of_string s, None)
                    | IBytes b => (b, None)
                    | INil => ([], Some (ErrExternal "nil value"))
                    end;
  GetErrorPayload := λ _ _, (list_byte_of_string "{code:Internal}", None);
  ConvertProtoToMessageType :=
    λ p, if decide (p = 1%N) then message.Notify else message.Request;
  NewError := λ e code, PitayaError code "" ∅;
  ErrNotFoundCode := "NotFound";
  ErrInternalCode := "Internal";
  ErrBadRequestCode := "BadRequest"
|}.

Definition strictMethods (m : string) (args : list (rvalue strict))
  : iface string * option error :=
  if decide (m = "Join") then (IBytes (list_byte_of_string "joined"), None)
  else if decide (m = "Fail") then (INil, Some (ErrExternal "room is full"))
  else (INil, None).

(** The pre-hook puts a mark in front of a decoded argument. *)
Definition markHook : BeforeHook strict :=
  λ _ arg, match arg with
           | IObj s => (IObj ("checked:" +:+ s), None)
           | _ => (arg, None)
           end.

Definition strictGlobals : Globals strict :=
  @mkGlobals strict demo.table [markHook] [] strictMethods.

(** A handler that takes the raw payload; no hooks. *)
Definition echoHandler : component.Handler string string unit :=
  component.mkHandler "Room" "Echo" None true message.Request.

Definition rawGlobals : Globals strict :=
  @mkGlobals strict {[ "Room.Echo" := echoHandler; "Room.Tick" := demo.tickHandler ]}
             [] [] strictMethods.

Import cluster membership.

Definition flaky : Network := {|
  Ctx := unit;
  Session := unit;
  Route := string;
  RPCType := unit;
  Request := string;
  Push := string;
  KickMsg := string;
  Span := unit;
  Reporter := unit;
  Background := tt;
  WithTimeout := λ c _, c;
  ExtractSpan := λ _, (tt, None);
  StartSpan := λ c _ _ _, c;
  AddStartTime := λ c _, c;
  AddRoute := λ c _, c;
  RouteString := λ r, r;
  now := 0%Z;
  buildRequest := λ _ _ r _ _ _,
    if decide (r = "") then inr (ErrExternal "empty route") else inl r;
  Dial := λ a, if decide (a = "10.0.0.9:3434")
               then Some (ErrExternal "connection refused") else None;
  cliCall := λ a _ req,
    if decide (a = "10.0.0.3:3434") then inr (ErrExternal "unavailable")
    else inl (mkResponse (list_byte_of_string "pong") None);
  cliPushToUser := λ _ _ _, None;
  cliKickUser := λ _ _ _, None;
  cliSessionBindRemote := λ _ _ _, None;
  ErrUnknownCode := "Unknown"
|}.

Definition peerB : Server := mkServer "B" "connector" ∅ true.
Definition peerD : Server := mkServer "D" "connector" ∅ true.
Definition peerE : Server := mkServer "E" "connector" ∅ true.

(** "B" can be reached, "D" is unavailable, "E" cannot be dialled. *)
Definition flakyPool : GRPCClient flaky :=
  mkGRPCClient None
    {[ "B" := mkGrpcClient "10.0.0.2:3434" false;
       "D" := mkGrpcClient "10.0.0.3:3434" false;
       "E" := mkGrpcClient "10.0.0.9:3434" false ]}
    5000 true 5000 demo.self None.

Definition keys : Keys :=
  mkKeys "region" "grpc-external-host" "grpc-host" "grpc-external-port" "grpc-port".

(** A server in the region "eu", with both hosts and both ports. *)
Definition peerC : Server :=
  mkServer "C" "room"
    {[ "region" := "eu";
       "grpc-host" := "10.0.0.4"; "grpc-port" := "3434";
       "grpc-external-host" := "c.example.org"; "grpc-external-port" := "443" ]}
    false.

(** A server with a host and no port. *)
Definition peerF : Server :=
  mkServer "F" "room" {[ "grpc-host" := "10.0.0.5" ]} false.

End demo_more.

(* ================================================================== *)
(** * Properties *)
(* ================================================================== *)

(** ** The route dictionary *)
Section SetDictionaryFacts.
Import message.
Variable trim : string → string.

Lemma install_extends st e :
  ¬ collides trim st e → extends st (install trim st e).
Proof.
  intros Hc. split; simpl; apply insert_subseteq;
    apply eq_None_not_Some; intros H; apply Hc; [by left | by right].
Qed.

Lemma extends_refl st : extends st st.
Proof. by split. Qed.

Lemma extends_trans st1 st2 st3 :
  extends st1 st2 → extends st2 st3 → extends st1 st3.
Proof. intros [??] [??]. split; by etrans. Qed.

(** One step of the range loop, by cases on the collision test. *)
Lemma range_cons_collides e rest st :
  collides trim st e →
  SetDictionary_range trim (e :: rest) st
  = (st, Some (ErrDuplicatedRoute (trim e.1) e.2)).
Proof.
  destruct e as [r c]. simpl. intros [[x Hx] | [x Hx]]; simpl in Hx.
  - by rewrite Hx.
  - rewrite Hx. by destruct (routes st !! trim r).
Qed.

Lemma range_cons_free e rest st :
  ¬ collides trim st e →
  SetDictionary_range trim (e :: rest) st
  = SetDictionary_range trim rest (install trim st e).
Proof.
  destruct e as [r c]. simpl. intros Hc.
  destruct (routes st !! trim r) eqn:Hr.
  { exfalso. apply Hc. left. simpl. by rewrite Hr. }
  destruct (codes st !! c) eqn:Hk.
  { exfalso. apply Hc. right. simpl. by rewrite Hk. }
  done.
Qed.

Lemma collides_dec st e : collides trim st e ∨ ¬ collides trim st e.
Proof.
  unfold collides.
  destruct (routes st !! trim e.1); [left; left; eauto |].
  destruct (codes st !! e.2); [left; right; eauto |].
  right. intros [[? ?] | [? ?]]; congruence.
Qed.

(** The loop never removes or changes an installed mapping. *)
Lemma range_extends entries st :
  extends st (SetDictionary_range trim entries st).1.
Proof.
  revert st. induction entries as [| e rest IH]; intros st.
  - apply extends_refl.
  - destruct (collides_dec st e) as [Hc | Hc].
    + rewrite range_cons_collides by done. apply extends_refl.
    + rewrite range_cons_free by done.
      eapply extends_trans; [by apply install_extends | apply IH].
Qed.

(** The loop stops at the first entry that collides with the dictionary as
    it is then: the entries before it are installed, it and the entries
    after it are not. *)
Lemma range_outcome entries st :
  (SetDictionary_range trim entries st = (foldl (install trim) st entries, None))
  ∨ (∃ done e rest,
        entries = done ++ e :: rest
        ∧ collides trim (foldl (install trim) st done) e
        ∧ SetDictionary_range trim entries st
          = (foldl (install trim) st done, Some (ErrDuplicatedRoute (trim e.1) e.2))).
Proof.
  revert st. induction entries as [| e rest IH]; intros st.
  - by left.
  - destruct (collides_dec st e) as [Hc | Hc].
    + right. exists [], e, rest. by rewrite range_cons_collides.
    + rewrite range_cons_free by done.
      destruct (IH (install trim st e)) as [Hok | (dn & e' & rest' & -> & Hc' & Hr)].
      * by left.
      * right. exists (e :: dn), e', rest'. by rewrite Hr.
Qed.

(** A run without error met no collision: no entry collides with the
    dictionary it started from, and no two entries share a trimmed route
    or a code. *)
Lemma range_success entries st st' :
  SetDictionary_range trim entries st = (st', None) →
  Forall (λ e, ¬ collides trim st e) entries
  ∧ NoDup ((λ e, trim e.1) <$> entries)
  ∧ NoDup (snd <$> entries).
Proof.
  revert st. induction entries as [| e rest IH]; intros st Hrun.
  - repeat split; constructor.
  - destruct (collides_dec st e) as [Hc | Hc].
    { by rewrite range_cons_collides in Hrun. }
    rewrite range_cons_free in Hrun by done.
    destruct (IH _ Hrun) as (Hfree & Hnr & Hnc).
    assert (Hlater : ∀ e', e' ∈ rest →
              ¬ collides trim st e' ∧ trim e'.1 ≠ trim e.1 ∧ e'.2 ≠ e.2).
    { intros e' Hin. rewrite Forall_forall in Hfree.
      specialize (Hfree e' Hin). unfold collides in *. simpl in *.
      repeat split.
      - intros [[x Hx] | [x Hx]]; apply Hfree.
        + left. destruct (decide (trim e.1 = trim e'.1)) as [-> | Hne].
          * rewrite lookup_insert_eq. eauto.
          * rewrite lookup_insert_ne by done. eauto.
        + right. destruct (decide (e.2 = e'.2)) as [-> | Hne].
          * rewrite lookup_insert_eq. eauto.
          * rewrite lookup_insert_ne by done. eauto.
      - intros Heq. apply Hfree. left. rewrite Heq, lookup_insert_eq. eauto.
      - intros Heq. apply Hfree. right. rewrite Heq, lookup_insert_eq. eauto. }
    repeat split.
    + constructor; [done |]. apply Forall_forall. intros e' Hin.
      by apply Hlater.
    + simpl. constructor; [| done].
      intros (e' & Heq & Hin)%list_elem_of_fmap.
      destruct (Hlater e' Hin) as (_ & Hne & _). by apply Hne.
    + simpl. constructor; [| done].
      intros (e' & Heq & Hin)%list_elem_of_fmap.
      destruct (Hlater e' Hin) as (_ & _ & Hne). by apply Hne.
Qed.

Lemma NoDup_fmap_inj_on {A B} (f : A → B) (l : list A) x y :
  NoDup (f <$> l) → x ∈ l → y ∈ l → f x = f y → x = y.
Proof.
  induction l as [| a l IH]; simpl; intros Hnd Hx Hy Hf.
  - by apply elem_of_nil in Hx.
  - apply NoDup_cons in Hnd as [Hna Hnd].
    apply elem_of_cons in Hx as [-> | Hx]; apply elem_of_cons in Hy as [-> | Hy].
    + done.
    + exfalso. apply Hna. rewrite Hf. by apply list_elem_of_fmap_2.
    + exfalso. apply Hna. rewrite <- Hf. by apply list_elem_of_fmap_2.
    + by apply IH.
Qed.

(** A map with a duplicate makes every iteration order fail. *)
Lemma range_duplicate_fails dict entries st :
  range_order dict entries → has_duplicate trim dict st →
  ∃ r c, (SetDictionary_range trim entries st).2 = Some (ErrDuplicatedRoute r c).
Proof.
  intros Hord Hdup.
  destruct (range_outcome entries st) as [Hok | (dn & e & rest & _ & _ & ->)];
    [| by eauto].
  exfalso. apply range_success in Hok as (Hfree & Hnr & Hnc).
  assert (Hin : ∀ r c, dict !! r = Some c → (r, c) ∈ entries).
  { intros r c Hl. unfold range_order in Hord. rewrite Hord.
    by apply elem_of_map_to_list. }
  destruct Hdup as [(r & c & Hl & Hc) | (r1 & c1 & r2 & c2 & Hne & H1 & H2 & Heq)].
  - rewrite Forall_forall in Hfree. by apply (Hfree (r, c)); [apply Hin |].
  - apply Hne. apply Hin in H1, H2. destruct Heq as [Heq | Heq].
    + by pose proof (NoDup_fmap_inj_on _ _ (r1, c1) (r2, c2) Hnr H1 H2 Heq) as [= ? ?].
    + by pose proof (NoDup_fmap_inj_on _ _ (r1, c1) (r2, c2) Hnc H1 H2 Heq) as [= ? ?].
Qed.

Lemma foldl_install_routes_ne l st k :
  k ∉ (λ e, trim e.1) <$> l →
  routes (foldl (install trim) st l) !! k = routes st !! k.
Proof.
  revert st. induction l as [| x l IH]; intros st Hk; [done |].
  simpl in *. apply not_elem_of_cons in Hk as [Hne Hk].
  rewrite IH by done. simpl. by rewrite lookup_insert_ne.
Qed.

Lemma foldl_install_codes_ne l st c :
  c ∉ snd <$> l →
  codes (foldl (install trim) st l) !! c = codes st !! c.
Proof.
  revert st. induction l as [| x l IH]; intros st Hk; [done |].
  simpl in *. apply not_elem_of_cons in Hk as [Hne Hk].
  rewrite IH by done. simpl. by rewrite lookup_insert_ne.
Qed.

(** Each installed entry can be looked up in both directions. *)
Lemma foldl_install_lookup l st x :
  NoDup ((λ e, trim e.1) <$> l) → NoDup (snd <$> l) → x ∈ l →
  routes (foldl (install trim) st l) !! trim x.1 = Some x.2
  ∧ codes (foldl (install trim) st l) !! x.2 = Some (trim x.1).
Proof.
  revert st. induction l as [| y l IH]; intros st Hr Hc Hin.
  - by apply elem_of_nil in Hin.
  - simpl in *. apply NoDup_cons in Hr as [Hr1 Hr]. apply NoDup_cons in Hc as [Hc1 Hc].
    apply elem_of_cons in Hin as [-> | Hin]; [| by apply IH].
    rewrite foldl_install_routes_ne, foldl_install_codes_ne by done.
    simpl. by rewrite !lookup_insert_eq.
Qed.

(** A run that ends with an error stopped at the first entry that collides
    with the dictionary as the entries before it left it: those entries are
    installed, and the error names the colliding entry. *)
Lemma range_error_split entries st st' err :
  SetDictionary_range trim entries st = (st', Some err) →
  ∃ visited e rest,
    entries = visited ++ e :: rest
    ∧ SetDictionary_range trim visited st = (foldl (install trim) st visited, None)
    ∧ collides trim (foldl (install trim) st visited) e
    ∧ st' = foldl (install trim) st visited
    ∧ err = ErrDuplicatedRoute (trim e.1) e.2.
Proof.
  revert st. induction entries as [| x l IH]; intros st Hrun; [done |].
  destruct (collides_dec st x) as [Hc | Hc].
  - rewrite range_cons_collides in Hrun by done. injection Hrun as <- <-.
    by exists [], x, l.
  - rewrite range_cons_free in Hrun by done.
    destruct (IH _ Hrun) as (v & e & rest & -> & Hv & Hcol & -> & ->).
    exists (x :: v), e, rest. split; [done |]. split; [| done].
    by rewrite range_cons_free.
Qed.

(** In a run without error no entry collided when it was visited. *)
Lemma range_success_no_collision v1 x v2 st st' :
  SetDictionary_range trim (v1 ++ x :: v2) st = (st', None) →
  ¬ collides trim (foldl (install trim) st v1) x.
Proof.
  revert st. induction v1 as [| y v1 IH]; intros st Hrun.
  - change ([] ++ x :: v2) with (x :: v2) in Hrun.
    destruct (collides_dec st x) as [Hc | Hc]; [| done].
    by rewrite (range_cons_collides x v2 st Hc) in Hrun.
  - rewrite <- app_comm_cons in Hrun.
    destruct (collides_dec st y) as [Hc | Hc].
    + by rewrite (range_cons_collides y _ st Hc) in Hrun.
    + rewrite (range_cons_free y _ st Hc) in Hrun. by eapply IH.
Qed.

(** C1 (as amended).  When the map passed to [SetDictionary] contains a
    duplicate route or a duplicate code (against the installed dictionary or
    among its own entries), then whatever order the range statement takes,
    the call stops at the first entry that collides with the dictionary as
    the entries visited before it have left it, and returns the duplication
    error for that entry.  There is no rollback: the dictionary after the
    call is the one before it with the entries visited before the offending
    one installed, each of which can be looked up in both directions; every
    mapping installed before the call is still installed with the same
    value; and the dictionary is unchanged exactly when the first entry
    visited is the offending one. *)
Theorem SetDictionary_duplicate_error dict entries st :
  range_order dict entries → has_duplicate trim dict st →
  ∃ visited e rest,
    entries = visited ++ e :: rest
    ∧ (∀ v1 x v2, visited = v1 ++ x :: v2 →
         ¬ collides trim (foldl (install trim) st v1) x)
    ∧ collides trim (foldl (install trim) st visited) e
    ∧ SetDictionary trim (Some dict) entries st
      = (foldl (install trim) st visited,
         Some (ErrDuplicatedRoute (trim e.1) e.2))
    ∧ extends st (foldl (install trim) st visited)
    ∧ (∀ x, x ∈ visited →
         routes (foldl (install trim) st visited) !! trim x.1 = Some x.2
         ∧ codes (foldl (install trim) st visited) !! x.2 = Some (trim x.1))
    ∧ (foldl (install trim) st visited = st ↔ visited = []).
Proof.
  intros Hord Hdup. unfold SetDictionary.
  destruct (range_duplicate_fails _ _ _ Hord Hdup) as (r & c & Herr).
  destruct (SetDictionary_range trim entries st) as [st' oe] eqn:Hrun.
  simpl in Herr. subst oe.
  destruct (range_error_split _ _ _ _ Hrun)
    as (visited & e & rest & Heq & Hv & Hcol & -> & [= -> ->]).
  destruct (range_success _ _ _ Hv) as (_ & Hnr & Hnc).
  assert (Hlook : ∀ x, x ∈ visited →
            routes (foldl (install trim) st visited) !! trim x.1 = Some x.2
            ∧ codes (foldl (install trim) st visited) !! x.2 = Some (trim x.1)).
  { intros x Hx. by apply foldl_install_lookup. }
  exists visited, e, rest.
  split; [done |]. split; [| split; [done |]; split; [done |]; split; [| split; [done |]]].
  - intros v1 x v2 ->. by eapply range_success_no_collision.
  - pose proof (range_extends entries st) as Hext. by rewrite Hrun in Hext.
  - split; [| by intros ->].
    intros Hsame. destruct visited as [| x v]; [done |]. exfalso.
    apply (range_success_no_collision [] x v st _ Hv). left.
    destruct (Hlook x) as [Hl _]; [apply elem_of_cons; by left |].
    rewrite Hsame in Hl. simpl. rewrite Hl. eauto.
Qed.

End SetDictionaryFacts.

Lemma SetDictionary_duplicate_error_witness :
  let dict : gmap string N := {[ "a" := 1%N; "b" := 1%N ]} in
  let entries := [("a", 1%N); ("b", 1%N)] in
  ∃ visited e rest,
    entries = visited ++ e :: rest
    ∧ message.SetDictionary message.TrimSpace (Some dict) entries
        message.emptyDictionary
      = (foldl (message.install message.TrimSpace) message.emptyDictionary visited,
         Some (ErrDuplicatedRoute (message.TrimSpace e.1) e.2))
    ∧ (foldl (message.install message.TrimSpace) message.emptyDictionary visited
       = message.emptyDictionary ↔ visited = []).
Proof.
  intros dict entries.
  destruct (SetDictionary_duplicate_error message.TrimSpace dict entries
              message.emptyDictionary)
    as (visited & e & rest & H1 & _ & _ & H4 & _ & _ & H7).
  - unfold message.range_order. vm_compute. reflexivity.
  - right. exists "a", 1%N, "b", 1%N.
    split; [discriminate |]. split; [reflexivity |]. split; [reflexivity |].
    right. reflexivity.
  - exists visited, e, rest. split; [exact H1 |]. split; [exact H4 | exact H7].
Defined.

(** The two orders of the map {"a": 1, "b": 1} on an empty dictionary: the
    entry visited first stays installed. *)
Example SetDictionary_a_then_b :
  message.SetDictionary message.TrimSpace (Some {[ "a" := 1%N; "b" := 1%N ]})
    [("a", 1%N); ("b", 1%N)] message.emptyDictionary
  = (message.mkDictionary {[ "a" := 1%N ]} {[ 1%N := "a" ]},
     Some (ErrDuplicatedRoute "b" 1)).
Proof. reflexivity. Qed.

Example SetDictionary_b_then_a :
  message.SetDictionary message.TrimSpace (Some {[ "a" := 1%N; "b" := 1%N ]})
    [("b", 1%N); ("a", 1%N)] message.emptyDictionary
  = (message.mkDictionary {[ "b" := 1%N ]} {[ 1%N := "b" ]},
     Some (ErrDuplicatedRoute "a" 1)).
Proof. reflexivity. Qed.

Example TrimSpace_both_ends :
  message.TrimSpace "  Room.Join 	" = "Room.Join"
  ∧ message.TrimSpace "Room Join" = "Room Join"
  ∧ message.TrimSpace "   " = "".
Proof. repeat split. Qed.

(** White space beyond ASCII is trimmed as well: a no-break space (C2 A0)
    in front and an ideographic space (E3 80 80) behind are removed, an
    inner no-break space stays, and so does a byte 85 or A0 that is not
    preceded by C2. *)
Example TrimSpace_unicode :
  let b (n : nat) (s : string) := String (ascii_of_nat n) s in
  message.TrimSpace (b 194 (b 160 (" Room" +:+ b 227 (b 128 (b 128 " ")))))
  = "Room"
  ∧ message.TrimSpace (b 226 (b 128 (b 138 ("a" +:+ b 194 (b 160 ("b" +:+ b 194 (b 133 "")))))))
    = "a" +:+ b 194 (b 160 "b")
  ∧ message.TrimSpace (b 133 ("a" +:+ b 160 "")) = b 133 ("a" +:+ b 160 "")
  ∧ message.TrimSpace (b 226 (b 128 "")) = b 226 (b 128 "").
Proof. vm_compute. repeat split. Qed.

(** Routes are compared after trimming. *)
Example SetDictionary_trimmed_duplicate :
  message.SetDictionary message.TrimSpace (Some {[ " Room.Join " := 8%N ]})
    [(" Room.Join ", 8%N)]
    (message.mkDictionary {[ "Room.Join" := 7%N ]} {[ 7%N := "Room.Join" ]})
  = (message.mkDictionary {[ "Room.Join" := 7%N ]} {[ 7%N := "Room.Join" ]},
     Some (ErrDuplicatedRoute "Room.Join" 8)).
Proof. reflexivity. Qed.

(** C1 (as stated) fails.  The map {"a": 1, "b": 1} has a duplicate code;
    installing it into the empty dictionary returns the duplication error,
    and in every iteration order the dictionary is not the one from before
    the call. *)
Lemma SetDictionary_duplicate_not_preserved :
  let dict : gmap string N := {[ "a" := 1%N; "b" := 1%N ]} in
  message.has_duplicate message.TrimSpace dict message.emptyDictionary
  ∧ ∀ entries, message.range_order dict entries →
      let out := message.SetDictionary message.TrimSpace (Some dict) entries
                   message.emptyDictionary in
      is_Some out.2 ∧ out.1 ≠ message.emptyDictionary.
Proof.
  intros dict.
  assert (Hdup : message.has_duplicate message.TrimSpace dict message.emptyDictionary).
  { right. exists "a", 1%N, "b", 1%N.
    split; [discriminate |]. split; [reflexivity |]. split; [reflexivity |].
    right. reflexivity. }
  split; [done |]. intros entries Hord out. subst out. simpl.
  destruct (range_duplicate_fails _ _ _ _ Hord Hdup) as (r & c & Herr).
  split; [rewrite Herr; eauto |].
  destruct entries as [| e rest].
  { unfold message.range_order in Hord. apply Permutation_length in Hord.
    discriminate Hord. }
  assert (Hfree : ¬ message.collides message.TrimSpace message.emptyDictionary e).
  { intros [[x Hx] | [x Hx]]; simpl in Hx; by rewrite lookup_empty in Hx. }
  rewrite range_cons_free by done.
  intros Heq.
  pose proof (range_extends message.TrimSpace rest
                (message.install message.TrimSpace message.emptyDictionary e)) as [Hsub _].
  rewrite Heq in Hsub. simpl in Hsub.
  eapply lookup_weaken in Hsub; [| apply lookup_insert_eq].
  by rewrite lookup_empty in Hsub.
Qed.

(** ** Traced computations *)
Section TracedFacts.
Context {E A B : Type}.

Lemma trace_bind (m : Traced E A) (f : A → Traced E B) :
  trace_of (m ≫= f) = trace_of m ++ trace_of (f (value_of m)).
Proof.
  destruct m as [t a]. unfold mbind, Traced_bind, trace_of, value_of. simpl.
  by destruct (f a).
Qed.

Lemma value_bind (m : Traced E A) (f : A → Traced E B) :
  value_of (m ≫= f) = value_of (f (value_of m)).
Proof.
  destruct m as [t a]. unfold mbind, Traced_bind, trace_of, value_of. simpl.
  by destruct (f a).
Qed.

Lemma trace_ret (a : A) : trace_of (mret a : Traced E A) = [].
Proof. done. Qed.

Lemma value_ret (a : A) : value_of (mret a : Traced E A) = a.
Proof. done. Qed.

Lemma trace_pair (t : list E) (a : A) : trace_of (t, a) = t.
Proof. done. Qed.

Lemma value_pair (t : list E) (a : A) : value_of (t, a) = a.
Proof. done. Qed.

Lemma traced_eta (m : Traced E A) : m = (trace_of m, value_of m).
Proof. by destruct m. Qed.

End TracedFacts.

(** ** Kind validation *)
Section ValidateFacts.
Import message component.
Context {RValue RMethod RType : Type}.
Implicit Type h : Handler RValue RMethod RType.

Lemma Validate_match h : ValidateMessageType h (MessageType h) = (false, None).
Proof. unfold ValidateMessageType. by case_decide. Qed.

Lemma Validate_request h :
  MessageType h ≠ Request →
  ValidateMessageType h Request = (true, Some ErrRequestOnNotify).
Proof. intros. unfold ValidateMessageType. by repeat case_decide. Qed.

Lemma Validate_notify h :
  MessageType h ≠ Notify →
  ValidateMessageType h Notify = (false, Some ErrNotifyOnRequest).
Proof. intros. unfold ValidateMessageType. by repeat case_decide. Qed.

Lemma Validate_other h t :
  t ≠ Request → t ≠ Notify → ValidateMessageType h t = (false, None).
Proof. intros. unfold ValidateMessageType. by repeat case_decide. Qed.

(** The caller is told to exit only together with [ErrRequestOnNotify]. *)
Lemma Validate_exit h t :
  (ValidateMessageType h t).1 = true →
  ValidateMessageType h t = (true, Some ErrRequestOnNotify).
Proof. unfold ValidateMessageType. by repeat case_decide. Qed.

End ValidateFacts.

(** ** The dispatch pipeline *)
Section DispatchFacts.
Import message component service.
Context (R : Runtime).
Implicit Type g : Globals R.
Implicit Type h : Handler (RValue R) (RMethod R) (RType R).

(** *** The hook loops *)

Lemma beforeLoop_cons_ok ctx hk hs i arg res' :
  hk ctx arg = (res', None) →
  beforeLoop R ctx (hk :: hs) i arg
  = (CallBefore i ctx arg :: trace_of (beforeLoop R ctx hs (S i) res'),
     value_of (beforeLoop R ctx hs (S i) res')).
Proof.
  intros Hk. simpl. rewrite Hk. by destruct (beforeLoop R ctx hs (S i) res').
Qed.

Lemma beforeLoop_cons_err ctx hk hs i arg res' e :
  hk ctx arg = (res', Some e) →
  beforeLoop R ctx (hk :: hs) i arg
  = ([CallBefore i ctx arg; LogBrokenPipeline e], (res', Some e)).
Proof. intros Hk. simpl. by rewrite Hk. Qed.

Lemma afterLoop_cons ctx hk hs i ret err :
  afterLoop R ctx (hk :: hs) i ret err
  = (CallAfter i ctx ret err
       :: trace_of (afterLoop R ctx hs (S i) (hk ctx ret err).1 (hk ctx ret err).2),
     value_of (afterLoop R ctx hs (S i) (hk ctx ret err).1 (hk ctx ret err).2)).
Proof.
  simpl. destruct (hk ctx ret err) as [ret' err']. simpl.
  by destruct (afterLoop R ctx hs (S i) ret' err').
Qed.

Lemma beforeCalls_cons i ctx arg tr :
  beforeCalls R (CallBefore i ctx arg :: tr) = i :: beforeCalls R tr.
Proof. done. Qed.

Lemma beforeCalls_app tr1 tr2 :
  beforeCalls R (tr1 ++ tr2) = beforeCalls R tr1 ++ beforeCalls R tr2.
Proof. apply omap_app. Qed.

Lemma afterCalls_cons i ctx res err tr :
  afterCalls R (CallAfter i ctx res err :: tr) = i :: afterCalls R tr.
Proof. done. Qed.

Lemma afterCalls_app tr1 tr2 :
  afterCalls R (tr1 ++ tr2) = afterCalls R tr1 ++ afterCalls R tr2.
Proof. apply omap_app. Qed.

Lemma not_invoked_nil : ¬ invoked R [].
Proof. intros (m & args & Hin). by apply elem_of_nil in Hin. Qed.

Lemma not_invoked_app tr1 tr2 :
  ¬ invoked R tr1 → ¬ invoked R tr2 → ¬ invoked R (tr1 ++ tr2).
Proof.
  intros H1 H2 (m & args & Hin). apply elem_of_app in Hin as [Hin | Hin];
    [apply H1 | apply H2]; by exists m, args.
Qed.

Lemma not_invoked_cons ev tr :
  (∀ m args, ev ≠ CallHandler m args) → ¬ invoked R tr → ¬ invoked R (ev :: tr).
Proof.
  intros Hev Htr (m & args & Hin). apply elem_of_cons in Hin as [Hin | Hin].
  - by eapply Hev.
  - apply Htr. by exists m, args.
Qed.

Lemma beforeLoop_app ctx hs1 hs2 i arg arg1 :
  value_of (beforeLoop R ctx hs1 i arg) = (arg1, None) →
  beforeLoop R ctx (hs1 ++ hs2) i arg
  = (trace_of (beforeLoop R ctx hs1 i arg)
       ++ trace_of (beforeLoop R ctx hs2 (i + length hs1) arg1),
     value_of (beforeLoop R ctx hs2 (i + length hs1) arg1)).
Proof.
  revert i arg. induction hs1 as [| hk hs1 IH]; intros i arg Hv.
  - simpl in *. injection Hv as ->. rewrite Nat.add_0_r. apply traced_eta.
  - destruct (hk ctx arg) as [res' [e |]] eqn:Hk.
    + by rewrite (beforeLoop_cons_err _ _ _ _ _ _ _ Hk) in Hv.
    + rewrite (beforeLoop_cons_ok _ _ _ _ _ _ Hk) in Hv. simpl in Hv.
      rewrite <- app_comm_cons, !(beforeLoop_cons_ok _ _ _ _ _ _ Hk).
      rewrite (IH _ _ Hv). simpl.
      by replace (i + S (length hs1)) with (S (i + length hs1)) by lia.
Qed.

(** A chain of pre-hooks that all succeed calls each of them once, in
    order, and nothing else. *)
Lemma beforeLoop_success_calls ctx hs i arg arg1 :
  value_of (beforeLoop R ctx hs i arg) = (arg1, None) →
  beforeCalls R (trace_of (beforeLoop R ctx hs i arg)) = seq i (length hs)
  ∧ ¬ invoked R (trace_of (beforeLoop R ctx hs i arg)).
Proof.
  revert i arg. induction hs as [| hk hs IH]; intros i arg Hv.
  - split; [done | apply not_invoked_nil].
  - destruct (hk ctx arg) as [res' [e |]] eqn:Hk.
    + by rewrite (beforeLoop_cons_err _ _ _ _ _ _ _ Hk) in Hv.
    + rewrite (beforeLoop_cons_ok _ _ _ _ _ _ Hk) in Hv.
      rewrite (beforeLoop_cons_ok _ _ _ _ _ _ Hk). simpl in Hv.
      destruct (IH _ _ Hv) as [Hc Hn]. rewrite trace_pair. split.
      * by rewrite beforeCalls_cons, Hc.
      * by apply not_invoked_cons.
Qed.

(** The first pre-hook that fails ends the loop: it is the last hook
    called, and its error is the loop's error. *)
Lemma beforeLoop_first_error ctx hs1 hk hs2 arg arg1 e :
  value_of (beforeLoop R ctx hs1 0 arg) = (arg1, None) →
  (hk ctx arg1).2 = Some e →
  value_of (beforeLoop R ctx (hs1 ++ hk :: hs2) 0 arg) = ((hk ctx arg1).1, Some e)
  ∧ beforeCalls R (trace_of (beforeLoop R ctx (hs1 ++ hk :: hs2) 0 arg))
    = seq 0 (S (length hs1))
  ∧ ¬ invoked R (trace_of (beforeLoop R ctx (hs1 ++ hk :: hs2) 0 arg)).
Proof.
  intros Hv He. rewrite (beforeLoop_app _ _ _ _ _ _ Hv).
  destruct (hk ctx arg1) as [res' err] eqn:Hk. simpl in He. subst err.
  rewrite (beforeLoop_cons_err _ _ _ _ _ _ _ Hk).
  destruct (beforeLoop_success_calls _ _ _ _ _ Hv) as [Hc Hn].
  rewrite value_pair, trace_pair, Nat.add_0_l. split; [done |]. split.
  - rewrite beforeCalls_app, Hc, trace_pair, beforeCalls_cons.
    by rewrite seq_S.
  - apply not_invoked_app; [done |]. rewrite trace_pair.
    apply not_invoked_cons; [done |]. apply not_invoked_cons; [done |].
    apply not_invoked_nil.
Qed.

Lemma afterChain_cons ctx hk hs p :
  afterChain R ctx (hk :: hs) p = afterChain R ctx hs (hk ctx p.1 p.2).
Proof. done. Qed.

Lemma afterChain_snoc ctx hs hk p :
  afterChain R ctx (hs ++ [hk]) p
  = hk ctx (afterChain R ctx hs p).1 (afterChain R ctx hs p).2.
Proof. unfold afterChain. by rewrite foldl_snoc. Qed.

Lemma afterLoop_value ctx hs i ret err :
  value_of (afterLoop R ctx hs i ret err) = afterChain R ctx hs (ret, err).
Proof.
  revert i ret err. induction hs as [| hk hs IH]; intros i ret err; [done |].
  rewrite afterLoop_cons, value_pair, IH. unfold afterChain. simpl.
  by destruct (hk ctx ret err).
Qed.

Lemma afterLoop_calls ctx hs i ret err :
  afterCalls R (trace_of (afterLoop R ctx hs i ret err)) = seq i (length hs).
Proof.
  revert i ret err. induction hs as [| hk hs IH]; intros i ret err; [done |].
  by rewrite afterLoop_cons, trace_pair, afterCalls_cons, IH.
Qed.

Lemma afterLoop_not_invoked ctx hs i ret err :
  ¬ invoked R (trace_of (afterLoop R ctx hs i ret err)).
Proof.
  revert i ret err. induction hs as [| hk hs IH]; intros i ret err.
  - apply not_invoked_nil.
  - rewrite afterLoop_cons, trace_pair. by apply not_invoked_cons.
Qed.

(** Post-hook number [i + k] is called with the pair the first [k] hooks
    have made of the pair the loop started with. *)
Lemma afterLoop_receives ctx hs i ret err k :
  k < length hs →
  CallAfter (i + k) ctx (afterChain R ctx (take k hs) (ret, err)).1
                        (afterChain R ctx (take k hs) (ret, err)).2
  ∈ trace_of (afterLoop R ctx hs i ret err).
Proof.
  revert i ret err k. induction hs as [| hk hs IH]; intros i ret err k Hk.
  - simpl in Hk. lia.
  - rewrite afterLoop_cons, trace_pair. destruct k as [| k].
    + rewrite Nat.add_0_r. apply elem_of_cons. by left.
    + apply elem_of_cons. right. simpl in Hk.
      replace (i + S k) with (S i + k) by lia.
      change (take (S k) (hk :: hs)) with (hk :: take k hs).
      rewrite afterChain_cons. cbn [fst snd].
      specialize (IH (S i) (hk ctx ret err).1 (hk ctx ret err).2 k).
      rewrite <- surjective_pairing in IH. apply IH. lia.
Qed.

(** *** The stages of the dispatch *)


Lemma serializeReturn_not_invoked ser v :
  ¬ invoked R (trace_of (serializeReturn R ser v)).
Proof.
  unfold serializeReturn. destruct (SerializeOrRaw R ser v) as [res [e |]].
  - destruct (GetErrorPayload R ser e) as [res' [e' |]]; simpl;
      repeat (apply not_invoked_cons; [done |]); apply not_invoked_nil.
  - apply not_invoked_nil.
Qed.

Lemma invokeAndRespond_value g ctx h ser t remote arg :
  let out := Pcall g (Method h) (handlerArgs R h ctx arg) in
  let p := afterChain R ctx (AfterHandlers g) (respBeforeHooks R remote t out, out.2) in
  value_of (invokeAndRespond R g ctx h ser t remote arg)
  = match p.2 with
    | Some e => ([], Some e)
    | None =>
        match value_of (serializeReturn R ser p.1) with
        | (_, Some e) => ([], Some e)
        | (ret, None) => (ret, None)
        end
    end.
Proof.
  intros out p. subst out p. unfold invokeAndRespond, respBeforeHooks.
  rewrite value_bind.
  destruct (Pcall g (Method h) (handlerArgs R h ctx arg)) as [resp err].
  rewrite value_bind. unfold executeAfterPipeline. rewrite afterLoop_value.
  cbn [fst snd].
  destruct (afterChain R ctx (AfterHandlers g) _) as [resp' [e' |]]; [done |].
  rewrite value_bind. cbn [fst snd].
  by destruct (value_of (serializeReturn R ser resp')) as [ret [e |]].
Qed.

Lemma invokeAndRespond_trace g ctx h ser t remote arg :
  let out := Pcall g (Method h) (handlerArgs R h ctx arg) in
  let p := afterChain R ctx (AfterHandlers g) (respBeforeHooks R remote t out, out.2) in
  trace_of (invokeAndRespond R g ctx h ser t remote arg)
  = CallHandler (Method h) (handlerArgs R h ctx arg)
    :: trace_of (afterLoop R ctx (AfterHandlers g) 0 (respBeforeHooks R remote t out) out.2)
    ++ match p.2 with
       | Some _ => []
       | None => trace_of (serializeReturn R ser p.1)
       end.
Proof.
  intros out p. subst out p. unfold invokeAndRespond, respBeforeHooks.
  rewrite trace_bind. unfold emit at 1. rewrite trace_pair.
  destruct (Pcall g (Method h) (handlerArgs R h ctx arg)) as [resp err].
  rewrite trace_bind. unfold executeAfterPipeline. rewrite afterLoop_value.
  cbn [fst snd]. simpl app. f_equal. f_equal.
  destruct (afterChain R ctx (AfterHandlers g) _) as [resp' [e' |]]; [done |].
  rewrite trace_bind. cbn [fst snd].
  destruct (value_of (serializeReturn R ser resp')) as [ret [e |]];
    by rewrite trace_ret, app_nil_r.
Qed.

Lemma invokeAndRespond_invoked g ctx h ser t remote arg :
  invoked R (trace_of (invokeAndRespond R g ctx h ser t remote arg)).
Proof.
  rewrite invokeAndRespond_trace. eexists _, _. apply elem_of_cons. by left.
Qed.

Lemma decodeAndRun_reaches g ctx h ser sess data t remote arg0 arg :
  unmarshalHandlerArg R h ser data = (arg0, None) →
  value_of (executeBeforePipeline R g ctx arg0) = (arg, None) →
  decodeAndRun R g ctx h ser sess data t remote
  = (trace_of (executeBeforePipeline R g ctx arg0)
       ++ LogData (SessionID R sess) data
       :: trace_of (invokeAndRespond R g ctx h ser t remote arg),
     value_of (invokeAndRespond R g ctx h ser t remote arg)).
Proof.
  intros Hu Hb. unfold decodeAndRun. rewrite Hu.
  rewrite (traced_eta (_ ≫= _)), trace_bind, value_bind, Hb.
  by rewrite trace_bind, value_bind.
Qed.

Lemma decodeAndRun_hook_error g ctx h ser sess data t remote arg0 arg e :
  unmarshalHandlerArg R h ser data = (arg0, None) →
  value_of (executeBeforePipeline R g ctx arg0) = (arg, Some e) →
  decodeAndRun R g ctx h ser sess data t remote
  = (trace_of (executeBeforePipeline R g ctx arg0), ([], Some e)).
Proof.
  intros Hu Hb. unfold decodeAndRun. rewrite Hu.
  rewrite (traced_eta (_ ≫= _)), trace_bind, value_bind, Hb.
  by rewrite trace_ret, value_ret, app_nil_r.
Qed.

Lemma process_not_refused g ctx rt ser sess data m remote h t :
  getHandler R g rt = inl h →
  getMsgType R m = (t, None) →
  (ValidateMessageType h t).1 = false →
  processHandlerMessage R g ctx rt ser sess data m remote
  = (mismatchLog R h t
       ++ trace_of (decodeAndRun R g (dispatchCtx R ctx rt sess) h ser sess data t remote),
     value_of (decodeAndRun R g (dispatchCtx R ctx rt sess) h ser sess data t remote)).
Proof.
  intros Hh Hm Hv. unfold processHandlerMessage, mismatchLog. rewrite Hh, Hm.
  destruct (ValidateMessageType h t) as [exit [e |]]; simpl in Hv; subst exit.
  - by rewrite (traced_eta (_ ≫= _)), trace_bind, value_bind.
  - apply traced_eta.
Qed.

Lemma process_refused g ctx rt ser sess data m remote h t :
  getHandler R g rt = inl h →
  getMsgType R m = (t, None) →
  (ValidateMessageType h t).1 = true →
  processHandlerMessage R g ctx rt ser sess data m remote
  = ([], ([], Some (NewError R ErrRequestOnNotify (ErrBadRequestCode R)))).
Proof.
  intros Hh Hm Hv. unfold processHandlerMessage. rewrite Hh, Hm.
  by rewrite (Validate_exit _ _ Hv).
Qed.

Lemma beforeLoop_afterCalls ctx hs i arg :
  afterCalls R (trace_of (beforeLoop R ctx hs i arg)) = [].
Proof.
  revert i arg. induction hs as [| hk hs IH]; intros i arg; [done |].
  destruct (hk ctx arg) as [res' [e |]] eqn:Hk.
  - by rewrite (beforeLoop_cons_err _ _ _ _ _ _ _ Hk).
  - rewrite (beforeLoop_cons_ok _ _ _ _ _ _ Hk), trace_pair.
    change (afterCalls R (CallBefore i ctx arg :: ?tr)) with (afterCalls R tr).
    apply IH.
Qed.

Lemma serializeReturn_afterCalls ser v :
  afterCalls R (trace_of (serializeReturn R ser v)) = [].
Proof.
  unfold serializeReturn. destruct (SerializeOrRaw R ser v) as [res [e |]]; [| done].
  by destruct (GetErrorPayload R ser e) as [res' [e' |]].
Qed.

Lemma mismatchLog_afterCalls h t : afterCalls R (mismatchLog R h t) = [].
Proof. unfold mismatchLog. by destruct (ValidateMessageType h t).2. Qed.

(** The whole dispatch, once the handler is reached: what comes before
    the handler call contains no handler call and no post-hook call. *)
Lemma process_reaches g ctx rt ser sess data m remote h t arg :
  reaches_handler R g ctx rt ser sess data m h t arg →
  ∃ before,
    ¬ invoked R before
    ∧ afterCalls R before = []
    ∧ processHandlerMessage R g ctx rt ser sess data m remote
      = (before ++ trace_of (invokeAndRespond R g (dispatchCtx R ctx rt sess)
                               h ser t remote arg),
         value_of (invokeAndRespond R g (dispatchCtx R ctx rt sess)
                     h ser t remote arg)).
Proof.
  intros (Hh & Hm & Hv & arg0 & Hu & Hb).
  rewrite (process_not_refused _ _ _ _ _ _ _ _ _ _ Hh Hm Hv).
  rewrite (decodeAndRun_reaches _ _ _ _ _ _ _ _ _ _ Hu Hb).
  rewrite trace_pair, value_pair.
  exists (mismatchLog R h t
            ++ trace_of (executeBeforePipeline R g (dispatchCtx R ctx rt sess) arg0)
            ++ [LogData (SessionID R sess) data]).
  split; [| split].
  - apply not_invoked_app.
    { unfold mismatchLog. destruct (ValidateMessageType h t).2;
        [apply not_invoked_cons; [done |] |]; apply not_invoked_nil. }
    apply not_invoked_app.
    { by eapply beforeLoop_success_calls. }
    apply not_invoked_cons; [done | apply not_invoked_nil].
  - rewrite !afterCalls_app, mismatchLog_afterCalls.
    unfold executeBeforePipeline. by rewrite beforeLoop_afterCalls.
  - f_equal. by rewrite <- !app_assoc.
Qed.

(** Only [Receiver], [Method], [Type_] and [IsRawArg] of the handler, and
    the hooks and [Pcall] of the globals, matter after the kind check. *)
Lemma decodeAndRun_withMessageType g ctx h k t' ser sess data t remote :
  decodeAndRun R (withHandler R g k (withMessageType R h t')) ctx
    (withMessageType R h t') ser sess data t remote
  = decodeAndRun R g ctx h ser sess data t remote.
Proof. done. Qed.

Lemma getHandler_withHandler g rt h :
  getHandler R (withHandler R g (RouteShort R rt) h) rt = inl h.
Proof. unfold getHandler, withHandler. simpl. by rewrite lookup_insert_eq. Qed.

Lemma Validate_withMessageType h t :
  ValidateMessageType (withMessageType R h t) t = (false, None).
Proof. exact (Validate_match (withMessageType R h t)). Qed.

(** The dispatch of a message of kind [t] to a route whose handler is
    declared for the kind [t]. *)
Lemma process_matching g ctx rt ser sess data m remote h t :
  getMsgType R m = (t, None) →
  processHandlerMessage R (withHandler R g (RouteShort R rt) (withMessageType R h t))
    ctx rt ser sess data m remote
  = decodeAndRun R g (dispatchCtx R ctx rt sess) h ser sess data t remote.
Proof.
  intros Hm.
  rewrite (process_not_refused _ _ _ _ _ _ _ _ (withMessageType R h t) t
             (getHandler_withHandler _ _ _) Hm)
    by (by rewrite Validate_withMessageType).
  unfold mismatchLog. rewrite Validate_withMessageType.
  rewrite decodeAndRun_withMessageType. symmetry. apply traced_eta.
Qed.

(** C2.  For a handler declared Notify, an incoming Request makes the kind
    check return [ErrRequestOnNotify] with [exitOnError = true], and the
    dispatch returns that error (wrapped by [NewError] with the bad-request
    code) without calling the handler.  For a handler declared Request, an
    incoming Notify makes the kind check return [ErrNotifyOnRequest] with
    [exitOnError = false]; the dispatch logs it and goes on with decoding,
    pre-hooks and the handler call: the handler is invoked whenever the
    payload decodes and the pre-hooks succeed. *)
Theorem kind_mismatch_policy g ctx rt ser sess data m remote h :
  getHandler R g rt = inl h →
  (MessageType h = Notify → getMsgType R m = (Request, None) →
     ValidateMessageType h Request = (true, Some ErrRequestOnNotify)
     ∧ value_of (processHandlerMessage R g ctx rt ser sess data m remote)
       = ([], Some (NewError R ErrRequestOnNotify (ErrBadRequestCode R)))
     ∧ ¬ invoked R (trace_of (processHandlerMessage R g ctx rt ser sess data m remote)))
  ∧ (MessageType h = Request → getMsgType R m = (Notify, None) →
     ValidateMessageType h Notify = (false, Some ErrNotifyOnRequest)
     ∧ processHandlerMessage R g ctx rt ser sess data m remote
       = (LogInvalidMessageType ErrNotifyOnRequest
            :: trace_of (decodeAndRun R g (dispatchCtx R ctx rt sess) h ser sess
                           data Notify remote),
          value_of (decodeAndRun R g (dispatchCtx R ctx rt sess) h ser sess
                      data Notify remote))
     ∧ (∀ arg, reaches_handler R g ctx rt ser sess data m h Notify arg →
          invoked R (trace_of (processHandlerMessage R g ctx rt ser sess data m remote)))).
Proof.
  intros Hh. split.
  - intros Hk Hm.
    assert (Hv : ValidateMessageType h Request = (true, Some ErrRequestOnNotify)).
    { apply Validate_request. by rewrite Hk. }
    split; [done |].
    rewrite (process_refused _ _ _ _ _ _ _ _ _ _ Hh Hm) by (by rewrite Hv).
    split; [done | apply not_invoked_nil].
  - intros Hk Hm.
    assert (Hv : ValidateMessageType h Notify = (false, Some ErrNotifyOnRequest)).
    { apply Validate_notify. by rewrite Hk. }
    split; [done |]. split.
    + rewrite (process_not_refused _ _ _ _ _ _ _ _ _ _ Hh Hm) by (by rewrite Hv).
      unfold mismatchLog. by rewrite Hv.
    + intros arg Hreach.
      destruct (process_reaches _ _ _ _ _ _ _ remote _ _ _ Hreach)
        as (before & _ & _ & ->).
      rewrite trace_pair.
      destruct (invokeAndRespond_invoked g (dispatchCtx R ctx rt sess) h ser
                  Notify remote arg) as (mt & args & Hin).
      exists mt, args. apply elem_of_app. by right.
Qed.


(** C6.  When the handler call returns an error, every post-hook is still
    called, once and in order; post-hook number [k] receives the pair
    (result, error) as the hooks before it have left it, the first one
    receiving the handler's error; and the error of the dispatch is the
    error the chain ends with, that is the error returned by the last
    post-hook: if it is not nil it is what the dispatch returns, if it is
    nil the handler's error is gone and the dispatch goes on to serialize. *)
Theorem post_hooks_run_after_handler_error g ctx rt ser sess data m remote h t arg r e :
  reaches_handler R g ctx rt ser sess data m h t arg →
  Pcall g (Method h) (handlerArgs R h (dispatchCtx R ctx rt sess) arg) = (r, Some e) →
  let ctx' := dispatchCtx R ctx rt sess in
  let out := processHandlerMessage R g ctx rt ser sess data m remote in
  let start := (respBeforeHooks R remote t (r, Some e), Some e) in
  let final := afterChain R ctx' (AfterHandlers g) start in
  afterCalls R (trace_of out) = seq 0 (length (AfterHandlers g))
  ∧ (∀ k, k < length (AfterHandlers g) →
       CallAfter k ctx' (afterChain R ctx' (take k (AfterHandlers g)) start).1
                        (afterChain R ctx' (take k (AfterHandlers g)) start).2
       ∈ trace_of out)
  ∧ (∀ e', final.2 = Some e' → value_of out = ([], Some e'))
  ∧ (final.2 = None →
       (value_of out).2 = (value_of (serializeReturn R ser final.1)).2)
  ∧ (∀ hs hk, AfterHandlers g = hs ++ [hk] →
       final = hk ctx' (afterChain R ctx' hs start).1 (afterChain R ctx' hs start).2).
Proof.
  intros Hreach Hcall ctx' out start final. subst out start final ctx'.
  destruct (process_reaches _ _ _ _ _ _ _ remote _ _ _ Hreach)
    as (before & _ & Hb & ->).
  rewrite trace_pair, value_pair, invokeAndRespond_trace, invokeAndRespond_value.
  rewrite Hcall. cbn [fst snd].
  set (ctx' := dispatchCtx R ctx rt sess).
  set (start := (respBeforeHooks R remote t (r, Some e), Some e)).
  repeat split.
  - rewrite afterCalls_app, Hb.
    change (afterCalls R (CallHandler ?mt ?args :: ?tr)) with (afterCalls R tr).
    rewrite afterCalls_app, afterLoop_calls.
    destruct (afterChain R ctx' (AfterHandlers g) start).2;
      [| rewrite serializeReturn_afterCalls]; by rewrite app_nil_r.
  - intros k Hk. apply elem_of_app. right. apply elem_of_cons. right.
    apply elem_of_app. left.
    apply (afterLoop_receives ctx' (AfterHandlers g) 0 _ _ k Hk).
  - intros e' He'. by rewrite He'.
  - intros Hnone. rewrite Hnone.
    by destruct (value_of (serializeReturn R ser _)) as [ret [e' |]].
  - intros hs hk ->. apply afterChain_snoc.
Qed.

(** C7.  When the pre-hooks before [hk] succeed and [hk] returns the error
    [e], the dispatch returns exactly [e]; the pre-hooks called are those
    up to and including [hk], in order, and none after it; the handler is
    not invoked. *)
Theorem pre_hook_error_stops_dispatch g ctx rt ser sess data m remote h t
    arg0 hs1 hk hs2 arg1 e :
  getHandler R g rt = inl h →
  getMsgType R m = (t, None) →
  (ValidateMessageType h t).1 = false →
  unmarshalHandlerArg R h ser data = (arg0, None) →
  BeforeHandlers g = hs1 ++ hk :: hs2 →
  value_of (beforeLoop R (dispatchCtx R ctx rt sess) hs1 0 arg0) = (arg1, None) →
  (hk (dispatchCtx R ctx rt sess) arg1).2 = Some e →
  let out := processHandlerMessage R g ctx rt ser sess data m remote in
  value_of out = ([], Some e)
  ∧ beforeCalls R (trace_of out) = seq 0 (S (length hs1))
  ∧ ¬ invoked R (trace_of out).
Proof.
  intros Hh Hm Hv Hu Hhooks Hpre Herr out. subst out.
  destruct (beforeLoop_first_error _ _ _ hs2 _ _ _ Hpre Herr) as (Hval & Hcalls & Hni).
  rewrite (process_not_refused _ _ _ _ _ _ _ _ _ _ Hh Hm Hv).
  rewrite (decodeAndRun_hook_error _ _ _ _ _ _ _ _ arg0
             (hk (dispatchCtx R ctx rt sess) arg1).1 e Hu)
    by (unfold executeBeforePipeline; by rewrite Hhooks).
  rewrite !value_pair, !trace_pair. unfold executeBeforePipeline. rewrite Hhooks.
  split; [done |]. split.
  - rewrite beforeCalls_app. unfold mismatchLog.
    destruct (ValidateMessageType h t).2; exact Hcalls.
  - apply not_invoked_app; [| done]. unfold mismatchLog.
    destruct (ValidateMessageType h t).2;
      [apply not_invoked_cons; [done |] |]; apply not_invoked_nil.
Qed.

(** C10.  For an incoming kind Response or Push that differs from the
    handler's declared kind, the kind check returns a nil error and
    [exitOnError = false], and the dispatch is, call for call and in its
    result, the dispatch to the same handler declared for that kind. *)
Theorem validate_passes_response_and_push g ctx rt ser sess data m remote h t :
  t = Response ∨ t = Push →
  MessageType h ≠ t →
  ValidateMessageType h t = (false, None)
  ∧ (getHandler R g rt = inl h → getMsgType R m = (t, None) →
       processHandlerMessage R g ctx rt ser sess data m remote
       = processHandlerMessage R
           (withHandler R g (RouteShort R rt) (withMessageType R h t))
           ctx rt ser sess data m remote).
Proof.
  intros Ht Hne.
  assert (Hv : ValidateMessageType h t = (false, None)).
  { apply Validate_other; destruct Ht as [-> | ->]; done. }
  split; [done |]. intros Hh Hm.
  rewrite (process_matching _ _ _ _ _ _ _ _ _ _ Hm).
  rewrite (process_not_refused _ _ _ _ _ _ _ _ _ _ Hh Hm) by (by rewrite Hv).
  unfold mismatchLog. rewrite Hv. symmetry. apply traced_eta.
Qed.

End DispatchFacts.

(** *** The dispatch on the small instance *)
Section DispatchExamples.
Import message component service.

Lemma kind_mismatch_policy_witness :
  (let out := processHandlerMessage demo.runtime demo.plain None "Room.Tick" tt tt []
                (IsMessageType Request) false in
   value_of out = ([], Some (PitayaError "BadRequest" "" ∅))
   ∧ ¬ invoked demo.runtime (trace_of out))
  ∧ (let out := processHandlerMessage demo.runtime demo.plain None "Room.Join" tt tt
                  demo.joinPayload (IsMessageType Notify) false in
     invoked demo.runtime (trace_of out)).
Proof.
  split.
  - destruct (kind_mismatch_policy demo.runtime demo.plain None "Room.Tick" tt tt []
                (IsMessageType Request) false demo.tickHandler eq_refl) as [H _].
    destruct (H eq_refl eq_refl) as (_ & Hv & Hn). split; [exact Hv | exact Hn].
  - destruct (kind_mismatch_policy demo.runtime demo.plain None "Room.Join" tt tt
                demo.joinPayload (IsMessageType Notify) false demo.joinHandler eq_refl)
      as [_ H].
    destruct (H eq_refl eq_refl) as (_ & _ & Hi).
    apply (Hi (IObj "{name:A}")).
    split; [reflexivity |]. split; [reflexivity |]. split; [reflexivity |].
    exists (IObj "{name:A}"). split; reflexivity.
Defined.

(** C3 (as stated) fails.  A Notify message for [Room.Join], a handler
    declared Request: the mismatch is logged, the handler is called, and
    the dispatch returns the handler's result with a nil error. *)
Lemma notify_for_request_handler_is_invoked :
  let out := processHandlerMessage demo.runtime demo.plain None "Room.Join" tt tt
               demo.joinPayload (IsMessageType Notify) false in
  MessageType demo.joinHandler = Request
  ∧ getHandler demo.runtime demo.plain "Room.Join" = inl demo.joinHandler
  ∧ trace_of out
    = [LogInvalidMessageType ErrNotifyOnRequest;
       LogData 1 demo.joinPayload;
       CallHandler ("Join" : RMethod demo.runtime)
         [RVReceiver ("Room" : RValue demo.runtime); RVCtx (tt : Ctx demo.runtime);
          RVArg (IObj "{name:A}" : iface (Obj demo.runtime))]]
  ∧ value_of out = (list_byte_of_string "{ok:true}", None)
  ∧ invoked demo.runtime (trace_of out).
Proof.
  repeat split.
  eexists _, _. do 2 (apply elem_of_cons; right). apply elem_of_cons. left.
  reflexivity.
Qed.


(** The ack also replaces the result of a handler that returns one: a
    remote Notify for [Room.Join]. *)
Example remote_notify_ack_replaces_result :
  value_of (processHandlerMessage demo.runtime demo.plain None "Room.Join" tt tt
              demo.joinPayload (IsMessageType Notify) true)
  = (ack, None)
  ∧ value_of (processHandlerMessage demo.runtime demo.plain None "Room.Join" tt tt
                demo.joinPayload (IsMessageType Notify) false)
    = (list_byte_of_string "{ok:true}", None).
Proof. split; reflexivity. Qed.

Lemma post_hooks_run_after_handler_error_witness :
  let out := processHandlerMessage demo.runtime demo.audited None "Room.Fail" tt tt
               demo.joinPayload (IsMessageType Request) false in
  afterCalls demo.runtime (trace_of out) = [0; 1]
  ∧ CallAfter 0 (tt : Ctx demo.runtime) INil (Some (ErrExternal "room is full"))
    ∈ trace_of out
  ∧ value_of out = ([], Some (ErrExternal "masked")).
Proof.
  destruct (post_hooks_run_after_handler_error demo.runtime demo.audited None
              "Room.Fail" tt tt demo.joinPayload (IsMessageType Request) false
              demo.failHandler Request (IObj "{name:A}") INil
              (ErrExternal "room is full"))
    as (Hcalls & Hrecv & Herr & _ & _).
  - split; [reflexivity |]. split; [reflexivity |]. split; [reflexivity |].
    exists (IObj "{name:A}"). split; reflexivity.
  - reflexivity.
  - split; [exact Hcalls |]. split.
    + apply (Hrecv 0). simpl. lia.
    + apply Herr. reflexivity.
Defined.

(** With a post-hook that only passes the pair on, the handler's error is
    the error of the dispatch. *)
Example handler_error_observed :
  processHandlerMessage demo.runtime demo.observed None "Room.Fail" tt tt
    demo.joinPayload (IsMessageType Request) false
  = ([LogData 1 demo.joinPayload;
      CallHandler ("Fail" : RMethod demo.runtime)
        [RVReceiver ("Room" : RValue demo.runtime); RVCtx (tt : Ctx demo.runtime);
         RVArg (IObj "{name:A}" : iface (Obj demo.runtime))];
      CallAfter 0 (tt : Ctx demo.runtime) INil (Some (ErrExternal "room is full"))],
     ([], Some (ErrExternal "room is full"))).
Proof. reflexivity. Qed.

Lemma pre_hook_error_stops_dispatch_witness :
  let out := processHandlerMessage demo.runtime demo.guarded None "Room.Join" tt tt
               demo.joinPayload (IsMessageType Request) false in
  value_of out = ([], Some (ErrExternal "denied"))
  ∧ beforeCalls demo.runtime (trace_of out) = [0; 1]
  ∧ ¬ invoked demo.runtime (trace_of out).
Proof.
  apply (pre_hook_error_stops_dispatch demo.runtime demo.guarded None "Room.Join"
           tt tt demo.joinPayload (IsMessageType Request) false demo.joinHandler
           Request (IObj "{name:A}") [demo.passHook] demo.denyHook [demo.passHook]
           (IObj "{name:A}") (ErrExternal "denied")); reflexivity.
Defined.

Lemma validate_passes_response_and_push_witness :
  ValidateMessageType demo.joinHandler Push = (false, None)
  ∧ processHandlerMessage demo.runtime demo.plain None "Room.Join" tt tt
      demo.joinPayload (IsMessageType Push) false
    = processHandlerMessage demo.runtime
        (withHandler demo.runtime demo.plain "Room.Join"
           (withMessageType demo.runtime demo.joinHandler Push))
        None "Room.Join" tt tt demo.joinPayload (IsMessageType Push) false.
Proof.
  destruct (validate_passes_response_and_push demo.runtime demo.plain None
              "Room.Join" tt tt demo.joinPayload (IsMessageType Push) false
              demo.joinHandler Push) as [Hv Heq].
  - right. reflexivity.
  - discriminate.
  - split; [exact Hv |]. apply Heq; reflexivity.
Defined.

End DispatchExamples.

(** ** The gRPC peer client *)
Section ClientFacts.
Import cluster.
Context (Net : Network).
Implicit Type gs : GRPCClient Net.

Lemma not_consulted_nil : ¬ consulted Net [].
Proof. intros (u & ty & Hin). by apply elem_of_nil in Hin. Qed.

Lemma not_consulted_cons ev tr :
  (∀ u ty, ev ≠ LookupFrontend u ty) → ¬ consulted Net tr → ¬ consulted Net (ev :: tr).
Proof.
  intros Hev Htr (u & ty & Hin). apply elem_of_cons in Hin as [Hin | Hin].
  - by eapply Hev.
  - apply Htr. by exists u, ty.
Qed.

Lemma not_consulted_app tr1 tr2 :
  ¬ consulted Net tr1 → ¬ consulted Net tr2 → ¬ consulted Net (tr1 ++ tr2).
Proof.
  intros H1 H2 (u & ty & Hin). apply elem_of_app in Hin as [Hin | Hin];
    [apply H1 | apply H2]; by exists u, ty.
Qed.

(** Connecting dials at most once and asks the directory nothing. *)
Lemma ensureConnected_trace gc :
  trace_of (ensureConnected Net gc) = []
  ∨ trace_of (ensureConnected Net gc) = [DialPeer (address gc)].
Proof.
  unfold ensureConnected, connect. destruct (connected gc); [by left |].
  right. by destruct (Dial Net (address gc)).
Qed.

Lemma pushToUser_not_consulted gc ctx push :
  ¬ consulted Net (trace_of (pushToUser Net gc ctx push)).
Proof.
  unfold pushToUser. rewrite trace_bind.
  apply not_consulted_app.
  - destruct (ensureConnected_trace gc) as [-> | ->];
      [| apply not_consulted_cons; [done |]]; apply not_consulted_nil.
  - destruct (value_of (ensureConnected Net gc)) as [gc' [e |]].
    + apply not_consulted_nil.
    + simpl. apply not_consulted_cons; [done | apply not_consulted_nil].
Qed.

Lemma forwardPush_not_consulted gs svID push :
  ¬ consulted Net (trace_of (forwardPush Net gs svID push)).
Proof.
  unfold forwardPush. destruct (clientMap gs !! svID) as [c |];
    [| apply not_consulted_nil].
  rewrite trace_bind. apply not_consulted_app.
  - apply pushToUser_not_consulted.
  - destruct (value_of (pushToUser Net _ _ _)) as [c' err]. simpl.
    apply not_consulted_cons; [done | apply not_consulted_nil].
Qed.

Lemma forwardPush_no_client gs svID push :
  clientMap gs !! svID = None →
  forwardPush Net gs svID push = ([], (gs, Some ErrNoConnectionToServer)).
Proof. intros H. unfold forwardPush. by rewrite H. Qed.

(** With a client for [svID], the push goes through that client, and the
    error of the call is the error returned. *)
Lemma forwardPush_client gs svID push c :
  clientMap gs !! svID = Some c →
  let sent := pushToUser Net c (WithTimeout Net (Background Net) (reqTimeout gs)) push in
  forwardPush Net gs svID push
  = (trace_of sent ++ [Cancel],
     (withClient gs svID (value_of sent).1, (value_of sent).2)).
Proof.
  intros H sent. subst sent. unfold forwardPush. rewrite H.
  rewrite (traced_eta (_ ≫= _)), trace_bind, value_bind.
  by destruct (value_of (pushToUser Net _ _ _)).
Qed.

(** Writing back a client that did not change changes nothing. *)
Lemma withClient_same gs id c :
  clientMap gs !! id = Some c → withClient gs id c = gs.
Proof.
  intros Hc. destruct gs. unfold withClient. simpl in *. f_equal.
  by apply insert_id.
Qed.

(** The push through the client stored under [svID], by the state of that
    client. *)
Lemma forwardPush_outcomes gs svID push c :
  clientMap gs !! svID = Some c →
  let ctxT := WithTimeout Net (Background Net) (reqTimeout gs) in
  (connected c = true →
     forwardPush Net gs svID push
     = ([RpcPushToUser (address c) ctxT push; Cancel],
        (gs, cliPushToUser Net (address c) ctxT push)))
  ∧ (connected c = false → Dial Net (address c) = None →
     forwardPush Net gs svID push
     = ([DialPeer (address c); RpcPushToUser (address c) ctxT push; Cancel],
        (withClient gs svID (mkGrpcClient (address c) true),
         cliPushToUser Net (address c) ctxT push)))
  ∧ (∀ e, connected c = false → Dial Net (address c) = Some e →
     forwardPush Net gs svID push
     = ([DialPeer (address c); Cancel], (gs, Some e))).
Proof.
  intros Hc ctxT. subst ctxT. rewrite (forwardPush_client _ _ _ _ Hc).
  unfold pushToUser, ensureConnected, connect. split; [| split].
  - intros Hcon. rewrite Hcon. simpl. by rewrite (withClient_same _ _ _ Hc).
  - intros Hcon Hd. by rewrite Hcon, Hd.
  - intros e Hcon Hd. rewrite Hcon, Hd. simpl. by rewrite (withClient_same _ _ _ Hc).
Qed.

(** C9.  With a non-empty id in [frontendSv], [SendPush] does not ask the
    binding directory and works on the client stored under that id: without
    such a client it returns [ErrNoConnectionToServer]; with one, the push
    is sent to that client's address (after dialling it, if the client was
    not connected) and the stub's error is returned, or the dial error if
    dialling fails.  With an empty id and no binding-storage module it
    returns [ErrNoBindingStorageModule].  When the id resolved in either way
    has no client in the pool it returns [ErrNoConnectionToServer], and
    nothing is sent.  With an empty id, the push goes to the client stored
    under the id the binding directory returns. *)
Theorem SendPush_resolution gs userID frontendSv push :
  let ctxT := WithTimeout Net (Background Net) (reqTimeout gs) in
  let out := SendPush Net gs userID frontendSv push in
  (ID frontendSv ≠ "" →
     ¬ consulted Net (trace_of out)
     ∧ (clientMap gs !! ID frontendSv = None →
          out = ([], (gs, Some ErrNoConnectionToServer)))
     ∧ (∀ c, clientMap gs !! ID frontendSv = Some c →
          (connected c = true →
             out = ([RpcPushToUser (address c) ctxT push; Cancel],
                    (gs, cliPushToUser Net (address c) ctxT push)))
          ∧ (connected c = false → Dial Net (address c) = None →
             out = ([DialPeer (address c); RpcPushToUser (address c) ctxT push;
                     Cancel],
                    (withClient gs (ID frontendSv) (mkGrpcClient (address c) true),
                     cliPushToUser Net (address c) ctxT push)))
          ∧ (∀ e, connected c = false → Dial Net (address c) = Some e →
             out = ([DialPeer (address c); Cancel], (gs, Some e)))))
  ∧ (ID frontendSv = "" → bindingStorage gs = None →
     out = ([], (gs, Some ErrNoBindingStorageModule)))
  ∧ (∀ svID, resolvedFrontend Net gs userID frontendSv svID →
       clientMap gs !! svID = None →
       value_of out = (gs, Some ErrNoConnectionToServer)
       ∧ silent Net (trace_of out))
  ∧ (∀ bs svID c, ID frontendSv = "" → bindingStorage gs = Some bs →
       bs userID (Type_ frontendSv) = (svID, None) →
       clientMap gs !! svID = Some c → connected c = true →
       out = ([LookupFrontend userID (Type_ frontendSv);
               RpcPushToUser (address c) ctxT push; Cancel],
              (gs, cliPushToUser Net (address c) ctxT push))).
Proof.
  intros ctxT out. subst ctxT out. split; [| split; [| split]].
  - intros Hid. unfold SendPush. rewrite decide_True by done.
    split; [apply forwardPush_not_consulted |]. split.
    + intros Hnone. by rewrite (forwardPush_no_client _ _ _ Hnone).
    + intros c Hc. apply (forwardPush_outcomes _ _ _ _ Hc).
  - intros Hid Hbs. unfold SendPush. rewrite decide_False by (by intros ?).
    by rewrite Hbs.
  - intros svID [[Hid ->] | (Hid & bs & Hbs & Hlook)] Hnone; unfold SendPush.
    + rewrite decide_True by done. rewrite (forwardPush_no_client _ _ _ Hnone).
      split; [done |]. intros e He. by apply elem_of_nil in He.
    + rewrite decide_False by (by intros ?). rewrite Hbs.
      rewrite (traced_eta (_ ≫= _)), trace_bind, value_bind, Hlook.
      rewrite (forwardPush_no_client _ _ _ Hnone).
      split; [done |]. intros e He. rewrite trace_pair in He.
      apply list_elem_of_singleton in He. by subst e.
  - intros bs svID c Hid Hbs Hlook Hc Hcon. unfold SendPush.
    rewrite decide_False by (by intros ?). rewrite Hbs.
    rewrite (traced_eta (_ ≫= _)), trace_bind, value_bind, Hlook.
    destruct (forwardPush_outcomes gs svID push c Hc) as (-> & _ & _); done.
Qed.

(** C8.  When the transport answers [Call] with a response whose [Error]
    field is set, [Call] returns no response and a typed error that has the
    message and the metadata of that field, and its code, or
    [ErrUnknownCode] if that code is empty. *)
Theorem Call_error_response gs ctx rpcType route sess msg sv c req c' res e :
  clientMap gs !! ID sv = Some c →
  buildRequest Net (spanCtx Net gs ctx sv) rpcType route sess msg (server gs) = inl req →
  value_of (call Net c (callCtx Net gs ctx route sv) req) = (c', inl res) →
  Error res = Some e →
  ∃ code,
    (value_of (Call Net gs ctx rpcType route sess msg sv)).2
    = (None, Some (PitayaError code (Msg e) (ErrMetadata e)))
    ∧ (Code e ≠ "" → code = Code e)
    ∧ (Code e = "" → code = ErrUnknownCode Net).
Proof.
  intros Hc Hreq Hcall Herr.
  exists (if decide (Code e = "") then ErrUnknownCode Net else Code e).
  split; [| split].
  - unfold Call. rewrite Hc, value_bind, Hreq, value_bind, Hcall, Herr.
    by rewrite value_bind.
  - intros Hne. by rewrite decide_False.
  - intros Heq. by rewrite decide_True.
Qed.

(** [Call] never returns a response whose [Error] field is set. *)
Lemma Call_response_has_no_error gs ctx rpcType route sess msg sv gs' res oe :
  value_of (Call Net gs ctx rpcType route sess msg sv) = (gs', (Some res, oe)) →
  Error res = None ∧ oe = None.
Proof.
  unfold Call. destruct (clientMap gs !! ID sv) as [c |]; [| done].
  rewrite value_bind.
  destruct (buildRequest Net _ _ _ _ _ _) as [req | err]; [| by rewrite value_bind].
  rewrite value_bind.
  destruct (value_of (call Net c _ req)) as [c' [r | err]]; [| by rewrite value_bind].
  destruct (Error r) eqn:He; rewrite value_bind; [done |].
  intros [= _ <- <-]. done.
Qed.

(** C4 (as amended).  Both operations return [ErrNoBindingStorageModule]
    without a binding-storage module, ask the binding directory for the
    frontend id, and forward through the client stored under that id when
    there is one, returning the error of that call.  [SendKick] returns the
    error of a failing lookup, and [ErrNoConnectionToServer] when the id has
    no client.  [BroadcastSessionBind] ignores the error of the lookup, and
    returns nil without sending anything when the id it got is empty or has
    no client. *)
Theorem kick_and_bind_resolution gs uid serverType kick :
  (bindingStorage gs = None →
     SendKick Net gs uid serverType kick = ([], (gs, Some ErrNoBindingStorageModule))
     ∧ BroadcastSessionBind Net gs uid = ([], (gs, Some ErrNoBindingStorageModule)))
  ∧ (∀ bs svID e, bindingStorage gs = Some bs →
       bs uid serverType = (svID, Some e) →
       SendKick Net gs uid serverType kick
       = ([LookupFrontend uid serverType], (gs, Some e)))
  ∧ (∀ bs svID, bindingStorage gs = Some bs →
       bs uid serverType = (svID, None) →
       clientMap gs !! svID = None →
       SendKick Net gs uid serverType kick
       = ([LookupFrontend uid serverType], (gs, Some ErrNoConnectionToServer)))
  ∧ (∀ bs svID c, bindingStorage gs = Some bs →
       bs uid serverType = (svID, None) →
       clientMap gs !! svID = Some c →
       let sent := sendKick Net c (WithTimeout Net (Background Net) (reqTimeout gs)) kick in
       SendKick Net gs uid serverType kick
       = (LookupFrontend uid serverType :: trace_of sent ++ [Cancel],
          (withClient gs svID (value_of sent).1, (value_of sent).2)))
  ∧ (∀ bs fid oe, bindingStorage gs = Some bs →
       bs uid (Type_ (server gs)) = (fid, oe) →
       fid = "" ∨ clientMap gs !! fid = None →
       BroadcastSessionBind Net gs uid
       = ([LookupFrontend uid (Type_ (server gs))], (gs, None)))
  ∧ (∀ bs fid oe c, bindingStorage gs = Some bs →
       bs uid (Type_ (server gs)) = (fid, oe) →
       fid ≠ "" → clientMap gs !! fid = Some c →
       let sent := sessionBindRemote Net c
                     (WithTimeout Net (Background Net) (reqTimeout gs))
                     (mkBindMsg uid (ID (server gs))) in
       BroadcastSessionBind Net gs uid
       = (LookupFrontend uid (Type_ (server gs)) :: trace_of sent ++ [Cancel],
          (withClient gs fid (value_of sent).1, (value_of sent).2))).
Proof.
  repeat split.
  - unfold SendKick. by rewrite H.
  - unfold BroadcastSessionBind. by rewrite H.
  - intros bs svID e Hbs Hlook. unfold SendKick. by rewrite Hbs, Hlook.
  - intros bs svID Hbs Hlook Hnone. unfold SendKick.
    by rewrite Hbs, Hlook, Hnone.
  - intros bs svID c Hbs Hlook Hc sent. subst sent. unfold SendKick.
    rewrite Hbs, Hlook, Hc.
    rewrite (traced_eta (_ ≫= _)), trace_bind, value_bind.
    rewrite (traced_eta (_ ≫= _)), trace_bind, value_bind.
    by destruct (value_of (sendKick Net _ _ _)).
  - intros bs fid oe Hbs Hlook Hno. unfold BroadcastSessionBind.
    rewrite Hbs, Hlook. destruct Hno as [-> | Hnone].
    + by rewrite decide_False by (by intros ?).
    + case_decide; [by rewrite Hnone | done].
  - intros bs fid oe c Hbs Hlook Hne Hc sent. subst sent.
    unfold BroadcastSessionBind. rewrite Hbs, Hlook, Hc.
    rewrite decide_True by done.
    rewrite (traced_eta (_ ≫= _)), trace_bind, value_bind.
    rewrite (traced_eta (_ ≫= _)), trace_bind, value_bind.
    by destruct (value_of (sessionBindRemote Net _ _ _)).
Qed.

End ClientFacts.

(** *** The peer client on the small instance *)
Section ClientExamples.
Import cluster.

Lemma SendPush_resolution_witness :
  SendPush demo.network (demo.pool None) "u9" demo.peerB "hello"
  = ([DialPeer "10.0.0.2:3434";
      RpcPushToUser "10.0.0.2:3434" (tt : Ctx demo.network) ("hello" : Push demo.network);
      Cancel],
     (withClient (demo.pool None) "B" (mkGrpcClient "10.0.0.2:3434" true), None))
  ∧ SendPush demo.network (demo.pool None) "u1" demo.anyConnector "hello"
    = ([], (demo.pool None, Some ErrNoBindingStorageModule))
  ∧ value_of (SendPush demo.network (demo.pool (Some demo.directory)) "u2"
                demo.anyConnector "hello")
    = (demo.pool (Some demo.directory), Some ErrNoConnectionToServer).
Proof.
  split; [| split].
  - destruct (SendPush_resolution demo.network (demo.pool None)
                "u9" demo.peerB "hello") as (H & _ & _ & _).
    destruct H as (_ & _ & Hc); [discriminate |].
    destruct (Hc (mkGrpcClient "10.0.0.2:3434" false) eq_refl) as (_ & Hd & _).
    exact (Hd eq_refl eq_refl).
  - destruct (SendPush_resolution demo.network (demo.pool None)
                "u1" demo.anyConnector "hello") as (_ & H & _ & _).
    apply H; reflexivity.
  - destruct (SendPush_resolution demo.network (demo.pool (Some demo.directory))
                "u2" demo.anyConnector "hello") as (_ & _ & H & _).
    apply (H "C").
    + right. split; [reflexivity |]. exists demo.directory. split; reflexivity.
    + reflexivity.
Defined.

(** A push for a user the directory places on "B": looked up, dialled,
    sent through B's client, which is connected afterwards. *)
Example SendPush_via_directory :
  SendPush demo.network (demo.pool (Some demo.directory)) "u1" demo.anyConnector "hello"
  = ([LookupFrontend "u1" "connector"; DialPeer "10.0.0.2:3434";
      RpcPushToUser "10.0.0.2:3434" (tt : Ctx demo.network) ("hello" : Push demo.network);
      Cancel],
     (withClient (demo.pool (Some demo.directory)) "B"
        (mkGrpcClient "10.0.0.2:3434" true), None)).
Proof. reflexivity. Qed.

Lemma Call_error_response_witness :
  ∃ code,
    (value_of (Call demo.network (demo.pool None) tt tt "room.Room.Join" tt
                 demo.someMessage demo.peerB)).2
    = (None, Some (PitayaError code "x" ∅))
    ∧ code = "Unknown".
Proof.
  destruct (Call_error_response demo.network (demo.pool None) tt tt "room.Room.Join"
              tt demo.someMessage demo.peerB
              (mkGrpcClient "10.0.0.2:3434" false) "room.Room.Join"
              (mkGrpcClient "10.0.0.2:3434" true)
              (mkResponse [] (Some (mkProtoError "" "x" ∅)))
              (mkProtoError "" "x" ∅))
    as (code & Hv & _ & Hcode); try reflexivity.
  exists code. split; [exact Hv | apply Hcode; reflexivity].
Defined.

Lemma kick_and_bind_resolution_witness :
  let gs := demo.pool (Some demo.directory) in
  SendKick demo.network gs "u3" "connector" "bye"
  = ([LookupFrontend "u3" "connector"], (gs, Some (ErrExternal "key not found")))
  ∧ SendKick demo.network gs "u2" "connector" "bye"
    = ([LookupFrontend "u2" "connector"], (gs, Some ErrNoConnectionToServer))
  ∧ BroadcastSessionBind demo.network gs "u2"
    = ([LookupFrontend "u2" "room"], (gs, None))
  ∧ SendKick demo.network (demo.pool None) "u1" "connector" "bye"
    = ([], (demo.pool None, Some ErrNoBindingStorageModule)).
Proof.
  intros gs. split; [| split; [| split]].
  - destruct (kick_and_bind_resolution demo.network gs "u3" "connector" "bye")
      as (_ & H & _).
    apply (H demo.directory ""); reflexivity.
  - destruct (kick_and_bind_resolution demo.network gs "u2" "connector" "bye")
      as (_ & _ & H & _).
    apply (H demo.directory "C"); reflexivity.
  - destruct (kick_and_bind_resolution demo.network gs "u2" "connector" "bye")
      as (_ & _ & _ & _ & H & _).
    apply (H demo.directory "C" None); [reflexivity | reflexivity |].
    right. reflexivity.
  - destruct (kick_and_bind_resolution demo.network (demo.pool None) "u1"
                "connector" "bye") as (H & _).
    apply H. reflexivity.
Defined.

(** A kick and a session bind for a user the directory places on "B" both
    go through B's client. *)
Example SendKick_via_directory :
  SendKick demo.network (demo.pool (Some demo.directory)) "u1" "connector" "bye"
  = ([LookupFrontend "u1" "connector"; DialPeer "10.0.0.2:3434";
      RpcKickUser "10.0.0.2:3434" (tt : Ctx demo.network) ("bye" : KickMsg demo.network);
      Cancel],
     (withClient (demo.pool (Some demo.directory)) "B"
        (mkGrpcClient "10.0.0.2:3434" true), None)).
Proof. reflexivity. Qed.

Example BroadcastSessionBind_via_directory :
  BroadcastSessionBind demo.network (demo.pool (Some demo.directory)) "u1"
  = ([LookupFrontend "u1" "room"; DialPeer "10.0.0.2:3434";
      RpcSessionBindRemote "10.0.0.2:3434" (tt : Ctx demo.network) (mkBindMsg "u1" "A");
      Cancel],
     (withClient (demo.pool (Some demo.directory)) "B"
        (mkGrpcClient "10.0.0.2:3434" true), None)).
Proof. reflexivity. Qed.

(** C4 (as stated) fails for [BroadcastSessionBind].  The lookup for "u3"
    fails, and the call returns nil, not the lookup error; the lookup for
    "u2" gives "C", for which the pool has no client, and the call returns
    nil although nothing was sent.  [SendKick] returns an error in both
    situations. *)
Lemma BroadcastSessionBind_silent_success :
  let gs := demo.pool (Some demo.directory) in
  demo.directory "u3" (Type_ (server gs)) = ("", Some (ErrExternal "key not found"))
  ∧ BroadcastSessionBind demo.network gs "u3"
    = ([LookupFrontend "u3" "room"], (gs, None))
  ∧ demo.directory "u2" (Type_ (server gs)) = ("C", None)
  ∧ clientMap gs !! "C" = None
  ∧ BroadcastSessionBind demo.network gs "u2"
    = ([LookupFrontend "u2" "room"], (gs, None))
  ∧ value_of (SendKick demo.network gs "u3" "room" "bye")
    = (gs, Some (ErrExternal "key not found"))
  ∧ value_of (SendKick demo.network gs "u2" "room" "bye")
    = (gs, Some ErrNoConnectionToServer).
Proof. repeat split. Qed.

End ClientExamples.

(* ================================================================== *)
(** * Further properties *)
(* ================================================================== *)

(** ** Message kinds *)

(** X1.  The valid kinds are the four named ones; the routable kinds are the
    valid ones other than Response. *)
Theorem kinds_valid_and_routable (t : N) :
  (message.invalidType t = false
   ↔ t = message.Request ∨ t = message.Notify ∨ t = message.Response ∨ t = message.Push)
  ∧ (message.routable t = true ↔ message.invalidType t = false ∧ t ≠ message.Response).
Proof.
  unfold message.invalidType, message.routable, message.Request, message.Notify,
    message.Response, message.Push.
  rewrite orb_false_iff, !orb_true_iff, !N.ltb_ge, !N.eqb_eq. lia.
Qed.

(** ** The route dictionary, continued *)
Section DictionaryFacts.
Import message dictionary.
Variable trim : string → string.

Lemma install_commute st x y :
  trim x.1 ≠ trim y.1 → x.2 ≠ y.2 →
  install trim (install trim st x) y = install trim (install trim st y) x.
Proof.
  intros Hr Hc. unfold install. simpl. f_equal; by apply insert_insert_ne.
Qed.

(** Installing entries with pairwise different trimmed routes and codes
    gives the same dictionary in every order. *)
Lemma foldl_install_perm l1 l2 st :
  l1 ≡ₚ l2 →
  NoDup ((λ e, trim e.1) <$> l1) → NoDup (snd <$> l1) →
  foldl (install trim) st l1 = foldl (install trim) st l2.
Proof.
  intros Hp. revert st. induction Hp as [| x l1 l2 Hp IH | x y l | l1 l2 l3 H12 IH12 H23 IH23];
    intros st Hr Hc.
  - done.
  - simpl in *. apply NoDup_cons in Hr as [_ Hr]. apply NoDup_cons in Hc as [_ Hc].
    by apply IH.
  - simpl in *. apply NoDup_cons in Hr as [Hr _]. apply NoDup_cons in Hc as [Hc _].
    rewrite install_commute; [done | |].
    + intros Heq. apply Hr. rewrite Heq. apply elem_of_cons. by left.
    + intros Heq. apply Hc. rewrite Heq. apply elem_of_cons. by left.
  - rewrite IH12 by done. apply IH23.
    + by rewrite <- H12.
    + by rewrite <- H12.
Qed.

(** Every mapping found after installing comes from before or from an
    installed entry. *)
Lemma foldl_install_origin l st :
  (∀ r c, routes (foldl (install trim) st l) !! r = Some c →
          routes st !! r = Some c ∨ ∃ x, x ∈ l ∧ trim x.1 = r ∧ x.2 = c)
  ∧ (∀ c r, codes (foldl (install trim) st l) !! c = Some r →
            codes st !! c = Some r ∨ ∃ x, x ∈ l ∧ trim x.1 = r ∧ x.2 = c).
Proof.
  revert st. induction l as [| y l IH]; intros st; [by split; intros; left |].
  simpl. destruct (IH (install trim st y)) as [IHr IHc]. split.
  - intros r c H. destruct (IHr r c H) as [H0 | (x & Hin & <- & <-)].
    + simpl in H0. destruct (decide (trim y.1 = r)) as [<- | Hne].
      * rewrite lookup_insert_eq in H0. injection H0 as <-.
        right. exists y. split; [apply elem_of_cons; by left | done].
      * rewrite lookup_insert_ne in H0 by done. by left.
    + right. exists x. split; [apply elem_of_cons; by right | done].
  - intros c r H. destruct (IHc c r H) as [H0 | (x & Hin & <- & <-)].
    + simpl in H0. destruct (decide (y.2 = c)) as [<- | Hne].
      * rewrite lookup_insert_eq in H0. injection H0 as <-.
        right. exists y. split; [apply elem_of_cons; by left | done].
      * rewrite lookup_insert_ne in H0 by done. by left.
    + right. exists x. split; [apply elem_of_cons; by right | done].
Qed.

(** Entries without any collision are all installed. *)
Lemma range_free_succeeds entries st :
  Forall (λ e, ¬ collides trim st e) entries →
  NoDup ((λ e, trim e.1) <$> entries) → NoDup (snd <$> entries) →
  SetDictionary_range trim entries st = (foldl (install trim) st entries, None).
Proof.
  revert st. induction entries as [| x l IH]; intros st Hf Hr Hc; [done |].
  apply Forall_cons in Hf as [Hx Hf]. simpl in Hr, Hc.
  apply NoDup_cons in Hr as [Hr1 Hr]. apply NoDup_cons in Hc as [Hc1 Hc].
  rewrite range_cons_free by done. simpl. apply IH; [| done | done].
  apply Forall_forall. intros y Hy. rewrite Forall_forall in Hf.
  intros [[v Hv] | [v Hv]]; simpl in Hv.
  - destruct (decide (trim x.1 = trim y.1)) as [Heq | Hne].
    + apply Hr1. rewrite Heq. by apply (list_elem_of_fmap_2 (λ e, trim e.1)).
    + rewrite lookup_insert_ne in Hv by done. apply (Hf y Hy). left. eauto.
  - destruct (decide (x.2 = y.2)) as [Heq | Hne].
    + apply Hc1. rewrite Heq. by apply (list_elem_of_fmap_2 snd).
    + rewrite lookup_insert_ne in Hv by done. apply (Hf y Hy). right. eauto.
Qed.

Lemma range_order_elem dict entries r c :
  range_order dict entries → ((r, c) ∈ entries ↔ dict !! r = Some c).
Proof.
  unfold range_order. intros ->. apply elem_of_map_to_list.
Qed.

(** The facts about the entries of a map without duplicate. *)
Lemma no_duplicate_entries dict entries st :
  range_order dict entries → ¬ has_duplicate trim dict st →
  Forall (λ e, ¬ collides trim st e) entries
  ∧ NoDup ((λ e, trim e.1) <$> entries)
  ∧ NoDup (snd <$> entries).
Proof.
  intros Hord Hnd.
  assert (Hnodup : NoDup entries).
  { unfold range_order in Hord. rewrite Hord. apply NoDup_map_to_list. }
  assert (Hsame : ∀ x y, x ∈ entries → y ∈ entries →
                         trim x.1 = trim y.1 ∨ x.2 = y.2 → x = y).
  { intros [r1 c1] [r2 c2] H1 H2 Heq.
    apply (range_order_elem _ _ _ _ Hord) in H1, H2.
    destruct (decide (r1 = r2)) as [-> | Hne]; [congruence |].
    exfalso. apply Hnd. right. by exists r1, c1, r2, c2. }
  split; [| split].
  - apply Forall_forall. intros [r c] Hin Hc. apply Hnd. left.
    exists r, c. split; [by apply (range_order_elem _ _ _ _ Hord) | done].
  - apply NoDup_fmap_2_strong; [| done]. intros x y Hx Hy Heq. apply Hsame; auto.
  - apply NoDup_fmap_2_strong; [| done]. intros x y Hx Hy Heq. apply Hsame; auto.
Qed.

(** X2.  [SetDictionary] returns nil exactly for the maps without duplicate,
    in whatever order the entries are visited. *)
Theorem SetDictionary_succeeds_iff dict entries st :
  range_order dict entries →
  (SetDictionary trim (Some dict) entries st).2 = None
  ↔ ¬ has_duplicate trim dict st.
Proof.
  intros Hord. unfold SetDictionary. split.
  - intros Hok Hdup.
    destruct (range_duplicate_fails trim _ _ _ Hord Hdup) as (r & c & Herr).
    congruence.
  - intros Hnd.
    destruct (no_duplicate_entries _ _ _ Hord Hnd) as (Hf & Hr & Hc).
    by rewrite range_free_succeeds.
Qed.

(** X3.  When [SetDictionary] returns nil, every entry of the map can be looked
    up afterwards, route to code and code to route, every mapping of the
    new dictionary was there before or is an entry of the map, and the new
    dictionary is the same for every order of visiting the entries. *)
Theorem SetDictionary_success_installs dict entries st st' :
  range_order dict entries →
  SetDictionary trim (Some dict) entries st = (st', None) →
  installed trim dict st st'
  ∧ extends st st'
  ∧ ∀ entries', range_order dict entries' →
      SetDictionary trim (Some dict) entries' st = (st', None).
Proof.
  intros Hord Hrun. unfold SetDictionary in *.
  destruct (range_success trim _ _ _ Hrun) as (Hf & Hr & Hc).
  rewrite range_free_succeeds in Hrun by done. injection Hrun as <-.
  split; [| split].
  - split; [| split].
    + intros r c Hl. apply (range_order_elem _ _ _ _ Hord) in Hl.
      apply (foldl_install_lookup trim entries st (r, c) Hr Hc Hl).
    + intros r c Hl.
      destruct (proj1 (foldl_install_origin entries st) r c Hl)
        as [? | ([r0 c0] & Hin & <- & <-)]; [by left |].
      right. exists r0. by apply (range_order_elem _ _ _ _ Hord) in Hin.
    + intros c r Hl.
      destruct (proj2 (foldl_install_origin entries st) c r Hl)
        as [? | ([r0 c0] & Hin & <- & <-)]; [by left |].
      right. exists r0. by apply (range_order_elem _ _ _ _ Hord) in Hin.
  - pose proof (range_extends trim entries st) as He.
    by rewrite range_free_succeeds in He.
  - intros entries' Hord'.
    assert (Hp : entries ≡ₚ entries').
    { unfold range_order in *. by rewrite Hord, Hord'. }
    rewrite range_free_succeeds.
    + f_equal. symmetry. by apply foldl_install_perm.
    + by rewrite <- Hp.
    + by rewrite <- Hp.
    + by rewrite <- Hp.
Qed.

Lemma install_consistent st e :
  consistent st → ¬ collides trim st e → consistent (install trim st e).
Proof.
  intros Hcons Hfree r c. unfold install. simpl.
  assert (Hr : routes st !! trim e.1 = None).
  { apply eq_None_not_Some. intros H. apply Hfree. by left. }
  assert (Hc : codes st !! e.2 = None).
  { apply eq_None_not_Some. intros H. apply Hfree. by right. }
  destruct (decide (trim e.1 = r)) as [<- | Hner];
    destruct (decide (e.2 = c)) as [<- | Hnec].
  - by rewrite !lookup_insert_eq.
  - rewrite lookup_insert_eq, lookup_insert_ne by done. split.
    + intros [= ?]. done.
    + intros H. apply Hcons in H. congruence.
  - rewrite lookup_insert_ne, lookup_insert_eq by done. split.
    + intros H. apply Hcons in H. congruence.
    + intros [= ?]. done.
  - rewrite !lookup_insert_ne by done. apply Hcons.
Qed.

(** X4.  [SetDictionary] keeps the two maps each other's inverse, whether it
    returns an error or not. *)
Theorem SetDictionary_keeps_consistent dict entries st :
  consistent st → consistent (SetDictionary trim dict entries st).1.
Proof.
  unfold SetDictionary. destruct dict as [d |]; [| done]. clear d.
  revert st. induction entries as [| e rest IH]; intros st Hcons; [done |].
  destruct (collides_dec trim st e) as [Hc | Hc].
  - by rewrite range_cons_collides.
  - rewrite range_cons_free by done. apply IH. by apply install_consistent.
Qed.

(** X5.  Installing a non-empty map a second time returns the duplication
    error and leaves the dictionary as the first call left it. *)
Theorem SetDictionary_again_fails dict entries entries' st st' :
  dict ≠ ∅ →
  range_order dict entries → range_order dict entries' →
  SetDictionary trim (Some dict) entries st = (st', None) →
  ∃ r c, SetDictionary trim (Some dict) entries' st'
         = (st', Some (ErrDuplicatedRoute r c)).
Proof.
  intros Hne Hord Hord' Hrun. unfold SetDictionary in *.
  destruct (range_success trim _ _ _ Hrun) as (Hf & Hr & Hc).
  rewrite range_free_succeeds in Hrun by done. injection Hrun as <-.
  destruct entries' as [| [r c] rest].
  { exfalso. apply Hne. apply map_to_list_empty_iff.
    unfold range_order in Hord'. symmetry in Hord'.
    by apply Permutation_nil_r in Hord'. }
  exists (trim r), c.
  assert (Hin : (r, c) ∈ entries).
  { apply (range_order_elem _ _ _ _ Hord). apply (range_order_elem _ _ _ _ Hord').
    apply elem_of_cons. by left. }
  apply (range_cons_collides trim (r, c)). left. simpl.
  destruct (foldl_install_lookup trim entries st (r, c) Hr Hc Hin) as [Hl _].
  simpl in Hl. rewrite Hl. eauto.
Qed.

End DictionaryFacts.

Lemma SetDictionary_succeeds_iff_witness :
  (message.SetDictionary message.TrimSpace (Some {[ "Room.Join" := 7%N; " Room.Leave" := 8%N ]})
     (map_to_list ({[ "Room.Join" := 7%N; " Room.Leave" := 8%N ]} : gmap string N))
     message.emptyDictionary).2 = None
  ↔ ¬ message.has_duplicate message.TrimSpace
        {[ "Room.Join" := 7%N; " Room.Leave" := 8%N ]} message.emptyDictionary.
Proof.
  apply (SetDictionary_succeeds_iff message.TrimSpace).
  unfold message.range_order. reflexivity.
Defined.

Lemma SetDictionary_success_installs_witness :
  let dict : gmap string N := {[ "Room.Join" := 7%N; " Room.Leave" := 8%N ]} in
  let st' := message.mkDictionary {[ "Room.Join" := 7%N; "Room.Leave" := 8%N ]}
                                  {[ 7%N := "Room.Join"; 8%N := "Room.Leave" ]} in
  dictionary.installed message.TrimSpace dict message.emptyDictionary st'
  ∧ message.SetDictionary message.TrimSpace (Some dict)
      [(" Room.Leave", 8%N); ("Room.Join", 7%N)] message.emptyDictionary
    = (st', None).
Proof.
  intros dict st'.
  destruct (SetDictionary_success_installs message.TrimSpace dict
              (map_to_list dict) message.emptyDictionary st') as (Hi & _ & Ho).
  - unfold message.range_order. reflexivity.
  - vm_compute. reflexivity.
  - split; [exact Hi |]. apply Ho. unfold message.range_order.
    vm_compute. apply Permutation_swap.
Defined.

Lemma SetDictionary_keeps_consistent_witness :
  dictionary.consistent
    (message.SetDictionary message.TrimSpace (Some {[ "a" := 1%N; "b" := 1%N ]})
       [("a", 1%N); ("b", 1%N)] message.emptyDictionary).1.
Proof.
  apply (SetDictionary_keeps_consistent message.TrimSpace).
  intros r c. unfold message.emptyDictionary. simpl. by rewrite !lookup_empty.
Defined.

Lemma SetDictionary_again_fails_witness :
  let dict : gmap string N := {[ "Room.Join" := 7%N ]} in
  ∃ r c,
    message.SetDictionary message.TrimSpace (Some dict) [("Room.Join", 7%N)]
      (message.mkDictionary {[ "Room.Join" := 7%N ]} {[ 7%N := "Room.Join" ]})
    = (message.mkDictionary {[ "Room.Join" := 7%N ]} {[ 7%N := "Room.Join" ]},
       Some (ErrDuplicatedRoute r c)).
Proof.
  intros dict.
  apply (SetDictionary_again_fails message.TrimSpace dict [("Room.Join", 7%N)]
           [("Room.Join", 7%N)] message.emptyDictionary).
  - intros H. apply (f_equal (λ m, m !! "Room.Join")) in H. vm_compute in H.
    discriminate H.
  - unfold message.range_order. vm_compute. reflexivity.
  - unfold message.range_order. vm_compute. reflexivity.
  - vm_compute. reflexivity.
Defined.

(** ** Kind validation, continued *)
Section ValidateOutcomes.
Import message component.
Context {RValue RMethod RType : Type}.

(** X6.  The kind check returns a nil error exactly when the kinds match or the
    incoming kind is neither Request nor Notify; it tells the caller to exit
    exactly for a Request sent to a handler of another kind; and it returns
    [ErrNotifyOnRequest] exactly for a Notify sent to a handler of another
    kind. *)
Theorem ValidateMessageType_outcomes (h : Handler RValue RMethod RType) (t : N) :
  ((ValidateMessageType h t).2 = None
   ↔ MessageType h = t ∨ (t ≠ Request ∧ t ≠ Notify))
  ∧ ((ValidateMessageType h t).1 = true ↔ t = Request ∧ MessageType h ≠ Request)
  ∧ ((ValidateMessageType h t).2 = Some ErrRequestOnNotify
     ↔ t = Request ∧ MessageType h ≠ Request)
  ∧ ((ValidateMessageType h t).2 = Some ErrNotifyOnRequest
     ↔ t = Notify ∧ MessageType h ≠ Notify).
Proof.
  unfold ValidateMessageType, Request, Notify.
  destruct (decide (MessageType h ≠ t)) as [Hne | Heq].
  - destruct (decide (t = 0%N)) as [-> | H0];
      [| destruct (decide (t = 1%N)) as [-> | H1]]; simpl;
      repeat split; intros; try done; try lia; intuition (try done; try lia).
  - apply dec_stable in Heq. simpl.
    repeat split; intros; try done; try (by left); intuition (try done; try lia).
Qed.

End ValidateOutcomes.

(** ** Service extraction *)
Section RegistryFacts.
Import registry.
Context {Component RValue RMethod RType NameFunc : Type}.
Context (F : Reflection Component RValue RMethod RType NameFunc).
Implicit Type s : Service RValue RMethod RType NameFunc.

(** X7.  [ExtractHandler] returns nil exactly when the receiver's type has a
    name, the name is exported and the scan finds a handler.  The service
    then has the routes the scan found, each handler as found but bound to
    the service's receiver, and is otherwise unchanged. *)
Theorem ExtractHandler_success s :
  let found := suitableHandlerMethods F (Type_ s) (nameFunc (Options s)) in
  let out := ExtractHandler F s in
  (out.2 = None
   ↔ indirectTypeName F (Receiver s) ≠ ""
     ∧ isExported F (indirectTypeName F (Receiver s)) = true
     ∧ found ≠ ∅)
  ∧ (out.2 = None →
       Handlers out.1 ≠ ∅
       ∧ (∀ k, Handlers out.1 !! k = bindHandler (Receiver s) <$> found !! k)
       ∧ (∀ k h, Handlers out.1 !! k = Some h → component.Receiver h = Receiver s)
       ∧ Name out.1 = Name s ∧ Type_ out.1 = Type_ s ∧ Receiver out.1 = Receiver s
       ∧ Remotes out.1 = Remotes s ∧ Options out.1 = Options s).
Proof.
  intros found out. subst found out. unfold ExtractHandler.
  destruct (decide (indirectTypeName F (Receiver s) = "")) as [He | He].
  { split; [split; [done | by intros (? & _)] | done]. }
  destruct (isExported F (indirectTypeName F (Receiver s))) eqn:Hx; simpl.
  2: { split; [split; [done | by intros (_ & ? & _)] | done]. }
  destruct (decide (size (suitableHandlerMethods F (Type_ s) (nameFunc (Options s))) = 0))
    as [Hz | Hz].
  { apply map_size_empty_iff in Hz.
    case_decide; (split; [split; [done | by intros (_ & _ & ?)] | done]). }
  assert (Hne : suitableHandlerMethods F (Type_ s) (nameFunc (Options s)) ≠ ∅).
  { intros H. apply Hz. by apply map_size_empty_iff. }
  simpl. split; [done |]. intros _. repeat split.
  - intros H. apply fmap_empty_inv in H. done.
  - intros k. by rewrite lookup_fmap.
  - intros k h. rewrite lookup_fmap. intros (h0 & _ & ->)%fmap_Some. done.
Qed.

(** X8.  [ExtractRemote], likewise. *)
Theorem ExtractRemote_success s :
  let found := suitableRemoteMethods F (Type_ s) (nameFunc (Options s)) in
  let out := ExtractRemote F s in
  (out.2 = None
   ↔ indirectTypeName F (Receiver s) ≠ ""
     ∧ isExported F (indirectTypeName F (Receiver s)) = true
     ∧ found ≠ ∅)
  ∧ (out.2 = None →
       Remotes out.1 ≠ ∅
       ∧ (∀ k, Remotes out.1 !! k = bindRemote (Receiver s) <$> found !! k)
       ∧ (∀ k m, Remotes out.1 !! k = Some m → RemoteReceiver m = Receiver s)
       ∧ Name out.1 = Name s ∧ Type_ out.1 = Type_ s ∧ Receiver out.1 = Receiver s
       ∧ Handlers out.1 = Handlers s ∧ Options out.1 = Options s).
Proof.
  intros found out. subst found out. unfold ExtractRemote.
  destruct (decide (indirectTypeName F (Receiver s) = "")) as [He | He].
  { split; [split; [done | by intros (? & _)] | done]. }
  destruct (isExported F (indirectTypeName F (Receiver s))) eqn:Hx; simpl.
  2: { split; [split; [done | by intros (_ & ? & _)] | done]. }
  destruct (decide (size (suitableRemoteMethods F (Type_ s) (nameFunc (Options s))) = 0))
    as [Hz | Hz].
  { apply map_size_empty_iff in Hz.
    case_decide; (split; [split; [done | by intros (_ & _ & ?)] | done]). }
  assert (Hne : suitableRemoteMethods F (Type_ s) (nameFunc (Options s)) ≠ ∅).
  { intros H. apply Hz. by apply map_size_empty_iff. }
  simpl. split; [done |]. intros _. repeat split.
  - intros H. apply fmap_empty_inv in H. done.
  - intros k. by rewrite lookup_fmap.
  - intros k m. rewrite lookup_fmap. intros (m0 & _ & ->)%fmap_Some. done.
Qed.

(** X9.  For a receiver of a named, exported type on which the scan finds
    nothing, both extractions fail, leave the table empty, and end their
    message with the pointer hint exactly when the scan of the pointer type
    finds something. *)
Theorem Extract_no_methods_hint s :
  indirectTypeName F (Receiver s) ≠ "" →
  isExported F (indirectTypeName F (Receiver s)) = true →
  (suitableHandlerMethods F (Type_ s) (nameFunc (Options s)) = ∅ →
     Handlers (ExtractHandler F s).1 = ∅
     ∧ (ExtractHandler F s).2
       = Some (if decide (suitableHandlerMethods F (PtrTo F (Type_ s))
                            (nameFunc (Options s)) = ∅)
               then "type " +:+ Name s +:+ " has no exported methods of handler type"
               else "type " +:+ Name s +:+ " has no exported methods of handler type"
                    +:+ hint))
  ∧ (suitableRemoteMethods F (Type_ s) (nameFunc (Options s)) = ∅ →
     Remotes (ExtractRemote F s).1 = ∅
     ∧ (ExtractRemote F s).2
       = Some (if decide (suitableRemoteMethods F (PtrTo F (Type_ s))
                            (nameFunc (Options s)) = ∅)
               then "type " +:+ Name s +:+ " has no exported methods of remote type"
               else "type " +:+ Name s +:+ " has no exported methods of remote type"
                    +:+ hint)).
Proof.
  intros He Hx. split; intros Hnone.
  - unfold ExtractHandler. rewrite decide_False by done. rewrite Hx, Hnone. simpl.
    rewrite decide_True by apply map_size_empty. simpl.
    destruct (decide (suitableHandlerMethods F (PtrTo F (Type_ s)) _ = ∅)) as [Hp | Hp].
    + rewrite Hp. by rewrite decide_False by (rewrite map_size_empty; lia).
    + rewrite decide_True; [done |]. intros H. by apply map_size_empty_iff in H.
  - unfold ExtractRemote. rewrite decide_False by done. rewrite Hx, Hnone. simpl.
    rewrite decide_True by apply map_size_empty. simpl.
    destruct (decide (suitableRemoteMethods F (PtrTo F (Type_ s)) _ = ∅)) as [Hp | Hp].
    + rewrite Hp. by rewrite decide_False by (rewrite map_size_empty; lia).
    + rewrite decide_True; [done |]. intros H. by apply map_size_empty_iff in H.
Qed.

End RegistryFacts.

(** ** The dispatch pipeline, continued *)
Section PipelineFacts.
Import message component service pipeline.
Context (R : Runtime).
Implicit Type g : Globals R.
Implicit Type h : Handler (RValue R) (RMethod R) (RType R).

Lemma none_of_nil p : none_of R p [].
Proof. constructor. Qed.

Lemma none_of_app p tr1 tr2 :
  none_of R p tr1 → none_of R p tr2 → none_of R p (tr1 ++ tr2).
Proof. apply Forall_app_2. Qed.

Lemma none_of_cons p e tr :
  p e = false → none_of R p tr → none_of R p (e :: tr).
Proof. by constructor. Qed.

Lemma mismatchLog_none p h t :
  (∀ e, p (LogInvalidMessageType e) = false) → none_of R p (mismatchLog R h t).
Proof.
  intros Hp. unfold mismatchLog. destruct (ValidateMessageType h t).2.
  - by apply none_of_cons; [| apply none_of_nil].
  - apply none_of_nil.
Qed.

Lemma beforeLoop_none p ctx hs i arg :
  (∀ j c a, p (CallBefore j c a) = false) →
  (∀ e, p (LogBrokenPipeline e) = false) →
  none_of R p (trace_of (beforeLoop R ctx hs i arg)).
Proof.
  intros Hb Hl. revert i arg. induction hs as [| hk hs IH]; intros i arg.
  - apply none_of_nil.
  - destruct (hk ctx arg) as [res' [e |]] eqn:Hk.
    + rewrite (beforeLoop_cons_err _ _ _ _ _ _ _ _ Hk), trace_pair.
      by repeat (apply none_of_cons; [done |]); apply none_of_nil.
    + rewrite (beforeLoop_cons_ok _ _ _ _ _ _ _ Hk), trace_pair.
      by apply none_of_cons.
Qed.

Lemma afterLoop_none p ctx hs i ret err :
  (∀ j c r e, p (CallAfter j c r e) = false) →
  none_of R p (trace_of (afterLoop R ctx hs i ret err)).
Proof.
  intros Ha. revert i ret err. induction hs as [| hk hs IH]; intros i ret err.
  - apply none_of_nil.
  - rewrite afterLoop_cons, trace_pair. by apply none_of_cons.
Qed.

Lemma serializeReturn_none p ser v :
  (∀ e, p (LogSerializeFailed e) = false) →
  (∀ e, p (LogCannotRespond e) = false) →
  none_of R p (trace_of (serializeReturn R ser v)).
Proof.
  intros H1 H2. unfold serializeReturn.
  destruct (SerializeOrRaw R ser v) as [res [e |]]; [| apply none_of_nil].
  destruct (GetErrorPayload R ser e) as [res' [e' |]]; simpl;
    repeat (apply none_of_cons; [done |]); apply none_of_nil.
Qed.

(** A run of pre-hooks without error ends with the argument the hooks
    have made, one after the other, of the one it started with. *)
Lemma beforeLoop_success_value ctx hs i arg arg' :
  value_of (beforeLoop R ctx hs i arg) = (arg', None) →
  arg' = beforeChain R ctx hs arg.
Proof.
  revert i arg. induction hs as [| hk hs IH]; intros i arg Hv.
  - by injection Hv as <-.
  - destruct (hk ctx arg) as [res' [e |]] eqn:Hk.
    + by rewrite (beforeLoop_cons_err _ _ _ _ _ _ _ _ Hk) in Hv.
    + rewrite (beforeLoop_cons_ok _ _ _ _ _ _ _ Hk), value_pair in Hv.
      rewrite (IH _ _ Hv). unfold beforeChain. simpl. by rewrite Hk.
Qed.

(** Every way the later stages end with an error ends with a nil payload. *)
Lemma invokeAndRespond_error_payload g ctx h ser t remote arg e :
  (value_of (invokeAndRespond R g ctx h ser t remote arg)).2 = Some e →
  (value_of (invokeAndRespond R g ctx h ser t remote arg)).1 = [].
Proof.
  rewrite invokeAndRespond_value.
  destruct (afterChain R ctx (AfterHandlers g) _).2; [done |].
  by destruct (value_of (serializeReturn R ser _)) as [ret [e' |]].
Qed.

Lemma decodeAndRun_error_payload g ctx h ser sess data t remote e :
  (value_of (decodeAndRun R g ctx h ser sess data t remote)).2 = Some e →
  (value_of (decodeAndRun R g ctx h ser sess data t remote)).1 = [].
Proof.
  destruct (unmarshalHandlerArg R h ser data) as [arg0 [e0 |]] eqn:Hu.
  { unfold decodeAndRun. by rewrite Hu. }
  destruct (value_of (executeBeforePipeline R g ctx arg0)) as [arg [e1 |]] eqn:Hb.
  - by rewrite (decodeAndRun_hook_error _ _ _ _ _ _ _ _ _ _ _ _ Hu Hb).
  - rewrite (decodeAndRun_reaches _ _ _ _ _ _ _ _ _ _ _ Hu Hb), value_pair.
    apply invokeAndRespond_error_payload.
Qed.

(** The three outcomes of the stages before the handler call. *)
Lemma process_cases g ctx rt ser sess data m remote :
  let out := processHandlerMessage R g ctx rt ser sess data m remote in
  let ctx' := dispatchCtx R ctx rt sess in
  (trace_of out = [] ∧ ∃ e, value_of out = ([], Some e))
  ∨ (∃ h t, getHandler R g rt = inl h ∧ getMsgType R m = (t, None)
            ∧ (ValidateMessageType h t).1 = false
            ∧ out = (mismatchLog R h t
                       ++ trace_of (decodeAndRun R g ctx' h ser sess data t remote),
                     value_of (decodeAndRun R g ctx' h ser sess data t remote))).
Proof.
  intros out ctx'. subst out ctx'.
  destruct (getHandler R g rt) as [h | e] eqn:Hh.
  2: { left. unfold processHandlerMessage. rewrite Hh. split; [done | by eexists]. }
  destruct (getMsgType R m) as [t [e |]] eqn:Hm.
  { left. unfold processHandlerMessage. rewrite Hh, Hm. split; [done | by eexists]. }
  destruct (ValidateMessageType h t).1 eqn:Hv.
  - left. rewrite (process_refused _ _ _ _ _ _ _ _ _ _ _ Hh Hm Hv).
    split; [done | by eexists].
  - right. exists h, t. repeat split; try done.
    apply (process_not_refused _ _ _ _ _ _ _ _ _ _ _ Hh Hm Hv).
Qed.

(** X10.  A route that is not in the handler table makes the dispatch return the
    not-found error, wrapped with the not-found code, whatever the message;
    no hook and no handler is called and nothing is logged. *)
Theorem dispatch_missing_route g ctx rt ser sess data m remote :
  handlers g !! RouteShort R rt = None →
  processHandlerMessage R g ctx rt ser sess data m remote
  = ([], ([], Some (NewError R (ErrHandlerNotFound (RouteString R rt))
                      (ErrNotFoundCode R)))).
Proof.
  intros Hnone. unfold processHandlerMessage, getHandler. by rewrite Hnone.
Qed.

(** X11.  For a registered route: a message kind that is neither a
    [message.Type] nor a [protos.MsgType] gives [errInvalidMsg] wrapped with
    the internal code and nothing is called; a payload that does not decode
    gives the decoder's error wrapped with the bad-request code, and neither
    a pre-hook nor the handler is called. *)
Theorem dispatch_bad_input g ctx rt ser sess data remote h :
  getHandler R g rt = inl h →
  processHandlerMessage R g ctx rt ser sess data IsOther remote
  = ([], ([], Some (NewError R errInvalidMsg (ErrInternalCode R))))
  ∧ ∀ m t arg e,
      getMsgType R m = (t, None) →
      (ValidateMessageType h t).1 = false →
      unmarshalHandlerArg R h ser data = (arg, Some e) →
      processHandlerMessage R g ctx rt ser sess data m remote
      = (mismatchLog R h t, ([], Some (NewError R e (ErrBadRequestCode R)))).
Proof.
  intros Hh. split.
  - unfold processHandlerMessage. by rewrite Hh.
  - intros m t arg e Hm Hv Hu.
    rewrite (process_not_refused _ _ _ _ _ _ _ _ _ _ _ Hh Hm Hv).
    unfold decodeAndRun. rewrite Hu. by rewrite trace_ret, value_ret, app_nil_r.
Qed.

(** X12.  Whenever the dispatch returns an error, the payload it returns is nil. *)
Theorem dispatch_error_has_no_payload g ctx rt ser sess data m remote :
  is_Some (value_of (processHandlerMessage R g ctx rt ser sess data m remote)).2 →
  (value_of (processHandlerMessage R g ctx rt ser sess data m remote)).1 = [].
Proof.
  intros [e He].
  destruct (process_cases g ctx rt ser sess data m remote)
    as [[_ [e' Hv]] | (h & t & _ & _ & _ & Heq)].
  - by rewrite Hv.
  - rewrite Heq, value_pair in He |- *.
    by eapply decodeAndRun_error_payload.
Qed.

Lemma invokeAndRespond_shape g ctx h ser t remote arg :
  ∃ post,
    trace_of (invokeAndRespond R g ctx h ser t remote arg)
    = CallHandler (Method h) (handlerArgs R h ctx arg) :: post
    ∧ none_of R (is_handler R) post ∧ none_of R (is_before R) post.
Proof.
  rewrite invokeAndRespond_trace. eexists. split; [done |].
  split; (apply none_of_app; [by apply afterLoop_none |]);
    (destruct (afterChain R ctx (AfterHandlers g) _).2;
      [apply none_of_nil | by apply serializeReturn_none]).
Qed.

(** The part of the trace up to the handler call, when it is reached. *)
Lemma process_reaches_shape g ctx rt ser sess data m remote h t arg :
  reaches_handler R g ctx rt ser sess data m h t arg →
  ∃ pre post,
    trace_of (processHandlerMessage R g ctx rt ser sess data m remote)
    = pre ++ CallHandler (Method h)
               (handlerArgs R h (dispatchCtx R ctx rt sess) arg) :: post
    ∧ none_of R (is_handler R) pre ∧ none_of R (is_after R) pre
    ∧ none_of R (is_handler R) post ∧ none_of R (is_before R) post.
Proof.
  intros (Hh & Hm & Hv & arg0 & Hu & Hb).
  rewrite (process_not_refused _ _ _ _ _ _ _ _ _ _ _ Hh Hm Hv).
  rewrite (decodeAndRun_reaches _ _ _ _ _ _ _ _ _ _ _ Hu Hb).
  rewrite !trace_pair.
  destruct (invokeAndRespond_shape g (dispatchCtx R ctx rt sess) h ser t remote arg)
    as (post & -> & Hp1 & Hp2).
  exists (mismatchLog R h t
            ++ trace_of (executeBeforePipeline R g (dispatchCtx R ctx rt sess) arg0)
            ++ [LogData (SessionID R sess) data]), post.
  split; [by rewrite <- !app_assoc |].
  repeat split; try done;
    (apply none_of_app; [by apply mismatchLog_none |]);
    (apply none_of_app; [by apply beforeLoop_none |]);
    (by apply none_of_cons; [| apply none_of_nil]).
Qed.

(** X13.  In every dispatch the handler is called at most once; if it is not
    called, no post-hook is called either; if it is, every pre-hook call
    comes before the handler call and every post-hook call after it. *)
Theorem dispatch_trace_shape g ctx rt ser sess data m remote :
  let tr := trace_of (processHandlerMessage R g ctx rt ser sess data m remote) in
  stopped_early R tr ∨ called_once R tr.
Proof.
  intros tr. subst tr.
  destruct (process_cases g ctx rt ser sess data m remote)
    as [[-> _] | (h & t & Hh & Hm & Hv & Heq)].
  { left. split; apply none_of_nil. }
  destruct (unmarshalHandlerArg R h ser data) as [arg0 [e0 |]] eqn:Hu.
  { left. rewrite Heq, trace_pair. unfold decodeAndRun. rewrite Hu, trace_ret, app_nil_r.
    split; by apply mismatchLog_none. }
  destruct (value_of (executeBeforePipeline R g (dispatchCtx R ctx rt sess) arg0))
    as [arg [e1 |]] eqn:Hb.
  - left. rewrite Heq, trace_pair.
    rewrite (decodeAndRun_hook_error _ _ _ _ _ _ _ _ _ _ _ _ Hu Hb), trace_pair.
    split; (apply none_of_app; [by apply mismatchLog_none | by apply beforeLoop_none]).
  - right.
    destruct (process_reaches_shape g ctx rt ser sess data m remote h t arg)
      as (pre & post & Htr & H1 & H2 & H3 & H4).
    { split; [done |]. split; [done |]. split; [done |]. by exists arg0. }
    by exists pre, (Method h), (handlerArgs R h (dispatchCtx R ctx rt sess) arg), post.
Qed.

Lemma filter_none_of p tr : none_of R p tr → List.filter p tr = [].
Proof.
  induction 1 as [| e tr He _ IH]; [done |]. simpl. by rewrite He.
Qed.

(** X14.  When the dispatch reaches the handler, the handler is called exactly
    once, with the receiver, the dispatch context and, unless it is nil, the
    argument that the pre-hooks have made of the decoded payload. *)
Theorem handler_called_once_with_hooked_argument g ctx rt ser sess data m remote h t arg :
  reaches_handler R g ctx rt ser sess data m h t arg →
  let ctx' := dispatchCtx R ctx rt sess in
  List.filter (is_handler R)
    (trace_of (processHandlerMessage R g ctx rt ser sess data m remote))
  = [CallHandler (Method h)
       ([RVReceiver (Receiver h); RVCtx ctx']
          ++ match arg with INil => [] | _ => [RVArg arg] end)]
  ∧ ∃ arg0, unmarshalHandlerArg R h ser data = (arg0, None)
            ∧ arg = beforeChain R ctx' (BeforeHandlers g) arg0.
Proof.
  intros Hreach ctx'. subst ctx'. split.
  - destruct (process_reaches_shape g ctx rt ser sess data m remote h t arg Hreach)
      as (pre & post & -> & H1 & _ & H3 & _).
    rewrite List.filter_app. simpl.
    by rewrite (filter_none_of _ _ H1), (filter_none_of _ _ H3).
  - destruct Hreach as (_ & _ & _ & arg0 & Hu & Hb).
    exists arg0. split; [done |]. by eapply beforeLoop_success_value.
Qed.

(** X15.  With no post-hooks, a dispatch that reaches the handler returns the
    handler's error as it is, also for a remote Notify; and when the handler
    returns raw bytes and a nil error, it returns those bytes, unless the
    message is a remote Notify. *)
Theorem dispatch_without_post_hooks g ctx rt ser sess data m remote h t arg :
  reaches_handler R g ctx rt ser sess data m h t arg →
  AfterHandlers g = [] →
  let out := processHandlerMessage R g ctx rt ser sess data m remote in
  let ret := Pcall g (Method h) (handlerArgs R h (dispatchCtx R ctx rt sess) arg) in
  (∀ e, ret.2 = Some e → value_of out = ([], Some e))
  ∧ (∀ b, ret = (IBytes b, None) → remote && bool_decide (t = Notify) = false →
       value_of out = (b, None)).
Proof.
  intros Hreach Hnil out ret. subst out ret.
  destruct (process_reaches _ _ _ _ _ _ _ _ remote _ _ _ Hreach)
    as (before & _ & _ & ->).
  rewrite value_pair, invokeAndRespond_value, Hnil. unfold afterChain. simpl.
  split.
  - intros e ->. done.
  - intros b -> Hno. unfold respBeforeHooks. by rewrite Hno.
Qed.

(** X16.  When the result left by the post-hooks cannot be serialized, the
    dispatch returns the error payload built from the serializer's error,
    with a nil error; only when that payload cannot be built either does it
    return an error, the second one. *)
Theorem dispatch_serialization_failure g ctx rt ser sess data m remote h t arg resp e :
  reaches_handler R g ctx rt ser sess data m h t arg →
  let ctx' := dispatchCtx R ctx rt sess in
  let ret := Pcall g (Method h) (handlerArgs R h ctx' arg) in
  afterChain R ctx' (AfterHandlers g) (respBeforeHooks R remote t ret, ret.2)
  = (resp, None) →
  (SerializeOrRaw R ser resp).2 = Some e →
  let out := processHandlerMessage R g ctx rt ser sess data m remote in
  let payload := GetErrorPayload R ser e in
  (payload.2 = None → value_of out = (payload.1, None))
  ∧ (∀ e', payload.2 = Some e' → value_of out = ([], Some e')).
Proof.
  intros Hreach ctx' ret Hchain Hs out payload. subst ctx' ret out payload.
  destruct (process_reaches _ _ _ _ _ _ _ _ remote _ _ _ Hreach)
    as (before & _ & _ & ->).
  rewrite value_pair, invokeAndRespond_value, Hchain. cbn [fst snd].
  unfold serializeReturn.
  destruct (SerializeOrRaw R ser resp) as [res oe]. simpl in Hs. subst oe.
  rewrite value_bind.
  destruct (GetErrorPayload R ser e) as [p [e' |]]; simpl.
  - split; [done |]. by intros ? [= <-].
  - split; [done |]. done.
Qed.

(** X17.  Without pre-hooks, a handler that takes raw bytes is called with the
    payload as it came, whatever the serializer; a handler that takes no
    argument is called with the receiver and the context only, and the
    payload is not decoded. *)
Theorem handler_argument_by_kind g ctx rt ser sess data m remote h t :
  getHandler R g rt = inl h →
  getMsgType R m = (t, None) →
  (ValidateMessageType h t).1 = false →
  BeforeHandlers g = [] →
  let ctx' := dispatchCtx R ctx rt sess in
  let calls := List.filter (is_handler R)
                 (trace_of (processHandlerMessage R g ctx rt ser sess data m remote)) in
  (IsRawArg h = true →
     calls = [CallHandler (Method h)
                [RVReceiver (Receiver h); RVCtx ctx'; RVArg (IBytes data)]])
  ∧ (IsRawArg h = false → component.Type_ h = None →
     calls = [CallHandler (Method h) [RVReceiver (Receiver h); RVCtx ctx']]).
Proof.
  intros Hh Hm Hv Hnil ctx' calls. subst ctx' calls.
  assert (Hshape : ∀ arg, unmarshalHandlerArg R h ser data = (arg, None) →
            List.filter (is_handler R)
              (trace_of (processHandlerMessage R g ctx rt ser sess data m remote))
            = [CallHandler (Method h)
                 (handlerArgs R h (dispatchCtx R ctx rt sess) arg)]).
  { intros arg Hu.
    destruct (process_reaches_shape g ctx rt ser sess data m remote h t arg)
      as (pre & post & -> & H1 & _ & H3 & _).
    { split; [done |]. split; [done |]. split; [done |]. exists arg.
      split; [done |]. unfold executeBeforePipeline. by rewrite Hnil. }
    rewrite List.filter_app. simpl.
    by rewrite (filter_none_of _ _ H1), (filter_none_of _ _ H3). }
  split.
  - intros Hraw. apply (Hshape (IBytes data)). unfold unmarshalHandlerArg.
    by rewrite Hraw.
  - intros Hraw Hty. apply (Hshape INil). unfold unmarshalHandlerArg.
    by rewrite Hraw, Hty.
Qed.

End PipelineFacts.

(** ** A Notify message for a Request handler *)
Section NotifyOnRequestFacts.
Import message component service pipeline.
Context (R : Runtime).
Implicit Type g : Globals R.
Implicit Type h : Handler (RValue R) (RMethod R) (RType R).

(** C3 (as amended).  A Notify message for a handler declared Request is
    not refused.  The kind check returns [ErrNotifyOnRequest] with
    [exitOnError = false], and the dispatch logs it first.  Whenever the
    payload decodes and the pre-hooks succeed, the handler is invoked,
    exactly once, with the receiver, the context and the argument the
    pre-hooks produced; the dispatch then returns what the post-hooks and
    the serializer make of the handler's own result (of "ack" when the
    dispatch is remote), an error only if the post-hooks end with one or
    serialization fails twice.  The calls and the response are those of the
    dispatch to the same handler declared Notify. *)
Theorem notify_for_request_handler_dispatches g ctx rt ser sess data m remote h :
  getHandler R g rt = inl h →
  MessageType h = Request →
  getMsgType R m = (Notify, None) →
  let ctx' := dispatchCtx R ctx rt sess in
  let out := processHandlerMessage R g ctx rt ser sess data m remote in
  ValidateMessageType h Notify = (false, Some ErrNotifyOnRequest)
  ∧ (∃ rest, trace_of out = LogInvalidMessageType ErrNotifyOnRequest :: rest)
  ∧ (∀ arg0 arg,
       unmarshalHandlerArg R h ser data = (arg0, None) →
       value_of (executeBeforePipeline R g ctx' arg0) = (arg, None) →
       let args := [RVReceiver (Receiver h); RVCtx ctx']
                     ++ match arg with INil => [] | _ => [RVArg arg] end in
       let ret := Pcall g (Method h) args in
       let final := afterChain R ctx' (AfterHandlers g)
                      (if remote then IBytes ack else ret.1, ret.2) in
       invoked R (trace_of out)
       ∧ List.filter (is_handler R) (trace_of out) = [CallHandler (Method h) args]
       ∧ (∀ e, final.2 = Some e → value_of out = ([], Some e))
       ∧ (final.2 = None →
            value_of out
            = match value_of (serializeReturn R ser final.1) with
              | (_, Some e) => ([], Some e)
              | (payload, None) => (payload, None)
              end))
  ∧ (let matching :=
       processHandlerMessage R
         (withHandler R g (RouteShort R rt) (withMessageType R h Notify))
         ctx rt ser sess data m remote in
     out = (LogInvalidMessageType ErrNotifyOnRequest :: trace_of matching,
            value_of matching)).
Proof.
  intros Hh Hk Hm ctx' out. subst ctx' out.
  assert (Hv : ValidateMessageType h Notify = (false, Some ErrNotifyOnRequest)).
  { apply Validate_notify. by rewrite Hk. }
  assert (Hnr : (ValidateMessageType h Notify).1 = false) by (by rewrite Hv).
  assert (Hlog : mismatchLog R h Notify = [LogInvalidMessageType ErrNotifyOnRequest]).
  { unfold mismatchLog. by rewrite Hv. }
  split; [done |]. split; [| split].
  - rewrite (process_not_refused _ _ _ _ _ _ _ _ _ _ _ Hh Hm Hnr), trace_pair, Hlog.
    by eexists.
  - intros arg0 arg Hu Hb args ret final. subst args ret final.
    assert (Hreach : reaches_handler R g ctx rt ser sess data m h Notify arg).
    { split; [done |]. split; [done |]. split; [done |]. by exists arg0. }
    destruct (process_reaches_shape R g ctx rt ser sess data m remote h Notify arg Hreach)
      as (pre & post & Htr & H1 & _ & H3 & _).
    destruct (process_reaches R g ctx rt ser sess data m remote h Notify arg Hreach)
      as (before & _ & _ & Hout).
    split; [| split; [| split]].
    + rewrite Htr. eexists _, _. apply elem_of_app. right.
      apply elem_of_cons. by left.
    + rewrite Htr, List.filter_app. simpl.
      by rewrite (filter_none_of R _ _ H1), (filter_none_of R _ _ H3).
    + intros e He. rewrite Hout, value_pair, invokeAndRespond_value.
      unfold respBeforeHooks, handlerArgs.
      rewrite bool_decide_eq_true_2, andb_true_r by done. by rewrite He.
    + intros He. rewrite Hout, value_pair, invokeAndRespond_value.
      unfold respBeforeHooks, handlerArgs.
      rewrite bool_decide_eq_true_2, andb_true_r by done. by rewrite He.
  - intros matching. subst matching.
    rewrite (process_matching R _ _ _ _ _ _ _ _ _ _ Hm).
    rewrite (process_not_refused _ _ _ _ _ _ _ _ _ _ _ Hh Hm Hnr).
    by rewrite Hlog.
Qed.

End NotifyOnRequestFacts.

Lemma notify_for_request_handler_dispatches_witness :
  let out := service.processHandlerMessage demo.runtime demo.plain None "Room.Join"
               tt tt demo.joinPayload (service.IsMessageType message.Notify) false in
  component.ValidateMessageType demo.joinHandler message.Notify
  = (false, Some ErrNotifyOnRequest)
  ∧ List.filter (pipeline.is_handler demo.runtime) (trace_of out)
    = [service.CallHandler ("Join" : service.RMethod demo.runtime)
         [service.RVReceiver ("Room" : service.RValue demo.runtime);
          service.RVCtx (tt : service.Ctx demo.runtime);
          service.RVArg (service.IObj "{name:A}"
                         : service.iface (service.Obj demo.runtime))]]
  ∧ value_of out = (list_byte_of_string "{ok:true}", None).
Proof.
  intros out.
  destruct (notify_for_request_handler_dispatches demo.runtime demo.plain None
              "Room.Join" tt tt demo.joinPayload
              (service.IsMessageType message.Notify) false demo.joinHandler
              eq_refl eq_refl eq_refl) as (Hv & _ & Hreach & _).
  destruct (Hreach (service.IObj "{name:A}") (service.IObj "{name:A}")
              eq_refl eq_refl) as (_ & Hf & _ & Hval).
  split; [exact Hv |]. split; [exact Hf | exact (Hval eq_refl)].
Defined.

(** ** The gRPC peer client, continued *)
Section PoolFacts.
Import cluster membership.
Context (Net : Network).
Implicit Type gs : GRPCClient Net.
Implicit Type c : grpcClient.

Lemma ensureConnected_connected c :
  connected c = true → ensureConnected Net c = ([], (c, None)).
Proof. intros H. unfold ensureConnected. by rewrite H. Qed.

Lemma ensureConnected_dial_ok c :
  connected c = false → Dial Net (address c) = None →
  ensureConnected Net c
  = ([DialPeer (address c)], (mkGrpcClient (address c) true, None)).
Proof. intros H Hd. unfold ensureConnected, connect. by rewrite H, Hd. Qed.

Lemma ensureConnected_dial_fails c e :
  connected c = false → Dial Net (address c) = Some e →
  ensureConnected Net c = ([DialPeer (address c)], (c, Some e)).
Proof. intros H Hd. unfold ensureConnected, connect. by rewrite H, Hd. Qed.

(** After [ensureConnected] without error the client is connected, at the
    same address; with an error it is as before. *)
Lemma ensureConnected_value c :
  let out := value_of (ensureConnected Net c) in
  client_step c out.1
  ∧ (out.2 = None → connected out.1 = true)
  ∧ (is_Some out.2 → out.1 = c).
Proof.
  unfold client_step. destruct (connected c) eqn:Hc.
  - rewrite (ensureConnected_connected _ Hc). simpl.
    split; [done |]. split; [done |]. done.
  - destruct (Dial Net (address c)) as [e |] eqn:Hd.
    + rewrite (ensureConnected_dial_fails _ _ Hc Hd). simpl.
      split; [done |]. split; [done |]. done.
    + rewrite (ensureConnected_dial_ok _ Hc Hd). simpl.
      split; [done |]. split; [done |]. by intros [? ?].
Qed.

Lemma pushToUser_step c ctx push :
  client_step c (value_of (pushToUser Net c ctx push)).1.
Proof.
  unfold pushToUser. rewrite value_bind.
  pose proof (ensureConnected_value c) as (Hs & _ & _).
  by destruct (value_of (ensureConnected Net c)) as [c' [e |]].
Qed.

Lemma sendKick_step c ctx kick :
  client_step c (value_of (sendKick Net c ctx kick)).1.
Proof.
  unfold sendKick. rewrite value_bind.
  pose proof (ensureConnected_value c) as (Hs & _ & _).
  by destruct (value_of (ensureConnected Net c)) as [c' [e |]].
Qed.

Lemma sessionBindRemote_step c ctx msg :
  client_step c (value_of (sessionBindRemote Net c ctx msg)).1.
Proof.
  unfold sessionBindRemote. rewrite value_bind.
  pose proof (ensureConnected_value c) as (Hs & _ & _).
  by destruct (value_of (ensureConnected Net c)) as [c' [e |]].
Qed.

Lemma call_step c ctx req :
  client_step c (value_of (call Net c ctx req)).1.
Proof.
  unfold call. rewrite value_bind.
  pose proof (ensureConnected_value c) as (Hs & _ & _).
  by destruct (value_of (ensureConnected Net c)) as [c' [e |]].
Qed.

Lemma keeps_clients_refl gs : keeps_clients Net gs gs.
Proof. repeat split; try done. intros id c Hc. by exists c. Qed.

Lemma withClient_keeps gs id c c' :
  clientMap gs !! id = Some c → client_step c c' →
  keeps_clients Net gs (withClient gs id c').
Proof.
  intros Hc [Ha Hconn]. repeat split; try done.
  - simpl. apply dom_insert_lookup_L. by rewrite Hc.
  - intros id' c0 Hc0. simpl. destruct (decide (id = id')) as [<- | Hne].
    + rewrite lookup_insert_eq. exists c'. rewrite Hc in Hc0. injection Hc0 as <-.
      done.
    + rewrite lookup_insert_ne by done. by exists c0.
Qed.

Lemma forwardPush_keeps gs svID push :
  keeps_clients Net gs (value_of (forwardPush Net gs svID push)).1.
Proof.
  destruct (clientMap gs !! svID) as [c |] eqn:Hc.
  - rewrite (forwardPush_client _ _ _ _ _ Hc), value_pair. simpl.
    apply (withClient_keeps _ _ _ _ Hc), pushToUser_step.
  - rewrite (forwardPush_no_client _ _ _ _ Hc). apply keeps_clients_refl.
Qed.

(** The value of [Call], by cases. *)
Lemma Call_value gs ctx rpcType route sess msg sv :
  value_of (Call Net gs ctx rpcType route sess msg sv)
  = match clientMap gs !! ID sv with
    | None => (gs, (None, Some ErrNoConnectionToServer))
    | Some c =>
        match buildRequest Net (spanCtx Net gs ctx sv) rpcType route sess msg (server gs) with
        | inr err => (gs, (None, Some err))
        | inl req =>
            let out := value_of (call Net c (callCtx Net gs ctx route sv) req) in
            (withClient gs (ID sv) out.1,
             match out.2 with
             | inr err => (None, Some err)
             | inl res =>
                 match Error res with
                 | Some e => (None, Some (errorOfResponse Net e))
                 | None => (Some res, None)
                 end
             end)
        end
    end.
Proof.
  unfold Call. destruct (clientMap gs !! ID sv) as [c |]; [| done].
  rewrite value_bind.
  destruct (buildRequest Net _ _ _ _ _ _) as [req | err]; [| by rewrite value_bind].
  rewrite value_bind.
  destruct (value_of (call Net c _ req)) as [c' [res | err]]; simpl.
  - destruct (Error res); by rewrite value_bind.
  - by rewrite value_bind.
Qed.

(** X18.  None of the four operations adds or removes a client, moves one to
    another address, disconnects one, or changes the rest of the pool. *)
Theorem operations_keep_clients gs :
  (∀ ctx rpcType route sess msg sv,
     keeps_clients Net gs (value_of (Call Net gs ctx rpcType route sess msg sv)).1)
  ∧ (∀ uid sv push, keeps_clients Net gs (value_of (SendPush Net gs uid sv push)).1)
  ∧ (∀ uid ty kick, keeps_clients Net gs (value_of (SendKick Net gs uid ty kick)).1)
  ∧ (∀ uid, keeps_clients Net gs (value_of (BroadcastSessionBind Net gs uid)).1).
Proof.
  split; [| split; [| split]].
  - intros ctx rpcType route sess msg sv. rewrite Call_value.
    destruct (clientMap gs !! ID sv) as [c |] eqn:Hc; [| apply keeps_clients_refl].
    destruct (buildRequest Net _ _ _ _ _ _) as [req | err];
      [| apply keeps_clients_refl].
    simpl. apply (withClient_keeps _ _ _ _ Hc), call_step.
  - intros uid sv push. unfold SendPush. case_decide; [apply forwardPush_keeps |].
    destruct (bindingStorage gs) as [bs |]; [| apply keeps_clients_refl].
    rewrite value_bind. destruct (bs uid (Type_ sv)) as [svID [e |]].
    + apply keeps_clients_refl.
    + apply forwardPush_keeps.
  - intros uid ty kick. unfold SendKick.
    destruct (bindingStorage gs) as [bs |]; [| apply keeps_clients_refl].
    rewrite value_bind. destruct (bs uid ty) as [svID [e |]];
      [apply keeps_clients_refl |].
    destruct (clientMap gs !! svID) as [c |] eqn:Hc; [| apply keeps_clients_refl].
    rewrite !value_bind.
    pose proof (sendKick_step c (WithTimeout Net (Background Net) (reqTimeout gs)) kick) as Hs.
    destruct (value_of (sendKick Net c _ kick)) as [c' err]. simpl.
    by apply (withClient_keeps _ _ _ _ Hc).
  - intros uid. unfold BroadcastSessionBind.
    destruct (bindingStorage gs) as [bs |]; [| apply keeps_clients_refl].
    rewrite value_bind. destruct (bs uid (Type_ (server gs))) as [fid oe].
    case_decide; [| apply keeps_clients_refl].
    destruct (clientMap gs !! fid) as [c |] eqn:Hc; [| apply keeps_clients_refl].
    rewrite !value_bind.
    pose proof (sessionBindRemote_step c
                  (WithTimeout Net (Background Net) (reqTimeout gs))
                  (mkBindMsg uid (ID (server gs)))) as Hs.
    destruct (value_of (sessionBindRemote Net c _ _)) as [c' err]. simpl.
    by apply (withClient_keeps _ _ _ _ Hc).
Qed.

(** A call through a client that is connected, or can be dialled, reaches
    the stub and leaves the client connected. *)
Lemma call_reaches_stub c ctx req :
  connected c = true ∨ Dial Net (address c) = None →
  value_of (call Net c ctx req)
  = (mkGrpcClient (address c) true, cliCall Net (address c) ctx req).
Proof.
  intros Hconn. unfold call. rewrite value_bind.
  destruct (connected c) eqn:Hcon.
  - rewrite (ensureConnected_connected _ Hcon). simpl.
    by destruct c; simpl in *; subst.
  - destruct Hconn as [? | Hd]; [done |].
    by rewrite (ensureConnected_dial_ok _ Hcon Hd).
Qed.

(** X19.  When the peer can be reached and answers with a response without
    [Error], [Call] returns that response and a nil error, and the peer's
    client is connected afterwards. *)
Theorem Call_success gs ctx rpcType route sess msg sv c req res :
  clientMap gs !! ID sv = Some c →
  buildRequest Net (spanCtx Net gs ctx sv) rpcType route sess msg (server gs) = inl req →
  connected c = true ∨ Dial Net (address c) = None →
  cliCall Net (address c) (callCtx Net gs ctx route sv) req = inl res →
  Error res = None →
  value_of (Call Net gs ctx rpcType route sess msg sv)
  = (withClient gs (ID sv) (mkGrpcClient (address c) true), (Some res, None)).
Proof.
  intros Hc Hreq Hconn Hcall Herr. rewrite Call_value, Hc, Hreq.
  rewrite (call_reaches_stub _ _ _ Hconn). simpl. by rewrite Hcall, Herr.
Qed.

(** X20.  [Call] returns the errors of request construction and of the transport
    as they are; when the request cannot be built nothing is dialled or
    sent and the pool is unchanged. *)
Theorem Call_passes_errors_on gs ctx rpcType route sess msg sv c :
  clientMap gs !! ID sv = Some c →
  (∀ e, buildRequest Net (spanCtx Net gs ctx sv) rpcType route sess msg (server gs)
        = inr e →
        value_of (Call Net gs ctx rpcType route sess msg sv) = (gs, (None, Some e))
        ∧ Forall (λ ev, match ev with
                        | LogNoParentSpan _ _ | FinishSpan _ _ => True
                        | _ => False
                        end)
            (trace_of (Call Net gs ctx rpcType route sess msg sv)))
  ∧ (∀ req e, buildRequest Net (spanCtx Net gs ctx sv) rpcType route sess msg (server gs)
              = inl req →
              (value_of (call Net c (callCtx Net gs ctx route sv) req)).2 = inr e →
              (value_of (Call Net gs ctx rpcType route sess msg sv)).2 = (None, Some e)).
Proof.
  intros Hc. split.
  - intros e Hreq. split; [by rewrite Call_value, Hc, Hreq |].
    unfold Call. rewrite Hc, trace_bind, Hreq.
    apply Forall_app. split.
    + destruct (ExtractSpan Net ctx).2; [by repeat constructor | constructor].
    + by repeat constructor.
  - intros req e Hreq Hcall. rewrite Call_value, Hc, Hreq. cbv zeta. cbn [snd].
    by rewrite Hcall.
Qed.

(** X21.  When the peer's client is not connected and dialling fails, [SendPush]
    to that peer and [Call] to it return the dial error, call no stub, and
    leave the pool as it was. *)
Theorem dial_failure_is_returned gs id c e :
  clientMap gs !! id = Some c →
  connected c = false →
  Dial Net (address c) = Some e →
  (∀ uid ty md fe push, id ≠ "" →
     SendPush Net gs uid (mkServer id ty md fe) push
     = ([DialPeer (address c); Cancel], (gs, Some e)))
  ∧ (∀ ctx rpcType route sess msg ty md fe req,
       buildRequest Net (spanCtx Net gs ctx (mkServer id ty md fe)) rpcType route
         sess msg (server gs) = inl req →
       value_of (Call Net gs ctx rpcType route sess msg (mkServer id ty md fe))
       = (gs, (None, Some e))
       ∧ no_rpc Net (trace_of (Call Net gs ctx rpcType route sess msg
                                 (mkServer id ty md fe)))).
Proof.
  intros Hc Hcon Hd. split.
  - intros uid ty md fe push Hid. unfold SendPush. simpl.
    rewrite decide_True by done.
    rewrite (forwardPush_client _ _ _ _ _ Hc). unfold pushToUser.
    rewrite trace_bind, value_bind, (ensureConnected_dial_fails _ _ Hcon Hd).
    simpl. by rewrite (withClient_same _ _ _ _ Hc).
  - intros ctx rpcType route sess msg ty md fe req Hreq.
    assert (Hv : call Net c (callCtx Net gs ctx route (mkServer id ty md fe)) req
                 = ([DialPeer (address c)], (c, inr e))).
    { unfold call. rewrite (traced_eta (_ ≫= _)), trace_bind, value_bind.
      by rewrite (ensureConnected_dial_fails _ _ Hcon Hd). }
    split.
    + rewrite Call_value. simpl. rewrite Hc, Hreq, Hv. simpl.
      by rewrite (withClient_same _ _ _ _ Hc).
    + unfold Call. simpl. rewrite Hc, trace_bind, Hreq, trace_bind, Hv. simpl.
      unfold no_rpc. apply Forall_app. split.
      * destruct (ExtractSpan Net ctx).2; [by repeat constructor | constructor].
      * constructor; [done |]. unfold callDeferred.
        destruct (metricsReporters gs); by repeat constructor.
Qed.

(** X22.  A peer is dialled once: after a [SendPush] that connected the peer's
    client, the client is stored connected, and the next [SendPush] to that
    peer goes straight to the stub. *)
Theorem connection_is_reused gs id c uid ty md fe push push' :
  clientMap gs !! id = Some c →
  id ≠ "" →
  connected c = false →
  Dial Net (address c) = None →
  let sv := mkServer id ty md fe in
  let ctxT := WithTimeout Net (Background Net) (reqTimeout gs) in
  let first := SendPush Net gs uid sv push in
  trace_of first = [DialPeer (address c); RpcPushToUser (address c) ctxT push; Cancel]
  ∧ clientMap (value_of first).1 !! id = Some (mkGrpcClient (address c) true)
  ∧ trace_of (SendPush Net (value_of first).1 uid sv push')
    = [RpcPushToUser (address c) ctxT push'; Cancel].
Proof.
  intros Hc Hid Hcon Hd sv ctxT first. subst sv ctxT first.
  assert (H1 : SendPush Net gs uid (mkServer id ty md fe) push
               = ([DialPeer (address c);
                   RpcPushToUser (address c)
                     (WithTimeout Net (Background Net) (reqTimeout gs)) push; Cancel],
                  (withClient gs id (mkGrpcClient (address c) true),
                   cliPushToUser Net (address c)
                     (WithTimeout Net (Background Net) (reqTimeout gs)) push))).
  { unfold SendPush. simpl. rewrite decide_True by done.
    rewrite (forwardPush_client _ _ _ _ _ Hc). unfold pushToUser.
    rewrite trace_bind, value_bind, (ensureConnected_dial_ok _ Hcon Hd). done. }
  rewrite H1, trace_pair, value_pair. simpl.
  split; [done |]. split; [by rewrite lookup_insert_eq |].
  unfold SendPush. simpl. rewrite decide_True by done.
  erewrite forwardPush_client; [| simpl; apply lookup_insert_eq].
  unfold pushToUser. rewrite trace_bind.
  by rewrite ensureConnected_connected.
Qed.

(** X23.  Without an id in [frontendSv], a failing lookup in the binding
    directory makes [SendPush] return the lookup error; no client is looked
    for and nothing is dialled or sent. *)
Theorem SendPush_lookup_failure gs uid frontendSv push bs svID e :
  ID frontendSv = "" →
  bindingStorage gs = Some bs →
  bs uid (Type_ frontendSv) = (svID, Some e) →
  SendPush Net gs uid frontendSv push
  = ([LookupFrontend uid (Type_ frontendSv)], (gs, Some e)).
Proof.
  intros Hid Hbs Hlook. unfold SendPush.
  rewrite decide_False by (by intros ?). by rewrite Hbs, Hlook.
Qed.

End PoolFacts.

(** ** Membership of the pool *)
Section MembershipFacts.
Import cluster membership.
Context (Net : Network) (K : Keys) (region : string).
Implicit Type gs : GRPCClient Net.

Lemma getServerHost_value (sv : Server) :
  let ext := default "" (Metadata sv !! GRPCExternalHostKey K) in
  let int := default "" (Metadata sv !! GRPCHostKey K) in
  let reg := default "" (Metadata sv !! RegionKey K) in
  value_of (getServerHost Net K region sv)
  = if bool_decide (ext ≠ "") && (bool_decide (reg = "") || bool_decide (region ≠ reg))
    then (ext, GRPCExternalPortKey K) else (int, GRPCPortKey K).
Proof.
  intros ext int reg. subst ext int reg. unfold getServerHost.
  destruct (Metadata sv !! GRPCExternalHostKey K) as [ext |] eqn:He;
    destruct (Metadata sv !! RegionKey K) as [reg |] eqn:Hr; simpl;
    repeat case_bool_decide; simpl; try done;
    try (exfalso; naive_solver).
Qed.

(** [getServerHost] writes one log line and does nothing else. *)
Lemma getServerHost_trace (sv : Server) :
  ∃ ev, trace_of (getServerHost Net K region sv) = [ev]
        ∧ match ev with
          | WarnNoRegionUsingExternal _ | WarnNoRegionNorExternal _
          | InfoUsingInternal _ | InfoUsingExternal _ => True
          | _ => False
          end.
Proof.
  unfold getServerHost.
  repeat match goal with
         | |- context [if ?b then _ else _] => destruct b
         end; by eexists.
Qed.

(** X24.  [getServerHost] picks the external host, with the external port key,
    exactly when the server's external host is set and not empty and its
    region is unset, empty or not the local one; otherwise it picks the
    internal host with the internal port key.  A key that is present with an
    empty value counts as missing. *)
Theorem getServerHost_choice (sv : Server) :
  let ext := default "" (Metadata sv !! GRPCExternalHostKey K) in
  let int := default "" (Metadata sv !! GRPCHostKey K) in
  let reg := default "" (Metadata sv !! RegionKey K) in
  let out := value_of (getServerHost Net K region sv) in
  (ext ≠ "" ∧ (reg = "" ∨ region ≠ reg) → out = (ext, GRPCExternalPortKey K))
  ∧ (ext = "" ∨ (reg ≠ "" ∧ region = reg) → out = (int, GRPCPortKey K)).
Proof.
  intros ext int reg out. subst out. rewrite getServerHost_value.
  fold ext reg int. split.
  - intros [Hext Hreg]. rewrite (bool_decide_eq_true_2 _ Hext).
    destruct Hreg as [Hreg | Hreg].
    + by rewrite (bool_decide_eq_true_2 _ Hreg).
    + by rewrite (bool_decide_eq_true_2 (region ≠ reg) Hreg), orb_true_r.
  - intros [Hext | [Hreg Hsame]].
    + by rewrite bool_decide_eq_false_2 by (by intros ?).
    + rewrite (bool_decide_eq_false_2 (reg = "")) by done.
      rewrite (bool_decide_eq_false_2 (region ≠ reg)) by (by intros ?).
      by rewrite andb_false_r.
Qed.

Lemma AddServer_unfold gs sv :
  let hp := value_of (getServerHost Net K region sv) in
  AddServer Net K region gs sv
  = (trace_of (getServerHost Net K region sv)
       ++ (if decide (hp.1 = "") then [LogNoHost (ID sv)]
           else match Metadata sv !! hp.2 with
                | None => [LogNoPort (ID sv) hp.2]
                | Some port =>
                    let address := hp.1 +:+ ":" +:+ port in
                    (if lazy Net gs then []
                     else Peer (DialPeer address)
                          :: match Dial Net address with
                             | Some e => [LogUnableToConnect (ID sv) address e]
                             | None => []
                             end)
                    ++ [LogAdded (ID sv) address]
                end),
     if decide (hp.1 = "") then gs
     else match Metadata sv !! hp.2 with
          | None => gs
          | Some port => withClient gs (ID sv) (added_client Net gs (hp.1 +:+ ":" +:+ port))
          end).
Proof.
  intros hp. subst hp. unfold AddServer, added_client.
  rewrite (traced_eta (_ ≫= _)), trace_bind, value_bind.
  destruct (value_of (getServerHost Net K region sv)) as [host portKey].
  cbn [fst snd]. case_decide; [done |].
  destruct (Metadata sv !! portKey) as [port |]; [| done].
  destruct (lazy Net gs); [done |]. unfold peer, connect. simpl.
  by destruct (Dial Net (host +:+ ":" +:+ port)).
Qed.

Lemma getServerHost_quiet (sv : Server) :
  peerEvents Net (trace_of (getServerHost Net K region sv)) = []
  ∧ closedConns Net (trace_of (getServerHost Net K region sv)) = [].
Proof.
  destruct (getServerHost_trace sv) as (ev & -> & Hev). by destruct ev.
Qed.

(** X25.  With a host and a port in the metadata, [AddServer] stores under the
    server's id a client for the address host:port and changes nothing
    else, and closes no connection.  In lazy mode the client is not
    connected and nothing is dialled; otherwise the address is dialled once,
    and the client is stored also when dialling fails, then not connected. *)
Theorem AddServer_stores gs sv host portKey port :
  value_of (getServerHost Net K region sv) = (host, portKey) →
  host ≠ "" →
  Metadata sv !! portKey = Some port →
  let address := host +:+ ":" +:+ port in
  let out := AddServer Net K region gs sv in
  (∃ c, value_of out = withClient gs (ID sv) c
        ∧ cluster.address c = address
        ∧ (connected c = true ↔ lazy Net gs = false ∧ Dial Net address = None))
  ∧ (∀ id, id ≠ ID sv → clientMap (value_of out) !! id = clientMap gs !! id)
  ∧ peerEvents Net (trace_of out) = (if lazy Net gs then [] else [DialPeer address])
  ∧ closedConns Net (trace_of out) = [].
Proof.
  intros Hhp Hhost Hport address out. subst address out.
  destruct (getServerHost_quiet sv) as [Hq1 Hq2].
  rewrite AddServer_unfold, Hhp. cbn [fst snd].
  rewrite !decide_False by done. rewrite Hport, trace_pair, value_pair.
  unfold peerEvents, closedConns in *. rewrite !omap_app, Hq1, Hq2.
  unfold added_client. split; [| split; [| split]].
  - eexists. split; [done |].
    destruct (lazy Net gs); simpl; [intuition congruence |].
    destruct (Dial Net (host +:+ ":" +:+ port)); simpl; intuition congruence.
  - intros id Hne. simpl. by rewrite lookup_insert_ne.
  - destruct (lazy Net gs); [done |]. simpl.
    by destruct (Dial Net (host +:+ ":" +:+ port)).
  - destruct (lazy Net gs); [done |]. simpl.
    by destruct (Dial Net (host +:+ ":" +:+ port)).
Qed.

(** X26.  Without a host, or without the port that goes with the host chosen,
    [AddServer] leaves the pool as it was and dials nothing. *)
Theorem AddServer_ignores_incomplete_metadata gs sv :
  let hp := value_of (getServerHost Net K region sv) in
  hp.1 = "" ∨ Metadata sv !! hp.2 = None →
  value_of (AddServer Net K region gs sv) = gs
  ∧ peerEvents Net (trace_of (AddServer Net K region gs sv)) = [].
Proof.
  intros hp Hbad. subst hp. destruct (getServerHost_quiet sv) as [Hq1 _].
  rewrite AddServer_unfold, trace_pair, value_pair.
  unfold peerEvents in *. rewrite omap_app, Hq1.
  case_decide; [done |]. destruct Hbad as [? | ->]; done.
Qed.

(** X27.  After [AddServer] with a host and a port, a [Call] to that server finds
    the client: when the address can be dialled and the peer answers without
    [Error], the call returns the peer's response. *)
Theorem AddServer_then_Call gs sv host portKey port ctx rpcType route sess msg req res :
  value_of (getServerHost Net K region sv) = (host, portKey) →
  host ≠ "" →
  Metadata sv !! portKey = Some port →
  let address := host +:+ ":" +:+ port in
  let gs' := value_of (AddServer Net K region gs sv) in
  buildRequest Net (spanCtx Net gs ctx sv) rpcType route sess msg (server gs) = inl req →
  Dial Net address = None →
  cliCall Net address (callCtx Net gs ctx route sv) req = inl res →
  Error res = None →
  (value_of (Call Net gs' ctx rpcType route sess msg sv)).2 = (Some res, None)
  ∧ clientMap (value_of (Call Net gs' ctx rpcType route sess msg sv)).1 !! ID sv
    = Some (mkGrpcClient address true).
Proof.
  intros Hhp Hhost Hport address gs' Hreq Hdial Hcall Herr. subst address gs'.
  rewrite AddServer_unfold, Hhp, value_pair. cbn [fst snd].
  rewrite !decide_False by done. rewrite Hport.
  set (c := added_client Net gs (host +:+ ":" +:+ port)).
  assert (Ha : cluster.address c = host +:+ ":" +:+ port).
  { unfold c, added_client. destruct (lazy Net gs); [done |].
    by destruct (Dial Net _). }
  rewrite Call_value. simpl. rewrite lookup_insert_eq.
  change (spanCtx Net (withClient gs (ID sv) c) ctx sv) with (spanCtx Net gs ctx sv).
  change (callCtx Net (withClient gs (ID sv) c) ctx route sv)
    with (callCtx Net gs ctx route sv).
  rewrite Hreq, (call_reaches_stub Net c) by (right; by rewrite Ha).
  rewrite Ha. simpl. rewrite Hcall, Herr. split; [done |].
  by rewrite lookup_insert_eq.
Qed.

(** X28.  After [RemoveServer] the pool has no client for the server and is
    otherwise as before, and a [Call] to the server returns
    [ErrNoConnectionToServer] without doing anything; the connection is
    closed exactly when the client was connected; removing a server that has
    no client does nothing.  A pool made by [NewGRPCClient] has no client
    at all. *)
Theorem RemoveServer_then_Call gs sv ctx rpcType route sess msg :
  let out := RemoveServer Net gs sv in
  clientMap (value_of out) !! ID sv = None
  ∧ (∀ id, id ≠ ID sv → clientMap (value_of out) !! id = clientMap gs !! id)
  ∧ Call Net (value_of out) ctx rpcType route sess msg sv
    = ([], (value_of out, (None, Some ErrNoConnectionToServer)))
  ∧ closedConns Net (trace_of out)
    = match clientMap gs !! ID sv with
      | Some c => if connected c then [address c] else []
      | None => []
      end
  ∧ (clientMap gs !! ID sv = None → out = ([], gs))
  ∧ (∀ cfg sv0 reporters bs,
       Call Net (NewGRPCClient Net cfg sv0 reporters bs) ctx rpcType route sess msg sv
       = ([], (NewGRPCClient Net cfg sv0 reporters bs,
               (None, Some ErrNoConnectionToServer)))).
Proof.
  intros out. subst out.
  assert (Hv : value_of (RemoveServer Net gs sv)
               = match clientMap gs !! ID sv with
                 | Some _ => withoutClient Net gs (ID sv)
                 | None => gs
                 end).
  { unfold RemoveServer. destruct (clientMap gs !! ID sv); [| done].
    by rewrite !value_bind. }
  assert (Hgone : clientMap (value_of (RemoveServer Net gs sv)) !! ID sv = None).
  { rewrite Hv. destruct (clientMap gs !! ID sv) eqn:Hc; [| done].
    simpl. apply lookup_delete_eq. }
  split; [done |]. split; [| split; [| split; [| split]]].
  - intros id Hne. rewrite Hv. destruct (clientMap gs !! ID sv); [| done].
    simpl. by rewrite lookup_delete_ne.
  - unfold Call. by rewrite Hgone.
  - unfold RemoveServer. destruct (clientMap gs !! ID sv) as [c |]; [| done].
    rewrite trace_bind. unfold disconnect. by destruct (connected c).
  - intros Hnone. unfold RemoveServer. by rewrite Hnone.
  - intros cfg sv0 reporters bs. unfold Call, NewGRPCClient. simpl.
    by rewrite lookup_empty.
Qed.

End MembershipFacts.

(** ** The further properties on the small instances *)

Lemma Extract_no_methods_hint_witness :
  (registry.ExtractHandler demo_more.reflection demo_more.roomByValue).2
  = Some "type Room has no exported methods of handler type (hint: pass a pointer to value of that type)"
  ∧ (registry.ExtractRemote demo_more.reflection demo_more.roomByValue).2
    = Some "type Room has no exported methods of remote type (hint: pass a pointer to value of that type)".
Proof.
  destruct (Extract_no_methods_hint demo_more.reflection demo_more.roomByValue)
    as [Hh Hr]; [discriminate | reflexivity |].
  split.
  - destruct (Hh eq_refl) as [_ He]. exact He.
  - destruct (Hr eq_refl) as [_ He]. exact He.
Defined.

(** The same type passed by pointer registers its handler, bound to the
    receiver. *)
Example ExtractHandler_by_pointer :
  registry.ExtractHandler demo_more.reflection demo_more.roomByPointer
  = (registry.mkService "Room" "*Room" "*Room"
       {[ "Join" := component.mkHandler "*Room" "Join" (Some "JoinReq") false
                      message.Request ]}
       ∅ (registry.mkOptions "" None),
     None).
Proof. vm_compute. reflexivity. Qed.

Section PipelineExamples.
Import message component service pipeline.

Lemma dispatch_missing_route_witness :
  processHandlerMessage demo.runtime demo.plain None "Room.Leave" tt tt
    demo.joinPayload (IsMessageType Request) false
  = ([], ([], Some (PitayaError "NotFound" "" ∅))).
Proof.
  apply (dispatch_missing_route demo.runtime demo.plain None "Room.Leave" tt tt
           demo.joinPayload (IsMessageType Request) false).
  reflexivity.
Defined.

Lemma dispatch_bad_input_witness :
  processHandlerMessage demo_more.strict demo_more.strictGlobals None "Room.Join"
    tt tt demo.joinPayload IsOther false
  = ([], ([], Some (PitayaError "Internal" "" ∅)))
  ∧ processHandlerMessage demo_more.strict demo_more.strictGlobals None "Room.Join"
      tt tt [] (IsMessageType Request) false
    = ([], ([], Some (PitayaError "BadRequest" "" ∅))).
Proof.
  destruct (dispatch_bad_input demo_more.strict demo_more.strictGlobals None
              "Room.Join" tt tt demo.joinPayload false demo.joinHandler eq_refl)
    as [H1 _].
  destruct (dispatch_bad_input demo_more.strict demo_more.strictGlobals None
              "Room.Join" tt tt [] false demo.joinHandler eq_refl)
    as [_ H2].
  split; [exact H1 |].
  apply (H2 (IsMessageType Request) Request INil (ErrExternal "empty payload"));
    reflexivity.
Defined.

Lemma dispatch_error_has_no_payload_witness :
  (value_of (processHandlerMessage demo.runtime demo.audited None "Room.Fail" tt tt
               demo.joinPayload (IsMessageType Request) false)).1 = [].
Proof.
  apply (dispatch_error_has_no_payload demo.runtime demo.audited None "Room.Fail"
           tt tt demo.joinPayload (IsMessageType Request) false).
  eexists. reflexivity.
Defined.

Lemma handler_called_once_with_hooked_argument_witness :
  List.filter (is_handler demo_more.strict)
    (trace_of (processHandlerMessage demo_more.strict demo_more.strictGlobals None
                 "Room.Join" tt tt demo.joinPayload (IsMessageType Request) false))
  = [CallHandler ("Join" : RMethod demo_more.strict)
       [RVReceiver ("Room" : RValue demo_more.strict);
        RVCtx (tt : Ctx demo_more.strict);
        RVArg (IObj "checked:{name:A}" : iface (Obj demo_more.strict))]].
Proof.
  destruct (handler_called_once_with_hooked_argument demo_more.strict
              demo_more.strictGlobals None "Room.Join" tt tt demo.joinPayload
              (IsMessageType Request) false demo.joinHandler Request
              (IObj "checked:{name:A}")) as [H _].
  - split; [reflexivity |]. split; [reflexivity |]. split; [reflexivity |].
    exists (IObj "{name:A}"). split; reflexivity.
  - exact H.
Defined.

Lemma dispatch_without_post_hooks_witness :
  value_of (processHandlerMessage demo_more.strict demo_more.strictGlobals None
              "Room.Fail" tt tt demo.joinPayload (IsMessageType Notify) true)
  = ([], Some (ErrExternal "room is full"))
  ∧ value_of (processHandlerMessage demo_more.strict demo_more.strictGlobals None
                "Room.Join" tt tt demo.joinPayload (IsMessageType Request) true)
    = (list_byte_of_string "joined", None).
Proof.
  split.
  - destruct (dispatch_without_post_hooks demo_more.strict demo_more.strictGlobals
                None "Room.Fail" tt tt demo.joinPayload (IsMessageType Notify) true
                demo.failHandler Notify (IObj "checked:{name:A}")) as [H _].
    + split; [reflexivity |]. split; [reflexivity |]. split; [reflexivity |].
      exists (IObj "{name:A}"). split; reflexivity.
    + reflexivity.
    + apply H. reflexivity.
  - destruct (dispatch_without_post_hooks demo_more.strict demo_more.strictGlobals
                None "Room.Join" tt tt demo.joinPayload (IsMessageType Request) true
                demo.joinHandler Request (IObj "checked:{name:A}")) as [_ H].
    + split; [reflexivity |]. split; [reflexivity |]. split; [reflexivity |].
      exists (IObj "{name:A}"). split; reflexivity.
    + reflexivity.
    + apply H; reflexivity.
Defined.

Lemma dispatch_serialization_failure_witness :
  value_of (processHandlerMessage demo_more.strict demo_more.strictGlobals None
              "Room.Tick" tt tt [] (IsMessageType Notify) false)
  = (list_byte_of_string "{code:Internal}", None).
Proof.
  destruct (dispatch_serialization_failure demo_more.strict demo_more.strictGlobals
              None "Room.Tick" tt tt [] (IsMessageType Notify) false
              demo.tickHandler Notify INil INil (ErrExternal "nil value")) as [H _].
  - split; [reflexivity |]. split; [reflexivity |]. split; [reflexivity |].
    exists INil. split; reflexivity.
  - reflexivity.
  - reflexivity.
  - apply H. reflexivity.
Defined.

Lemma handler_argument_by_kind_witness :
  List.filter (is_handler demo_more.strict)
    (trace_of (processHandlerMessage demo_more.strict demo_more.rawGlobals None
                 "Room.Echo" tt tt [] (IsMessageType Request) false))
  = [CallHandler ("Echo" : RMethod demo_more.strict)
       [RVReceiver ("Room" : RValue demo_more.strict);
        RVCtx (tt : Ctx demo_more.strict);
        RVArg (IBytes [] : iface (Obj demo_more.strict))]]
  ∧ List.filter (is_handler demo_more.strict)
      (trace_of (processHandlerMessage demo_more.strict demo_more.rawGlobals None
                   "Room.Tick" tt tt [] (IsMessageType Notify) false))
    = [CallHandler ("Tick" : RMethod demo_more.strict)
         [RVReceiver ("Room" : RValue demo_more.strict);
          RVCtx (tt : Ctx demo_more.strict)]].
Proof.
  split.
  - destruct (handler_argument_by_kind demo_more.strict demo_more.rawGlobals None
                "Room.Echo" tt tt [] (IsMessageType Request) false
                demo_more.echoHandler Request eq_refl eq_refl eq_refl eq_refl)
      as [H _].
    apply H. reflexivity.
  - destruct (handler_argument_by_kind demo_more.strict demo_more.rawGlobals None
                "Room.Tick" tt tt [] (IsMessageType Notify) false
                demo.tickHandler Notify eq_refl eq_refl eq_refl eq_refl)
      as [_ H].
    apply H; reflexivity.
Defined.

End PipelineExamples.

Section PoolExamples.
Import cluster membership.

Lemma Call_success_witness :
  value_of (Call demo_more.flaky demo_more.flakyPool tt tt "room.Room.Join" tt
              demo.someMessage demo_more.peerB)
  = (withClient demo_more.flakyPool "B" (mkGrpcClient "10.0.0.2:3434" true),
     (Some (mkResponse (list_byte_of_string "pong") None), None)).
Proof.
  apply (Call_success demo_more.flaky demo_more.flakyPool tt tt "room.Room.Join" tt
           demo.someMessage demo_more.peerB (mkGrpcClient "10.0.0.2:3434" false)
           "room.Room.Join").
  - reflexivity.
  - reflexivity.
  - right. reflexivity.
  - reflexivity.
  - reflexivity.
Defined.

Lemma Call_passes_errors_on_witness :
  value_of (Call demo_more.flaky demo_more.flakyPool tt tt "" tt
              demo.someMessage demo_more.peerB)
  = (demo_more.flakyPool, (None, Some (ErrExternal "empty route")))
  ∧ (value_of (Call demo_more.flaky demo_more.flakyPool tt tt "room.Room.Join" tt
                 demo.someMessage demo_more.peerD)).2
    = (None, Some (ErrExternal "unavailable")).
Proof.
  split.
  - destruct (Call_passes_errors_on demo_more.flaky demo_more.flakyPool tt tt "" tt
                demo.someMessage demo_more.peerB (mkGrpcClient "10.0.0.2:3434" false)
                eq_refl) as [H _].
    apply (H (ErrExternal "empty route")). reflexivity.
  - destruct (Call_passes_errors_on demo_more.flaky demo_more.flakyPool tt tt
                "room.Room.Join" tt demo.someMessage demo_more.peerD
                (mkGrpcClient "10.0.0.3:3434" false) eq_refl) as [_ H].
    apply (H "room.Room.Join" (ErrExternal "unavailable")); reflexivity.
Defined.

Lemma dial_failure_is_returned_witness :
  SendPush demo_more.flaky demo_more.flakyPool "u1" demo_more.peerE "hello"
  = ([DialPeer "10.0.0.9:3434"; Cancel],
     (demo_more.flakyPool, Some (ErrExternal "connection refused")))
  ∧ value_of (Call demo_more.flaky demo_more.flakyPool tt tt "room.Room.Join" tt
                demo.someMessage demo_more.peerE)
    = (demo_more.flakyPool, (None, Some (ErrExternal "connection refused"))).
Proof.
  destruct (dial_failure_is_returned demo_more.flaky demo_more.flakyPool "E"
              (mkGrpcClient "10.0.0.9:3434" false)
              (ErrExternal "connection refused")) as [Hp Hc]; try reflexivity.
  split.
  - apply (Hp "u1" "connector" ∅ true "hello"). discriminate.
  - apply (Hc tt tt "room.Room.Join" tt demo.someMessage "connector" ∅ true
             "room.Room.Join"). reflexivity.
Defined.

Lemma connection_is_reused_witness :
  let first := SendPush demo_more.flaky demo_more.flakyPool "u1" demo_more.peerB "one" in
  trace_of first
  = [DialPeer "10.0.0.2:3434";
     RpcPushToUser "10.0.0.2:3434" (tt : Ctx demo_more.flaky) ("one" : Push demo_more.flaky);
     Cancel]
  ∧ trace_of (SendPush demo_more.flaky (value_of first).1 "u1" demo_more.peerB "two")
    = [RpcPushToUser "10.0.0.2:3434" (tt : Ctx demo_more.flaky)
         ("two" : Push demo_more.flaky);
       Cancel].
Proof.
  destruct (connection_is_reused demo_more.flaky demo_more.flakyPool "B"
              (mkGrpcClient "10.0.0.2:3434" false) "u1" "connector" ∅ true "one" "two")
    as (H1 & _ & H2); try reflexivity; try discriminate.
  split; [exact H1 | exact H2].
Defined.

Lemma AddServer_stores_witness :
  value_of (AddServer demo_more.flaky demo_more.keys "eu" demo_more.flakyPool
              demo_more.peerC)
  = withClient demo_more.flakyPool "C" (mkGrpcClient "10.0.0.4:3434" false)
  ∧ peerEvents demo_more.flaky
      (trace_of (AddServer demo_more.flaky demo_more.keys "eu" demo_more.flakyPool
                   demo_more.peerC))
    = [].
Proof.
  destruct (AddServer_stores demo_more.flaky demo_more.keys "eu" demo_more.flakyPool
              demo_more.peerC "10.0.0.4" "grpc-port" "3434")
    as ((c & Hv & Ha & Hc) & _ & Hp & _); try reflexivity; try discriminate.
  split; [| exact Hp]. rewrite Hv. f_equal.
  destruct c as [a [|]]; simpl in Ha; subst a; [| reflexivity].
  destruct (proj1 Hc eq_refl) as [Hl _]. discriminate Hl.
Defined.

(** Seen from the region "us", the same server is reached at its external
    address. *)
Example AddServer_other_region :
  value_of (AddServer demo_more.flaky demo_more.keys "us" demo_more.flakyPool
              demo_more.peerC)
  = withClient demo_more.flakyPool "C" (mkGrpcClient "c.example.org:443" false).
Proof. vm_compute. reflexivity. Qed.

Lemma AddServer_ignores_incomplete_metadata_witness :
  value_of (AddServer demo_more.flaky demo_more.keys "eu" demo_more.flakyPool
              demo_more.peerF)
  = demo_more.flakyPool.
Proof.
  apply (AddServer_ignores_incomplete_metadata demo_more.flaky demo_more.keys "eu"
           demo_more.flakyPool demo_more.peerF).
  right. reflexivity.
Defined.

Lemma AddServer_then_Call_witness :
  (value_of (Call demo_more.flaky
               (value_of (AddServer demo_more.flaky demo_more.keys "eu"
                            demo_more.flakyPool demo_more.peerC))
               tt tt "room.Room.Join" tt demo.someMessage demo_more.peerC)).2
  = (Some (mkResponse (list_byte_of_string "pong") None), None).
Proof.
  apply (AddServer_then_Call demo_more.flaky demo_more.keys "eu" demo_more.flakyPool
           demo_more.peerC "10.0.0.4" "grpc-port" "3434" tt tt "room.Room.Join" tt
           demo.someMessage "room.Room.Join");
    try reflexivity; discriminate.
Defined.

Lemma SendPush_lookup_failure_witness :
  SendPush demo.network (demo.pool (Some demo.directory)) "u3" demo.anyConnector "hello"
  = ([LookupFrontend "u3" "connector"],
     (demo.pool (Some demo.directory), Some (ErrExternal "key not found"))).
Proof.
  apply (SendPush_lookup_failure demo.network (demo.pool (Some demo.directory)) "u3"
           demo.anyConnector "hello" demo.directory ""); reflexivity.
Defined.

End PoolExamples.
